(** * qwen-code: loop detection, local-model concurrency manager and
    backend classification

    A shallow embedding of
    - [packages/core/src/services/loopDetectionService.ts]
    - [packages/core/src/utils/localModelConcurrencyManager.ts]
    - the utilities for local models ([isLocalModel] and its companions)
    together with the properties the specification states about them and
    further properties of the code.

    Conventions of the embedding.
    - A JavaScript string is the list of its UTF-16 code units ([list N]);
      [.length], [slice], [substring], [includes] and the regular expressions
      of the source (none of which carries the [u] flag) all work on code
      units.
    - JavaScript numbers that are counts or offsets are integers ([Z]);
      numbers that result from a division, a product with a decimal
      constant or a weighted average are exact rationals ([Q]): the
      rounding of binary64 is not modelled.
    - Every method of a class takes the object state and returns the new
      state next to its result. *)

From Stdlib Require Import ZArith QArith Qround String Ascii Lia Lqa.
From Stdlib Require DecimalString DecimalPos.
From stdpp Require Import base option list gmap sorting.

Local Open Scope Z_scope.

(* ===================================================================== *)
(** ** JavaScript strings *)
(* ===================================================================== *)

Module JS.

Abbreviation jsstring := (list N).

(** A string literal of the source, as code units. *)
Definition lit (s : String.string) : jsstring :=
  List.map N_of_ascii (list_ascii_of_string s).

Definition strlen (s : jsstring) : Z := Z.of_nat (length s).

(** [s.slice(start)] *)
Definition slice_from (s : jsstring) (start : Z) : jsstring :=
  let len := strlen s in
  let k := if start <? 0 then Z.max (len + start) 0 else Z.min start len in
  drop (Z.to_nat k) s.

(** [s.substring(a, b)]: both ends are clamped to [0, length] and swapped
    when out of order. *)
Definition substring (s : jsstring) (a b : Z) : jsstring :=
  let len := strlen s in
  let a' := Z.min (Z.max a 0) len in
  let b' := Z.min (Z.max b 0) len in
  let lo := Z.min a' b' in
  let hi := Z.max a' b' in
  take (Z.to_nat (hi - lo)) (drop (Z.to_nat lo) s).

Fixpoint startsWith (p s : jsstring) : bool :=
  match p, s with
  | [], _ => true
  | _ :: _, [] => false
  | a :: p', b :: s' => (a =? b)%N && startsWith p' s'
  end.

(** [s.includes(p)] *)
Fixpoint includes (p s : jsstring) : bool :=
  startsWith p s ||
  match s with
  | [] => false
  | _ :: s' => includes p s'
  end.

(** [s.toLowerCase()] on the ASCII letters; every other code unit is kept.
    (Outside ASCII the real function also maps accented capitals; no
    pattern of the source contains such a letter.) *)
Definition lowerUnit (c : N) : N :=
  if ((65 <=? c) && (c <=? 90))%N then (c + 32)%N else c.

Definition toLowerCase (s : jsstring) : jsstring := List.map lowerUnit s.

(** The character classes of ECMAScript regular expressions. *)
Definition isWhiteSpace (c : N) : bool :=
  ((9 <=? c) && (c <=? 13) || (c =? 32) || (c =? 160) || (c =? 5760)
   || (8192 <=? c) && (c <=? 8202) || (c =? 8232) || (c =? 8233)
   || (c =? 8239) || (c =? 8287) || (c =? 12288) || (c =? 65279))%N.

Definition isLineTerminator (c : N) : bool :=
  ((c =? 10) || (c =? 13) || (c =? 8232) || (c =? 8233))%N.

Definition isDigit (c : N) : bool := ((48 <=? c) && (c <=? 57))%N.

(** [(text.match(/c/g) || []).length] for a single character [c]. *)
Definition countUnit (c : N) (s : jsstring) : Z :=
  Z.of_nat (length (List.filter (N.eqb c) s)).

(** [x > y] on numbers. *)
Definition Qgtb (x y : Q) : bool := negb (Qle_bool x y).

(** [String(n)] for an integer [n]. *)
Definition ofInteger (n : Z) : jsstring :=
  lit (DecimalString.NilZero.string_of_int (Z.to_int n)).

End JS.

Import JS.

(* ===================================================================== *)
(** ** The platform digest: SHA-256 (FIPS 180-4) over UTF-8 *)
(* ===================================================================== *)

Module SHA256.

(** [Buffer.from(s, 'utf8')]: the UTF-8 bytes of a string given by its
    UTF-16 code units; a surrogate without its partner becomes U+FFFD. *)
Definition isHighSurrogate (c : N) : bool := ((55296 <=? c) && (c <=? 56319))%N.
Definition isLowSurrogate (c : N) : bool := ((56320 <=? c) && (c <=? 57343))%N.

Definition utf8OfCodePoint (p : N) : list N :=
  (if p <? 128 then [p]
   else if p <? 2048 then [192 + p / 64; 128 + p mod 64]
   else if p <? 65536 then
     [224 + p / 4096; 128 + (p / 64) mod 64; 128 + p mod 64]
   else
     [240 + p / 262144; 128 + (p / 4096) mod 64; 128 + (p / 64) mod 64;
      128 + p mod 64])%N.

Fixpoint utf8 (s : jsstring) : list N :=
  match s with
  | [] => []
  | c :: s' =>
      if isHighSurrogate c then
        match s' with
        | d :: s'' =>
            if isLowSurrogate d
            then utf8OfCodePoint (65536 + (c - 55296) * 1024 + (d - 56320))%N
                 ++ utf8 s''
            else utf8OfCodePoint 65533 ++ utf8 s'
        | [] => utf8OfCodePoint 65533
        end
      else if isLowSurrogate c then utf8OfCodePoint 65533 ++ utf8 s'
      else utf8OfCodePoint c ++ utf8 s'
  end.

(** 32-bit words as integers below [2^32]. *)
Definition w32 (x : Z) : Z := x mod 4294967296.

Definition rotr (n x : Z) : Z :=
  Z.lor (Z.shiftr x n) (w32 (Z.shiftl x (32 - n))).

Definition Ch (x y z : Z) : Z :=
  Z.lxor (Z.land x y) (Z.land (Z.lnot x) z).

Definition Maj (x y z : Z) : Z :=
  Z.lxor (Z.lxor (Z.land x y) (Z.land x z)) (Z.land y z).

Definition Sigma0 (x : Z) : Z :=
  Z.lxor (Z.lxor (rotr 2 x) (rotr 13 x)) (rotr 22 x).

Definition Sigma1 (x : Z) : Z :=
  Z.lxor (Z.lxor (rotr 6 x) (rotr 11 x)) (rotr 25 x).

Definition sigma0 (x : Z) : Z :=
  Z.lxor (Z.lxor (rotr 7 x) (rotr 18 x)) (Z.shiftr x 3).

Definition sigma1 (x : Z) : Z :=
  Z.lxor (Z.lxor (rotr 17 x) (rotr 19 x)) (Z.shiftr x 10).

(** The constants of the standard, from their definition: the first 32
    bits of the fractional parts of the cube roots (round constants) and
    of the square roots (initial hash value) of the first primes. *)
Definition isPrime (n : Z) : bool :=
  forallb (fun d => negb (n mod Z.of_nat d =? 0)) (seq 2 (Z.to_nat n - 2)).

Definition primesBelow (n : nat) : list Z :=
  List.filter isPrime (List.map Z.of_nat (seq 2 (n - 2))).

(** The greatest [r] below [2 ^ bits] above [acc] with [r ^ 3 <= n], one
    bit at a time from the top. *)
Fixpoint cubeRoot (bits : nat) (n acc : Z) : Z :=
  match bits with
  | O => acc
  | S bits =>
      let r := acc + 2 ^ Z.of_nat bits in
      if r * r * r <=? n then cubeRoot bits n r else cubeRoot bits n acc
  end.

Definition K : list Z :=
  Eval vm_compute in
    List.map (fun p => cubeRoot 40 (p * 2 ^ 96) 0 mod 2 ^ 32) (primesBelow 312).

Definition initialHash : list Z :=
  Eval vm_compute in
    List.map (fun p => Z.sqrt (p * 2 ^ 64) mod 2 ^ 32) (primesBelow 20).

(** The message followed by the bit 1, zeros, and its length in bits on 64
    bits, up to a multiple of 64 bytes. *)
Definition bigEndian (bytes : nat) (x : Z) : list Z :=
  List.map (fun i => Z.shiftr x (8 * Z.of_nat (bytes - 1 - i)) mod 256)
           (seq 0 bytes).

Definition pad (message : list Z) : list Z :=
  let len := Z.of_nat (length message) in
  let zeros := Z.to_nat ((55 - len) mod 64) in
  message ++ [128] ++ repeat 0 zeros ++ bigEndian 8 (8 * len).

Fixpoint wordsOf (bytes : list Z) : list Z :=
  match bytes with
  | a :: b :: c :: d :: rest =>
      (a * 16777216 + b * 65536 + c * 256 + d) :: wordsOf rest
  | _ => []
  end.

(** The message schedule: [n] more words after the ones in [w]. *)
Fixpoint extend (n : nat) (w : list Z) : list Z :=
  match n with
  | O => w
  | S n' =>
      let t := length w in
      let x :=
        w32 (sigma1 (nth (t - 2) w 0) + nth (t - 7) w 0
             + sigma0 (nth (t - 15) w 0) + nth (t - 16) w 0) in
      extend n' (w ++ [x])
  end.

Definition round (st : list Z) (kw : Z * Z) : list Z :=
  match st with
  | [a; b; c; d; e; f; g; h] =>
      let T1 := w32 (h + Sigma1 e + Ch e f g + fst kw + snd kw) in
      let T2 := w32 (Sigma0 a + Maj a b c) in
      [w32 (T1 + T2); a; b; c; w32 (d + T1); e; f; g]
  | _ => st
  end.

Definition compress (hash : list Z) (block : list Z) : list Z :=
  let w := extend 48 (wordsOf block) in
  let st := fold_left round (combine K w) hash in
  List.map (fun p => w32 (fst p + snd p)) (combine hash st).

Fixpoint blocks (n : nat) (bytes : list Z) : list (list Z) :=
  match n with
  | O => []
  | S n' => take 64 bytes :: blocks n' (drop 64 bytes)
  end.

Definition digestWords (message : list Z) : list Z :=
  let padded := pad message in
  fold_left compress (blocks (length padded / 64) padded) initialHash.

Definition hexUnit (d : Z) : N :=
  Z.to_N (if d <? 10 then 48 + d else 87 + d).

Definition hexWord (x : Z) : jsstring :=
  List.map (fun i => hexUnit (Z.shiftr x (4 * Z.of_nat (7 - i)) mod 16))
           (seq 0 8).

(** [createHash('sha256').update(s).digest('hex')] *)
Definition hexDigest (s : jsstring) : jsstring :=
  concat (List.map hexWord (digestWords (List.map Z.of_N (utf8 s)))).

End SHA256.

(* ===================================================================== *)
(** ** Backend classification: [isLocalModel] *)
(* ===================================================================== *)

Module LocalModelUtils.

Definition localPatterns : list jsstring :=
  List.map lit
    ["localhost"; "127.0.0.1"; "0.0.0.0"; "192.168."; "10.0."; "172.16.";
     "local"; ":1234"; ":8080"; ":11434"; ":8000"]%string.

Definition localModelPatterns : list jsstring :=
  List.map lit
    ["local"; "ollama"; "llama"; "mistral"; "qwen"; "codellama"; "vicuna";
     "alpaca"]%string.

(** [a || b || ''] on optional strings: [undefined] and the empty string
    are both falsy. *)
Definition orElse (a : option jsstring) (b : jsstring) : jsstring :=
  match a with
  | Some (c :: s) => c :: s
  | _ => b
  end.

(** [env] is [process.env['OPENAI_BASE_URL']]. *)
Definition isLocalModel (env baseUrl model : option jsstring) : bool :=
  let openaiBaseUrl := orElse baseUrl (orElse env []) in
  let isLocalUrl :=
    existsb (fun pattern => includes pattern (toLowerCase openaiBaseUrl))
            localPatterns in
  let isLocalModelName :=
    match model with
    | Some (c :: m) =>
        existsb (fun pattern => includes pattern (toLowerCase (c :: m)))
                localModelPatterns
    | _ => false
    end in
  isLocalUrl || isLocalModelName.

(* --------------------------------------------------------------------- *)
(** *** The other utilities for local models *)

(** *** [parseInt(s, 10)] *)




(** *** Token limit *)


(** *** Capabilities *)

(** The fields of [process.memoryUsage()] the utilities read. *)
Record MemoryUsage := {
  heapTotal : Z;
  heapUsed : Z;
  external : Z;
}.

Record MemoryConstraints := {
  maxContextSize : option Z;
  aggressiveCompression : option bool;
}.

Record HardwareOptimization := {
  useGPU : option bool;
  batchSize : option Z;
  modelQuantization : option jsstring;
}.

Record LocalModelConfig := {
  maxConcurrentRequests : option Z;
  adaptiveTimeout : option bool;
  memoryConstraints : option MemoryConstraints;
  hardwareOptimization : option HardwareOptimization;
}.

Definition set_maxConcurrentRequests (v : Z) (c : LocalModelConfig)
  : LocalModelConfig :=
  {| maxConcurrentRequests := Some v; adaptiveTimeout := adaptiveTimeout c;
     memoryConstraints := memoryConstraints c;
     hardwareOptimization := hardwareOptimization c |}.

(** [config.memoryConstraints!.maxContextSize = v] *)
Definition set_maxContextSize (v : Z) (c : LocalModelConfig)
  : LocalModelConfig :=
  {| maxConcurrentRequests := maxConcurrentRequests c;
     adaptiveTimeout := adaptiveTimeout c;
     memoryConstraints :=
       fmap (fun m => {| maxContextSize := Some v;
                         aggressiveCompression := aggressiveCompression m |})
            (memoryConstraints c);
     hardwareOptimization := hardwareOptimization c |}.

(** [config.memoryConstraints!.aggressiveCompression = v] *)
Definition set_aggressiveCompression (v : bool) (c : LocalModelConfig)
  : LocalModelConfig :=
  {| maxConcurrentRequests := maxConcurrentRequests c;
     adaptiveTimeout := adaptiveTimeout c;
     memoryConstraints :=
       fmap (fun m => {| maxContextSize := maxContextSize m;
                         aggressiveCompression := Some v |})
            (memoryConstraints c);
     hardwareOptimization := hardwareOptimization c |}.

Definition set_hardwareOptimization (v : HardwareOptimization)
           (c : LocalModelConfig) : LocalModelConfig :=
  {| maxConcurrentRequests := maxConcurrentRequests c;
     adaptiveTimeout := adaptiveTimeout c;
     memoryConstraints := memoryConstraints c;
     hardwareOptimization := Some v |}.

(** [cudaVisibleDevices] and [cudaDeviceOrder] are the two environment
    variables, [argv] is [process.argv]. *)
Definition detectLocalModelCapabilities (memoryUsage : MemoryUsage)
           (cudaVisibleDevices cudaDeviceOrder : option jsstring)
           (argv : list jsstring) : LocalModelConfig :=
  let totalMemory := heapTotal memoryUsage + external memoryUsage in
  let config :=
    {| maxConcurrentRequests := Some 2;
       adaptiveTimeout := Some true;
       memoryConstraints :=
         Some {| maxContextSize := None;
                 aggressiveCompression := Some true |};
       hardwareOptimization := None |} in
  let config :=
    if 8000000000 <? totalMemory then
      set_maxContextSize 80000 (set_maxConcurrentRequests 4 config)
    else if 4000000000 <? totalMemory then
      set_maxContextSize 80000 (set_maxConcurrentRequests 2 config)
    else
      set_aggressiveCompression true
        (set_maxContextSize 80000 (set_maxConcurrentRequests 1 config)) in
  let hasGPU :=
    bool_decide (cudaVisibleDevices <> None)
    || bool_decide (cudaDeviceOrder <> None)
    || existsb (fun arg => includes (lit "--gpu") arg) argv in
  if hasGPU then
    set_hardwareOptimization
      {| useGPU := Some true; batchSize := Some 8;
         modelQuantization := None |} config
  else config.

(** *** Compression threshold *)

Definition getCompressionThreshold (isLocal : bool)
           (memoryUsage : MemoryUsage) : Q :=
  if negb isLocal then 0.9%Q
  else
    let heapUsed := heapUsed memoryUsage in
    if 2000000000 <? heapUsed then 0.3%Q
    else if 1000000000 <? heapUsed then 0.5%Q
    else 0.6%Q.

(** *** Sampling parameters *)



(** *** [LocalModelMonitor] *)

Record LocalModelMonitor := {
  responseTimeHistory : list Q;
  errorCount : Z;
  totalRequests : Z;
}.

Definition newMonitor : LocalModelMonitor :=
  {| responseTimeHistory := []; errorCount := 0; totalRequests := 0 |}.

Definition recordResponseTime (timeMs : Q) (m : LocalModelMonitor)
  : LocalModelMonitor :=
  let history := responseTimeHistory m ++ [timeMs] in
  {| responseTimeHistory :=
       if 100 <? Z.of_nat (length history) then drop 1 history else history;
     errorCount := errorCount m;
     totalRequests := totalRequests m |}.

Definition recordError (m : LocalModelMonitor) : LocalModelMonitor :=
  {| responseTimeHistory := responseTimeHistory m;
     errorCount := errorCount m + 1;
     totalRequests := totalRequests m |}.

Definition recordRequest (m : LocalModelMonitor) : LocalModelMonitor :=
  {| responseTimeHistory := responseTimeHistory m;
     errorCount := errorCount m;
     totalRequests := totalRequests m + 1 |}.

(** The calls a monitor receives. *)
Inductive MonitorCall :=
| RecordResponseTime (timeMs : Q)
| RecordError
| RecordRequest.

Definition monitorStep (m : LocalModelMonitor) (c : MonitorCall)
  : LocalModelMonitor :=
  match c with
  | RecordResponseTime timeMs => recordResponseTime timeMs m
  | RecordError => recordError m
  | RecordRequest => recordRequest m
  end.

(** The response times among a list of calls, in order. *)
Definition timesOf (calls : list MonitorCall) : list Q :=
  omap (fun c => match c with RecordResponseTime t => Some t | _ => None end)
       calls.

(** *** Errors of a local model *)

(** What was thrown: an [Error] object by its [name] and [message], or
    another value by its [String(value)]. *)
Inductive Thrown :=
| ErrorObject (name message : jsstring)
| OtherValue (text : jsstring).

(** [String(error)]; for an [Error] this is [Error.prototype.toString]. *)
Definition String_of (error : Thrown) : jsstring :=
  match error with
  | ErrorObject name message =>
      match name, message with
      | [], _ => message
      | _, [] => name
      | _, _ => name ++ lit ": " ++ message
      end
  | OtherValue text => text
  end.

Definition localModelErrorPatterns : list jsstring :=
  List.map lit
    ["connection refused"; "econnrefused"; "model not loaded";
     "model not found"; "out of memory"; "cuda out of memory";
     "inference timeout"; "model loading"; "context length exceeded";
     "token limit exceeded"; "ollama"; "local server"; "localhost"]%string.

Definition isLocalModelError (error : Thrown) : bool :=
  let errorMessage :=
    match error with
    | ErrorObject _ message => toLowerCase message
    | OtherValue _ => toLowerCase (String_of error)
    end in
  existsb (fun pattern => includes pattern errorMessage)
          localModelErrorPatterns.

Record RetryConfig := {
  maxAttempts : Z;
  initialDelayMs : Z;
  maxDelayMs : Z;
  backoffMultiplier : Q;
  shouldRetry : Thrown -> bool;
}.

Definition getLocalModelRetryConfig : RetryConfig :=
  {| maxAttempts := 3;
     initialDelayMs := 1000;
     maxDelayMs := 8000;
     backoffMultiplier := 1.5%Q;
     shouldRetry := fun error =>
       if isLocalModelError error then
         let errorMessage := toLowerCase (String_of error) in
         negb (includes (lit "out of memory") errorMessage
               || includes (lit "model not found") errorMessage
               || includes (lit "context length exceeded") errorMessage)
       else true |}.

(** *** Notions used in the statements below *)

(** The text [isLocalModelError] searches. *)
Definition inspectedText (error : Thrown) : jsstring :=
  match error with
  | ErrorObject _ message => message
  | OtherValue text => text
  end.

(** The text names a permanent failure. *)
Definition permanentFailure (text : jsstring) : bool :=
  existsb (fun pattern => includes pattern (toLowerCase text))
    (List.map lit
       ["out of memory"; "model not found"; "context length exceeded"]%string).

(** The last [n] elements of a list. *)
Definition lastN {A} (n : nat) (l : list A) : list A :=
  drop (length l - n) l.

Definition cudaFailure : Thrown :=
  ErrorObject (lit "Error") (lit "CUDA out of memory. Tried to allocate 2 GiB").

Definition quietUsage : MemoryUsage :=
  {| heapTotal := 500000000; heapUsed := 300000000; external := 1000000 |}.

Definition busyUsage : MemoryUsage :=
  {| heapTotal := 3000000000; heapUsed := 2500000000; external := 1000000 |}.

End LocalModelUtils.

(* ===================================================================== *)
(** ** Loop detection service *)
(* ===================================================================== *)

Module LoopDetection.

Definition TOOL_CALL_LOOP_THRESHOLD : Z := 5.
Definition CONTENT_LOOP_THRESHOLD : Z := 4.
Definition CONTENT_CHUNK_SIZE : Z := 20.
Definition MAX_HISTORY_LENGTH : Z := 1000.
Definition DEFAULT_LLM_CHECK_INTERVAL : Z := 3.

(** [LoopType] of the telemetry events. *)
Inductive LoopType :=
| CONSECUTIVE_IDENTICAL_TOOL_CALLS
| CHANTING_IDENTICAL_SENTENCES
| LLM_DETECTED_LOOP.

(** [new LoopDetectedEvent(loopType, promptId)] *)
Record LoopDetectedEvent := {
  loop_type : LoopType;
  prompt_id : jsstring;
}.

(** The private fields of [LoopDetectionService]; [telemetry] is the
    telemetry sink, the events handed to [logLoopDetected] in order. *)
Record Service := {
  promptId : jsstring;
  lastToolCallKey : option jsstring;
  toolCallRepetitionCount : Z;
  streamContentHistory : jsstring;
  contentStats : gmap jsstring (list Z);
  lastContentIndex : Z;
  loopDetected : bool;
  inCodeBlock : bool;
  turnsInCurrentPrompt : Z;
  llmCheckInterval : Z;
  lastCheckTurn : Z;
  loopRecoveryAttempts : Z;
  telemetry : list LoopDetectedEvent;
}.

(** The state of a newly constructed service. *)
Definition newService : Service :=
  {| promptId := [];
     lastToolCallKey := None;
     toolCallRepetitionCount := 0;
     streamContentHistory := [];
     contentStats := ∅;
     lastContentIndex := 0;
     loopDetected := false;
     inCodeBlock := false;
     turnsInCurrentPrompt := 0;
     llmCheckInterval := DEFAULT_LLM_CHECK_INTERVAL;
     lastCheckTurn := 0;
     loopRecoveryAttempts := 0;
     telemetry := [] |}.

(** Field assignments. *)
Definition set_promptId (v : jsstring) (s : Service) : Service :=
  {| promptId := v; lastToolCallKey := lastToolCallKey s;
     toolCallRepetitionCount := toolCallRepetitionCount s;
     streamContentHistory := streamContentHistory s;
     contentStats := contentStats s; lastContentIndex := lastContentIndex s;
     loopDetected := loopDetected s; inCodeBlock := inCodeBlock s;
     turnsInCurrentPrompt := turnsInCurrentPrompt s;
     llmCheckInterval := llmCheckInterval s; lastCheckTurn := lastCheckTurn s;
     loopRecoveryAttempts := loopRecoveryAttempts s;
     telemetry := telemetry s |}.

Definition set_toolCall (k : option jsstring) (n : Z) (s : Service) : Service :=
  {| promptId := promptId s; lastToolCallKey := k;
     toolCallRepetitionCount := n;
     streamContentHistory := streamContentHistory s;
     contentStats := contentStats s; lastContentIndex := lastContentIndex s;
     loopDetected := loopDetected s; inCodeBlock := inCodeBlock s;
     turnsInCurrentPrompt := turnsInCurrentPrompt s;
     llmCheckInterval := llmCheckInterval s; lastCheckTurn := lastCheckTurn s;
     loopRecoveryAttempts := loopRecoveryAttempts s;
     telemetry := telemetry s |}.

Definition set_streamContentHistory (v : jsstring) (s : Service) : Service :=
  {| promptId := promptId s; lastToolCallKey := lastToolCallKey s;
     toolCallRepetitionCount := toolCallRepetitionCount s;
     streamContentHistory := v;
     contentStats := contentStats s; lastContentIndex := lastContentIndex s;
     loopDetected := loopDetected s; inCodeBlock := inCodeBlock s;
     turnsInCurrentPrompt := turnsInCurrentPrompt s;
     llmCheckInterval := llmCheckInterval s; lastCheckTurn := lastCheckTurn s;
     loopRecoveryAttempts := loopRecoveryAttempts s;
     telemetry := telemetry s |}.

Definition set_contentStats (v : gmap jsstring (list Z)) (s : Service) : Service :=
  {| promptId := promptId s; lastToolCallKey := lastToolCallKey s;
     toolCallRepetitionCount := toolCallRepetitionCount s;
     streamContentHistory := streamContentHistory s;
     contentStats := v; lastContentIndex := lastContentIndex s;
     loopDetected := loopDetected s; inCodeBlock := inCodeBlock s;
     turnsInCurrentPrompt := turnsInCurrentPrompt s;
     llmCheckInterval := llmCheckInterval s; lastCheckTurn := lastCheckTurn s;
     loopRecoveryAttempts := loopRecoveryAttempts s;
     telemetry := telemetry s |}.

Definition set_lastContentIndex (v : Z) (s : Service) : Service :=
  {| promptId := promptId s; lastToolCallKey := lastToolCallKey s;
     toolCallRepetitionCount := toolCallRepetitionCount s;
     streamContentHistory := streamContentHistory s;
     contentStats := contentStats s; lastContentIndex := v;
     loopDetected := loopDetected s; inCodeBlock := inCodeBlock s;
     turnsInCurrentPrompt := turnsInCurrentPrompt s;
     llmCheckInterval := llmCheckInterval s; lastCheckTurn := lastCheckTurn s;
     loopRecoveryAttempts := loopRecoveryAttempts s;
     telemetry := telemetry s |}.

Definition set_loopDetected (v : bool) (s : Service) : Service :=
  {| promptId := promptId s; lastToolCallKey := lastToolCallKey s;
     toolCallRepetitionCount := toolCallRepetitionCount s;
     streamContentHistory := streamContentHistory s;
     contentStats := contentStats s; lastContentIndex := lastContentIndex s;
     loopDetected := v; inCodeBlock := inCodeBlock s;
     turnsInCurrentPrompt := turnsInCurrentPrompt s;
     llmCheckInterval := llmCheckInterval s; lastCheckTurn := lastCheckTurn s;
     loopRecoveryAttempts := loopRecoveryAttempts s;
     telemetry := telemetry s |}.

Definition set_inCodeBlock (v : bool) (s : Service) : Service :=
  {| promptId := promptId s; lastToolCallKey := lastToolCallKey s;
     toolCallRepetitionCount := toolCallRepetitionCount s;
     streamContentHistory := streamContentHistory s;
     contentStats := contentStats s; lastContentIndex := lastContentIndex s;
     loopDetected := loopDetected s; inCodeBlock := v;
     turnsInCurrentPrompt := turnsInCurrentPrompt s;
     llmCheckInterval := llmCheckInterval s; lastCheckTurn := lastCheckTurn s;
     loopRecoveryAttempts := loopRecoveryAttempts s;
     telemetry := telemetry s |}.

Definition set_llmCheck (turns interval last : Z) (s : Service) : Service :=
  {| promptId := promptId s; lastToolCallKey := lastToolCallKey s;
     toolCallRepetitionCount := toolCallRepetitionCount s;
     streamContentHistory := streamContentHistory s;
     contentStats := contentStats s; lastContentIndex := lastContentIndex s;
     loopDetected := loopDetected s; inCodeBlock := inCodeBlock s;
     turnsInCurrentPrompt := turns;
     llmCheckInterval := interval; lastCheckTurn := last;
     loopRecoveryAttempts := loopRecoveryAttempts s;
     telemetry := telemetry s |}.

Definition set_loopRecoveryAttempts (v : Z) (s : Service) : Service :=
  {| promptId := promptId s; lastToolCallKey := lastToolCallKey s;
     toolCallRepetitionCount := toolCallRepetitionCount s;
     streamContentHistory := streamContentHistory s;
     contentStats := contentStats s; lastContentIndex := lastContentIndex s;
     loopDetected := loopDetected s; inCodeBlock := inCodeBlock s;
     turnsInCurrentPrompt := turnsInCurrentPrompt s;
     llmCheckInterval := llmCheckInterval s; lastCheckTurn := lastCheckTurn s;
     loopRecoveryAttempts := v;
     telemetry := telemetry s |}.

(** [logLoopDetected(config, new LoopDetectedEvent(ty, this.promptId))] *)
Definition logLoopDetected (ty : LoopType) (s : Service) : Service :=
  {| promptId := promptId s; lastToolCallKey := lastToolCallKey s;
     toolCallRepetitionCount := toolCallRepetitionCount s;
     streamContentHistory := streamContentHistory s;
     contentStats := contentStats s; lastContentIndex := lastContentIndex s;
     loopDetected := loopDetected s; inCodeBlock := inCodeBlock s;
     turnsInCurrentPrompt := turnsInCurrentPrompt s;
     llmCheckInterval := llmCheckInterval s; lastCheckTurn := lastCheckTurn s;
     loopRecoveryAttempts := loopRecoveryAttempts s;
     telemetry :=
       telemetry s ++ [{| loop_type := ty; prompt_id := promptId s |}] |}.

(** *** The regular expressions of [checkContentLoop] *)

(** [(content.match(/```/g) ?? []).length]: non-overlapping occurrences,
    scanned from the left. *)
Fixpoint countFences (s : jsstring) : Z :=
  match s with
  | [] => 0
  | a :: s1 =>
      match s1 with
      | b :: c :: s3 =>
          if ((a =? 96) && (b =? 96) && (c =? 96))%N
          then 1 + countFences s3
          else countFences s1
      | _ => 0
      end
  end.

Fixpoint skipWhiteSpace (s : jsstring) : jsstring :=
  match s with
  | c :: s' => if isWhiteSpace c then skipWhiteSpace s' else s
  | [] => []
  end.

(** [(^|\n)R] where [R] is decided by [p] on the rest of the string:
    the match starts at the beginning of the string or right after a
    line feed. *)
Fixpoint afterLineFeed (p : jsstring -> bool) (s : jsstring) : bool :=
  match s with
  | [] => false
  | c :: s' => (c =? 10)%N && p s' || afterLineFeed p s'
  end.

Definition atLineStart (p : jsstring -> bool) (s : jsstring) : bool :=
  p s || afterLineFeed p s.

(** [.*\|] after the first bar: a second bar before any line terminator. *)
Fixpoint barOnLine (s : jsstring) : bool :=
  match s with
  | [] => false
  | c :: s' =>
      if isLineTerminator c then false else (c =? 124)%N || barOnLine s'
  end.

(** The class [[|+-]]. *)
Definition isTableRule (c : N) : bool :=
  ((c =? 124) || (c =? 43) || (c =? 45))%N.

(** [/(^|\n)\s*(\|.*\||[|+-]{3,})/] *)
Definition hasTable (content : jsstring) : bool :=
  atLineStart
    (fun r =>
       match skipWhiteSpace r with
       | c :: r1 =>
           (c =? 124)%N && barOnLine r1
           || match r1 with
              | c1 :: c2 :: _ =>
                  isTableRule c && isTableRule c1 && isTableRule c2
              | _ => false
              end
       | [] => false
       end)
    content.

Fixpoint skipDigits (s : jsstring) : jsstring :=
  match s with
  | c :: s' => if isDigit c then skipDigits s' else s
  | [] => []
  end.

(** [/(^|\n)\s*[*-+]\s/]; the class [[*-+]] is the range from [*] (42) to
    [+] (43). *)
Definition hasBullet (content : jsstring) : bool :=
  atLineStart
    (fun r =>
       match skipWhiteSpace r with
       | c :: w :: _ => ((42 <=? c) && (c <=? 43))%N && isWhiteSpace w
       | _ => false
       end)
    content.

(** [/(^|\n)\s*\d+\.\s/] *)
Definition hasNumbered (content : jsstring) : bool :=
  atLineStart
    (fun r =>
       match skipWhiteSpace r with
       | d :: r1 =>
           isDigit d &&
           match skipDigits r1 with
           | dot :: w :: _ => (dot =? 46)%N && isWhiteSpace w
           | _ => false
           end
       | [] => false
       end)
    content.

Definition hasListItem (content : jsstring) : bool :=
  hasBullet content || hasNumbered content.

Fixpoint skipHashes (s : jsstring) : jsstring :=
  match s with
  | c :: s' => if (c =? 35)%N then skipHashes s' else s
  | [] => []
  end.

(** [/(^|\n)#+\s/] *)
Definition hasHeading (content : jsstring) : bool :=
  atLineStart
    (fun r =>
       match r with
       | c :: r1 =>
           (c =? 35)%N &&
           match skipHashes r1 with
           | w :: _ => isWhiteSpace w
           | [] => false
           end
       | [] => false
       end)
    content.

(** [/(^|\n)>\s/] *)
Definition hasBlockquote (content : jsstring) : bool :=
  atLineStart
    (fun r =>
       match r with
       | c :: w :: _ => (c =? 62)%N && isWhiteSpace w
       | _ => false
       end)
    content.

(** *** The fast path: [hasObviousRepetition] *)

(** The negated class of the repetition pattern: every code unit except
    hash, hyphen, star, underscore, equals sign, white space, full stop,
    comma, single quote (39), double quote (34) and the two parentheses. *)
Definition isRepeatable (c : N) : bool :=
  negb ((c =? 35) || (c =? 45) || (c =? 42) || (c =? 95) || (c =? 61)
        || isWhiteSpace c || (c =? 46) || (c =? 44) || (c =? 39)
        || (c =? 34) || (c =? 40) || (c =? 41))%N.

(** [text] starts with [n] copies of [c]. *)
Fixpoint startsWithCopies (c : N) (n : nat) (s : jsstring) : bool :=
  match n with
  | O => true
  | S n' =>
      match s with
      | d :: s' => (c =? d)%N && startsWithCopies c n' s'
      | [] => false
      end
  end.

(** [text.match(charRepeatPattern)] is not null: one repeatable code unit
    followed by at least 15 copies of itself (the back-reference). *)
Fixpoint charRepeat (text : jsstring) : bool :=
  match text with
  | [] => false
  | c :: r => isRepeatable c && startsWithCopies c 15 r || charRepeat r
  end.

(** [brokenQuotePattern.test(text)]: the group star, star, double quote
    once or more, then once, then once or more, that is three or more of
    them in a row.  The pattern is a fresh literal at each test, so its
    [lastIndex] is 0. *)
Definition brokenQuote (text : jsstring) : bool :=
  includes [42; 42; 34; 42; 42; 34; 42; 42; 34]%N text.

(** The density test: more than 60% quotes and more than 60% stars in a
    text of more than 100 code units. *)
Definition denseQuotesAndStars (text : jsstring) : bool :=
  let suspiciousLength := 100 in
  if suspiciousLength <? strlen text then
    let quoteCount := countUnit 34 text in
    let starCount := countUnit 42 text in
    Qgtb (inject_Z quoteCount) (inject_Z (strlen text) * 0.6)
    && Qgtb (inject_Z starCount) (inject_Z (strlen text) * 0.6)
  else false.

Definition obviousIn (text : jsstring) : bool :=
  charRepeat text || brokenQuote text || denseQuotesAndStars text.

(** [hasObviousRepetition(content)], called after [content] was appended
    to the history: the new content, the last 300 code units of the
    history, and the two glued together are searched. *)
Definition hasObviousRepetition (content : jsstring) (s : Service) : bool :=
  let textsToCheck :=
    if 0 <? strlen (streamContentHistory s) then
      let recentHistory := slice_from (streamContentHistory s) (-300) in
      [content; recentHistory; recentHistory ++ content]
    else [content] in
  existsb obviousIn textsToCheck.

(** *** Events *)

(** [ServerGeminiStreamEvent], by the cases [addAndCheck] distinguishes.
    [Args] is the type of the [args] object of a tool call. *)
Inductive ServerGeminiStreamEvent (Args : Type) :=
| ToolCallRequest (name : jsstring) (args : Args)
| Content (value : jsstring)
| OtherEvent.
Arguments ToolCallRequest {Args} name args.
Arguments Content {Args} value.
Arguments OtherEvent {Args}.

Section Service.

(** [createHash('sha256').update(x).digest('hex')] and [JSON.stringify]
    come from the platform. *)
Variable sha256 : jsstring -> jsstring.
Variable Args : Type.
Variable JSON_stringify : Args -> jsstring.

Definition getToolCallKey (name : jsstring) (args : Args) : jsstring :=
  let argsString := JSON_stringify args in
  let keyString := name ++ lit ":" ++ argsString in
  sha256 keyString.

Definition resetToolCallCount (s : Service) : Service :=
  set_toolCall None 0 s.

Definition resetContentTracking (resetHistory : bool) (s : Service)
  : Service :=
  let s := if resetHistory then set_streamContentHistory [] s else s in
  set_lastContentIndex 0 (set_contentStats ∅ s).

Definition resetLlmCheckTracking (s : Service) : Service :=
  set_llmCheck 0 DEFAULT_LLM_CHECK_INTERVAL 0 s.

Definition reset (promptId : jsstring) (s : Service) : Service :=
  let s := set_promptId promptId s in
  let s := resetToolCallCount s in
  let s := resetContentTracking true s in
  let s := resetLlmCheckTracking s in
  let s := set_loopDetected false s in
  set_loopRecoveryAttempts 0 s.

Definition checkToolCallLoop (name : jsstring) (args : Args) (s : Service)
  : bool * Service :=
  let key := getToolCallKey name args in
  let s :=
    if decide (lastToolCallKey s = Some key)
    then set_toolCall (lastToolCallKey s) (toolCallRepetitionCount s + 1) s
    else set_toolCall (Some key) 1 s in
  if TOOL_CALL_LOOP_THRESHOLD <=? toolCallRepetitionCount s
  then (true, logLoopDetected CONSECUTIVE_IDENTICAL_TOOL_CALLS s)
  else (false, s).

(** One entry of the loop over [contentStats.entries()]: shift, drop the
    negative offsets, and delete the entry when nothing is left. *)
Definition adjustIndices (truncationAmount : Z) (oldIndices : list Z)
  : option (list Z) :=
  let adjustedIndices :=
    List.filter (fun index => 0 <=? index)
                (List.map (fun index => index - truncationAmount)
                          oldIndices) in
  if 0 <? Z.of_nat (length adjustedIndices)
  then Some adjustedIndices else None.

Definition truncateAndUpdate (s : Service) : Service :=
  if strlen (streamContentHistory s) <=? MAX_HISTORY_LENGTH then s
  else
    let truncationAmount :=
      strlen (streamContentHistory s) - MAX_HISTORY_LENGTH in
    let s :=
      set_streamContentHistory
        (slice_from (streamContentHistory s) truncationAmount) s in
    let s :=
      set_lastContentIndex
        (Z.max 0 (lastContentIndex s - truncationAmount)) s in
    set_contentStats
      (omap (adjustIndices truncationAmount) (contentStats s)) s.

Definition hasMoreChunksToProcess (s : Service) : bool :=
  lastContentIndex s + CONTENT_CHUNK_SIZE
  <=? strlen (streamContentHistory s).

Definition isActualContentMatch (currentChunk : jsstring)
           (originalIndex : Z) (s : Service) : bool :=
  let originalChunk :=
    substring (streamContentHistory s) originalIndex
              (originalIndex + CONTENT_CHUNK_SIZE) in
  bool_decide (originalChunk = currentChunk).

(** [existingIndices.push] writes through to the array stored in the
    map, hence the [insert].  An entry is never empty; on an empty one
    [existingIndices[0]] would be [undefined] and the comparison with a
    20-unit chunk would fail. *)
Definition isLoopDetectedForChunk (chunk hash : jsstring) (s : Service)
  : bool * Service :=
  match contentStats s !! hash with
  | None =>
      (false,
       set_contentStats (<[hash := [lastContentIndex s]]> (contentStats s)) s)
  | Some existingIndices =>
      match existingIndices with
      | [] => (false, s)
      | first :: _ =>
          if negb (isActualContentMatch chunk first s) then (false, s)
          else
            let existingIndices := existingIndices ++ [lastContentIndex s] in
            let s :=
              set_contentStats (<[hash := existingIndices]> (contentStats s))
                               s in
            if Z.of_nat (length existingIndices) <? CONTENT_LOOP_THRESHOLD
            then (false, s)
            else
              let recentIndices :=
                drop (length existingIndices
                      - Z.to_nat CONTENT_LOOP_THRESHOLD)%nat
                     existingIndices in
              let totalDistance :=
                List.last recentIndices 0 - List.hd 0 recentIndices in
              let averageDistance :=
                (inject_Z totalDistance
                 / inject_Z (CONTENT_LOOP_THRESHOLD - 1))%Q in
              let maxAllowedDistance :=
                (inject_Z CONTENT_CHUNK_SIZE * 2)%Q in
              (Qle_bool averageDistance maxAllowedDistance, s)
      end
  end.

(** The [while] loop of [analyzeContentChunksForLoop]; [fuel] bounds the
    number of iterations. *)
Fixpoint analyzeLoop (fuel : nat) (s : Service) : option (bool * Service) :=
  match fuel with
  | O => None
  | S fuel =>
      if hasMoreChunksToProcess s then
        let currentChunk :=
          substring (streamContentHistory s) (lastContentIndex s)
                    (lastContentIndex s + CONTENT_CHUNK_SIZE) in
        let chunkHash := sha256 currentChunk in
        let '(detected, s) := isLoopDetectedForChunk currentChunk chunkHash s in
        if detected
        then Some (true, logLoopDetected CHANTING_IDENTICAL_SENTENCES s)
        else analyzeLoop fuel (set_lastContentIndex (lastContentIndex s + 1) s)
      else Some (false, s)
  end.

(** Every iteration advances [lastContentIndex] by one towards the end
    of the history, so this much fuel always suffices (see
    [analyzeLoop_terminates]). *)
Definition analyzeFuel (s : Service) : nat :=
  S (Z.to_nat (strlen (streamContentHistory s) - CONTENT_CHUNK_SIZE + 1
               - lastContentIndex s)).

Definition analyzeContentChunksForLoop (s : Service) : bool * Service :=
  match analyzeLoop (analyzeFuel s) s with
  | Some r => r
  | None => (false, s)
  end.

Definition checkContentLoop (content : jsstring) (s : Service)
  : bool * Service :=
  let numFences := countFences content in
  let hasTable := hasTable content in
  let hasListItem := hasListItem content in
  let hasHeading := hasHeading content in
  let hasBlockquote := hasBlockquote content in
  let s :=
    if negb (numFences =? 0) || hasTable || hasListItem || hasHeading
       || hasBlockquote
    then resetContentTracking true s else s in
  let wasInCodeBlock := inCodeBlock s in
  let s :=
    set_inCodeBlock
      (if numFences mod 2 =? 0 then inCodeBlock s else negb (inCodeBlock s))
      s in
  if wasInCodeBlock || inCodeBlock s then (false, s)
  else
    let s :=
      set_streamContentHistory (streamContentHistory s ++ content) s in
    if hasObviousRepetition content s then (true, s)
    else analyzeContentChunksForLoop (truncateAndUpdate s).

Definition addAndCheck (event : ServerGeminiStreamEvent Args) (s : Service)
  : bool * Service :=
  if loopDetected s then (true, s)
  else
    match event with
    | ToolCallRequest name args =>
        let s := resetContentTracking true s in
        let '(r, s) := checkToolCallLoop name args s in
        (r, set_loopDetected r s)
    | Content value =>
        let '(r, s) := checkContentLoop value s in
        (r, set_loopDetected r s)
    | OtherEvent => (loopDetected s, s)
    end.

(** Feeding a stream of events: the results of [addAndCheck] in order,
    and the final state. *)
Fixpoint feed (events : list (ServerGeminiStreamEvent Args)) (s : Service)
  : list bool * Service :=
  match events with
  | [] => ([], s)
  | e :: events =>
      let '(r, s) := addAndCheck e s in
      let '(rs, s) := feed events s in
      (r :: rs, s)
  end.

End Service.

(** *** Notions used in the statements below *)

(** The tool-call tracker before a call with fingerprint [key]: either
    nothing was seen yet, or the last call had this very fingerprint
    and the counter stands at [n]. *)
Definition counting (key : jsstring) (n : Z) (s : Service) : Prop :=
  loopDetected s = false
  /\ toolCallRepetitionCount s = n
  /\ (lastToolCallKey s = Some key \/ (lastToolCallKey s = None /\ n = 0)).

(** The windows of [CONTENT_CHUNK_SIZE] code units of a text, from the
    left: the chunks the sliding analysis can come to examine. *)
Fixpoint windows (text : jsstring) : list jsstring :=
  match text with
  | [] => []
  | _ :: rest =>
      (if CONTENT_CHUNK_SIZE <=? strlen text
       then [take (Z.to_nat CONTENT_CHUNK_SIZE) text] else [])
      ++ windows rest
  end.

(** The digest tells the given chunks apart. *)
Definition collisionFreeOn (chunks : list jsstring)
           (digest : jsstring -> jsstring) : Prop :=
  forall a b, In a chunks -> In b chunks -> digest a = digest b -> a = b.

Definition isChunk (chunks : list jsstring) (w : jsstring) : bool :=
  existsb (fun c => bool_decide (c = w)) chunks.

(** Two tables of occurrences, filed under two digests, that hold the
    same list for every chunk. *)
Definition statsAgree (chunks : list jsstring)
           (digest1 digest2 : jsstring -> jsstring)
           (m1 m2 : gmap jsstring (list Z)) : Prop :=
  forall c, In c chunks -> m1 !! digest1 c = m2 !! digest2 c.

(** Two services that differ at most in the keys of [contentStats]. *)
Definition sameBut (chunks : list jsstring)
           (digest1 digest2 : jsstring -> jsstring)
           (s1 s2 : Service) : Prop :=
  0 <= lastContentIndex s2
  /\ s1 = set_contentStats (contentStats s1) s2
  /\ statsAgree chunks digest1 digest2 (contentStats s1) (contentStats s2).

(** Along the run of a stream of content events under [digest], every
    window of the history extended by the incoming text is one of
    [chunks]. *)
Fixpoint windowsWithin (chunks : list jsstring)
         (digest : jsstring -> jsstring)
         (contents : list jsstring) (s : Service) : bool :=
  match contents with
  | [] => true
  | content :: rest =>
      forallb (isChunk chunks) (windows (streamContentHistory s ++ content))
      && windowsWithin chunks digest rest
           (snd (addAndCheck digest unit (fun _ => []) (Content content) s))
  end.

(** The text of the chanting scenario. *)
Definition alphabet20 : jsstring := lit "abcdefghijklmnopqrst".

(** Seven identical tool calls. *)
Definition sevenReads : list (jsstring * jsstring) :=
  repeat (lit "read_file", lit "{}") 7.

(** A service whose history is five code units over the cap, with one
    chunk recorded at offsets 3, 7 and 12. *)
Definition overlongService : Service :=
  set_contentStats {[ lit "k" := [3; 7; 12] ]}
    (set_streamContentHistory (repeat 97%N 1005) newService).

(** A fenced block with six identical lines, fence by fence and line by
    line, and the same kind of block in one piece. *)
Definition fenceOpening : jsstring := lit "```js" ++ [10%N].
Definition fenceClosing : jsstring := lit "```" ++ [10%N].
Definition codeLines : list jsstring :=
  repeat (lit "console.log(xxxxxxxxxxxxxxxxxxxxxxxx);" ++ [10%N]) 6.
Definition wholeBlock : jsstring :=
  lit "```" ++ [10%N] ++ repeat 120%N 20 ++ [10%N] ++ lit "```".

(** The text itself as its own digest: trivially free of collisions, and
    the yardstick the other digests are compared with. *)
Definition plainDigest (x : jsstring) : jsstring := x.

(** A check that decides [collisionFreeOn] by computing every digest
    once. *)
Definition collisionFreeCheck (chunks : list jsstring)
           (digest : jsstring -> jsstring) : bool :=
  let filed := List.map (fun c => (c, digest c)) chunks in
  forallb
    (fun p =>
       forallb
         (fun q => implb (bool_decide (snd p = snd q))
                         (bool_decide (fst p = fst q)))
         filed)
    filed.

(** A stand-in for [JSON.stringify] in examples, for tool calls whose
    arguments are given by their serialization. *)
Definition serialized (args : jsstring) : jsstring := args.

(* --------------------------------------------------------------------- *)
(** *** The check by the model, recovery, and further notions *)

Definition LLM_CHECK_AFTER_TURNS : Z := 30.
Definition MIN_LLM_CHECK_INTERVAL : Z := 5.
Definition MAX_LLM_CHECK_INTERVAL : Z := 15.
(** *** The check by the model *)

(** What [generateJson] does: it throws, or it returns an object whose
    [confidence] is a number or is not. *)
Inductive GenerateJson :=
| Throws
| Returns (confidence : option Q).

(** [Math.round]: the nearest integer, halves upwards. *)
Definition Math_round (x : Q) : Z := Qfloor (x + 0.5).

(** [openai] tells whether the [authType] of the content generator is
    [openai]; [result] is what [generateJson] does when it is called. *)
Definition checkForLoopWithLLM (openai : bool) (result : GenerateJson)
           (s : Service) : bool * Service :=
  if openai then (false, s)
  else
    match result with
    | Throws => (false, s)
    | Returns (Some confidence) =>
        if Qgtb confidence 0.9 then
          (true, logLoopDetected LLM_DETECTED_LOOP s)
        else
          (false,
           set_llmCheck (turnsInCurrentPrompt s)
             (Math_round
                (inject_Z MIN_LLM_CHECK_INTERVAL
                 + inject_Z (MAX_LLM_CHECK_INTERVAL - MIN_LLM_CHECK_INTERVAL)
                   * (1 - confidence)))
             (lastCheckTurn s) s)
    | Returns None => (false, s)
    end.

Definition turnStarted (openai : bool) (result : GenerateJson) (s : Service)
  : bool * Service :=
  let s :=
    set_llmCheck (turnsInCurrentPrompt s + 1) (llmCheckInterval s)
                 (lastCheckTurn s) s in
  if (LLM_CHECK_AFTER_TURNS <=? turnsInCurrentPrompt s)
     && (llmCheckInterval s <=? turnsInCurrentPrompt s - lastCheckTurn s)
  then
    let s :=
      set_llmCheck (turnsInCurrentPrompt s) (llmCheckInterval s)
                   (turnsInCurrentPrompt s) s in
    checkForLoopWithLLM openai result s
  else (false, s).

(** A run of turns; [results] holds, turn by turn, what [generateJson]
    would do if it were called in that turn. *)
Fixpoint turns (openai : bool) (results : list GenerateJson) (s : Service)
  : list bool * Service :=
  match results with
  | [] => ([], s)
  | result :: results =>
      let '(r, s) := turnStarted openai result s in
      let '(rs, s) := turns openai results s in
      (r :: rs, s)
  end.

(** *** Recovery *)

Definition basePrompts : list jsstring :=
  List.map lit
    ["Let me take a step back and approach this differently. What specific aspect should I focus on first?";
     "I notice I might be repeating myself. Can you provide more specific guidance on what you'd like me to do differently?";
     "Let me break this down into smaller, more manageable steps. What's the most important part to address first?"]%string.

Definition toolCallPrompts : list jsstring :=
  List.map lit
    ["I seem to be stuck in a loop with tool calls. Let me try a different approach to this problem.";
     "Instead of repeating the same operations, let me analyze what we've learned so far and adjust my strategy."]%string.

Definition contentPrompts : list jsstring :=
  List.map lit
    ["I notice I'm generating repetitive content. Let me refocus on providing more specific and actionable information.";
     "Let me restructure my response to be more targeted and avoid repetition."]%string.

Definition getLoopRecoveryPrompts (s : Service) : list jsstring :=
  if TOOL_CALL_LOOP_THRESHOLD <=? toolCallRepetitionCount s
  then basePrompts ++ toolCallPrompts
  else basePrompts ++ contentPrompts.

(** *** More notions for the statements *)

(** The chunk of [CONTENT_CHUNK_SIZE] code units at an offset. *)
Definition chunkAt (history : jsstring) (i : Z) : jsstring :=
  substring history i (i + CONTENT_CHUNK_SIZE).

(** The text holds the same chunk at four offsets, the last no more than
    120 code units after the first. *)
Definition chants (history : jsstring) : Prop :=
  exists i1 i2 i3 i4,
    0 <= i1 /\ i1 < i2 /\ i2 < i3 /\ i3 < i4
    /\ i4 + CONTENT_CHUNK_SIZE <= strlen history
    /\ i4 - i1 <= 120
    /\ chunkAt history i1 = chunkAt history i4
    /\ chunkAt history i2 = chunkAt history i4
    /\ chunkAt history i3 = chunkAt history i4.

(** Every entry of [contentStats] lists, in increasing order, offsets
    below [bound] at which the history holds one and the same chunk. *)
Definition entriesSoundBelow (bound : Z) (s : Service) : Prop :=
  forall hash l,
    contentStats s !! hash = Some l ->
    StronglySorted Z.lt l
    /\ (forall i, In i l ->
          0 <= i < bound
          /\ i + CONTENT_CHUNK_SIZE <= strlen (streamContentHistory s))
    /\ (forall i j, In i l -> In j l ->
          chunkAt (streamContentHistory s) i
          = chunkAt (streamContentHistory s) j).

Definition entriesSound (s : Service) : Prop :=
  0 <= lastContentIndex s /\ entriesSoundBelow (lastContentIndex s) s.

(** Where a service stands after a stream of events; [logged] is the
    telemetry before the stream. *)
Inductive Verdict (logged : list LoopDetectedEvent) (s : Service) : Prop :=
| NoLoop :
    loopDetected s = false -> telemetry s = logged ->
    toolCallRepetitionCount s < TOOL_CALL_LOOP_THRESHOLD ->
    entriesSound s -> Verdict logged s
| FastPath :
    loopDetected s = true -> telemetry s = logged ->
    toolCallRepetitionCount s < TOOL_CALL_LOOP_THRESHOLD ->
    Verdict logged s
| ToolLoop :
    loopDetected s = true ->
    telemetry s
    = logged ++ [{| loop_type := CONSECUTIVE_IDENTICAL_TOOL_CALLS;
                    prompt_id := promptId s |}] ->
    TOOL_CALL_LOOP_THRESHOLD <= toolCallRepetitionCount s ->
    Verdict logged s
| Chanting :
    loopDetected s = true ->
    telemetry s
    = logged ++ [{| loop_type := CHANTING_IDENTICAL_SENTENCES;
                    prompt_id := promptId s |}] ->
    toolCallRepetitionCount s < TOOL_CALL_LOOP_THRESHOLD ->
    chants (streamContentHistory s) ->
    Verdict logged s.

(** The fields that [addAndCheck] reads besides the content tracking. *)
Definition toolSide (s : Service)
  : jsstring * option jsstring * Z * bool :=
  (promptId s, lastToolCallKey s, toolCallRepetitionCount s, loopDetected s).

(** The kinds of the loops logged after the first [logged] events of the
    telemetry. *)
Definition reportedSince (logged : nat) (s : Service) : list LoopType :=
  List.map loop_type (drop logged (telemetry s)).

(** The service that [addAndCheck] sees in [s] (tool calls, content,
    flags), with the prompt id, the bookkeeping of turns and recovery
    and the telemetry of [a]. *)
Definition graft (a s : Service) : Service :=
  {| promptId := promptId a;
     lastToolCallKey := lastToolCallKey s;
     toolCallRepetitionCount := toolCallRepetitionCount s;
     streamContentHistory := streamContentHistory s;
     contentStats := contentStats s;
     lastContentIndex := lastContentIndex s;
     loopDetected := loopDetected s;
     inCodeBlock := inCodeBlock s;
     turnsInCurrentPrompt := turnsInCurrentPrompt a;
     llmCheckInterval := llmCheckInterval a;
     lastCheckTurn := lastCheckTurn a;
     loopRecoveryAttempts := loopRecoveryAttempts a;
     telemetry := telemetry a |}.

(** No five calls in a row have the same fingerprint. *)
Definition noFiveInARow (keys : list jsstring) : Prop :=
  forall before after key, keys <> before ++ repeat key 5 ++ after.

(** The numbers from 100 to 354, each followed by a space: 1020 code
    units in which no chunk occurs twice. *)
Definition countingAloud : list jsstring :=
  List.map (fun n => ofInteger (Z.of_nat n) ++ [32%N]) (seq 100 255).


(** Scenarios. *)
Definition insideBlock : Service :=
  set_inCodeBlock true (set_promptId (lit "prompt-1") newService).


Definition readAndWrite : list (jsstring * jsstring) :=
  [(lit "read_file", lit "{}"); (lit "write_file", lit "{}");
   (lit "read_file", lit "{}"); (lit "read_file", lit "{}");
   (lit "read_file", lit "{}"); (lit "read_file", lit "{}");
   (lit "write_file", lit "{}"); (lit "write_file", lit "{}")].

End LoopDetection.

(* ===================================================================== *)
(** ** Concurrency manager for local models *)
(* ===================================================================== *)

Module Concurrency.

Record ConcurrencyConfig := {
  maxConcurrentRequests : Z;
  queueTimeout : Z;
  adaptiveThrottling : bool;
}.

(** [Partial<ConcurrencyConfig>] *)
Record PartialConfig := {
  new_maxConcurrentRequests : option Z;
  new_queueTimeout : option Z;
  new_adaptiveThrottling : option bool;
}.

(** The closures of a queue item ([resolve], [reject], [cleanup],
    [requestFn]) belong to one call of [executeRequest]; [ticket] names
    that call.  Two calls may carry the same [id]. *)
Record RequestQueueItem := {
  id : jsstring;
  startTime : Z;
  ticket : nat;
}.

Record PerformanceMetrics := {
  averageResponseTime : Q;
  errorRate : Q;
  queueWaitTimes : list Z;
}.

(** The errors a request is rejected with. *)
Inductive RequestError :=
| QueueTimeout (requestId : jsstring) (timeout : Z)
| Aborted
| QueueCleared
| WorkFailed (message : jsstring).

Definition errorMessage (e : RequestError) : jsstring :=
  match e with
  | QueueTimeout requestId timeout =>
      lit "Request " ++ requestId ++ lit " timed out in queue after "
      ++ ofInteger timeout ++ lit "ms"
  | Aborted => lit "Request was aborted"
  | QueueCleared => lit "Request queue cleared"
  | WorkFailed message => message
  end.

(** The promise returned by [executeRequest]. *)
Inductive Settlement :=
| Pending
| Fulfilled
| Rejected (error : RequestError).

(** The fields of [LocalModelConcurrencyManager], and the part of the
    runtime its closures act on:
    - [requests]: the queue item created by each call of [executeRequest],
      by ticket;
    - [promises]: the state of the promise each call returned;
    - [timers]: the tickets whose queue timeout is still armed;
    - [running]: the tickets whose [requestFn] was started and has not
      settled yet. *)
Record Manager := {
  activeRequests : gset jsstring;
  requestQueue : list RequestQueueItem;
  config : ConcurrencyConfig;
  performanceMetrics : PerformanceMetrics;
  requests : list RequestQueueItem;
  promises : list Settlement;
  timers : gset nat;
  running : gset nat;
}.

(** [new LocalModelConcurrencyManager(config)] *)
Definition newManager (config : ConcurrencyConfig) : Manager :=
  {| activeRequests := ∅;
     requestQueue := [];
     config := config;
     performanceMetrics :=
       {| averageResponseTime := 0; errorRate := 0; queueWaitTimes := [] |};
     requests := [];
     promises := [];
     timers := ∅;
     running := ∅ |}.

Definition set_activeRequests (v : gset jsstring) (s : Manager) : Manager :=
  {| activeRequests := v; requestQueue := requestQueue s; config := config s;
     performanceMetrics := performanceMetrics s; requests := requests s;
     promises := promises s; timers := timers s; running := running s |}.

Definition set_requestQueue (v : list RequestQueueItem) (s : Manager)
  : Manager :=
  {| activeRequests := activeRequests s; requestQueue := v; config := config s;
     performanceMetrics := performanceMetrics s; requests := requests s;
     promises := promises s; timers := timers s; running := running s |}.

Definition set_config (v : ConcurrencyConfig) (s : Manager) : Manager :=
  {| activeRequests := activeRequests s; requestQueue := requestQueue s;
     config := v;
     performanceMetrics := performanceMetrics s; requests := requests s;
     promises := promises s; timers := timers s; running := running s |}.

Definition set_performanceMetrics (v : PerformanceMetrics) (s : Manager)
  : Manager :=
  {| activeRequests := activeRequests s; requestQueue := requestQueue s;
     config := config s;
     performanceMetrics := v; requests := requests s;
     promises := promises s; timers := timers s; running := running s |}.

Definition set_requests (v : list RequestQueueItem) (s : Manager) : Manager :=
  {| activeRequests := activeRequests s; requestQueue := requestQueue s;
     config := config s;
     performanceMetrics := performanceMetrics s; requests := v;
     promises := promises s; timers := timers s; running := running s |}.

Definition set_promises (v : list Settlement) (s : Manager) : Manager :=
  {| activeRequests := activeRequests s; requestQueue := requestQueue s;
     config := config s;
     performanceMetrics := performanceMetrics s; requests := requests s;
     promises := v; timers := timers s; running := running s |}.

Definition set_timers (v : gset nat) (s : Manager) : Manager :=
  {| activeRequests := activeRequests s; requestQueue := requestQueue s;
     config := config s;
     performanceMetrics := performanceMetrics s; requests := requests s;
     promises := promises s; timers := v; running := running s |}.

Definition set_running (v : gset nat) (s : Manager) : Manager :=
  {| activeRequests := activeRequests s; requestQueue := requestQueue s;
     config := config s;
     performanceMetrics := performanceMetrics s; requests := requests s;
     promises := promises s; timers := timers s; running := v |}.

(** *** Adaptive throttling *)

Definition getEffectiveConcurrencyLimit (s : Manager) : Z :=
  if negb (adaptiveThrottling (config s)) then
    maxConcurrentRequests (config s)
  else
    let baseLimit := maxConcurrentRequests (config s) in
    if Qgtb (errorRate (performanceMetrics s)) 0.2 then
      Z.max 1 (Qfloor (inject_Z baseLimit * 0.5))
    else if Qgtb (averageResponseTime (performanceMetrics s)) 30000 then
      Z.max 1 (Qfloor (inject_Z baseLimit * 0.7))
    else baseLimit.

Definition updatePerformanceMetrics (responseTime : Z) (isError : bool)
           (s : Manager) : Manager :=
  let m := performanceMetrics s in
  let errorWeight := (1 / 20)%Q in
  let errorRate' :=
    (errorRate m * (1 - errorWeight)
     + (if isError then errorWeight else 0))%Q in
  let averageResponseTime' :=
    if negb isError && (0 <? responseTime) then
      let timeWeight := 0.1%Q in
      (averageResponseTime m * (1 - timeWeight)
       + inject_Z responseTime * timeWeight)%Q
    else averageResponseTime m in
  set_performanceMetrics
    {| averageResponseTime := averageResponseTime';
       errorRate := errorRate';
       queueWaitTimes := queueWaitTimes m |} s.

Definition recordSuccess (responseTime : Z) (s : Manager) : Manager :=
  updatePerformanceMetrics responseTime false s.

Definition recordError (s : Manager) : Manager :=
  updatePerformanceMetrics 0 true s.

(** *** Queue and active set *)

(** [findIndex] and [splice(index, 1)]: the first item with that id. *)
Fixpoint removeFirst (requestId : jsstring) (q : list RequestQueueItem)
  : list RequestQueueItem :=
  match q with
  | [] => []
  | item :: q' =>
      if bool_decide (id item = requestId) then q'
      else item :: removeFirst requestId q'
  end.

Definition removeFromQueue (requestId : jsstring) (s : Manager) : Manager :=
  set_requestQueue (removeFirst requestId (requestQueue s)) s.

Definition removeActiveRequest (requestId : jsstring) (s : Manager)
  : Manager :=
  set_activeRequests (activeRequests s ∖ {[requestId]}) s.

(** [clearTimeout(timeoutId)] of a ticket. *)
Definition clearTimer (t : nat) (s : Manager) : Manager :=
  set_timers (timers s ∖ {[t]}) s.

(** Settling the promise of a ticket; a settled promise ignores later
    calls of its [resolve] and [reject]. *)
Definition settle (t : nat) (r : Settlement) (s : Manager) : Manager :=
  match promises s !! t with
  | Some Pending => set_promises (<[t := r]> (promises s)) s
  | _ => s
  end.

Definition pushWaitTime (w : Z) (m : PerformanceMetrics)
  : PerformanceMetrics :=
  let times := queueWaitTimes m ++ [w] in
  {| averageResponseTime := averageResponseTime m;
     errorRate := errorRate m;
     queueWaitTimes :=
       if 100 <? Z.of_nat (length times) then drop 1 times else times |}.

(** One admission: the body of the [while] loop of [processQueue], after
    the [shift].  [requestFn] is started and left running; it is assumed
    to return its promise without calling back into the manager. *)
Definition activate (now : Z) (queueItem : RequestQueueItem) (s : Manager)
  : Manager :=
  let queueWaitTime := now - startTime queueItem in
  let s :=
    set_performanceMetrics (pushWaitTime queueWaitTime (performanceMetrics s))
                           s in
  let s := set_activeRequests ({[id queueItem]} ∪ activeRequests s) s in
  let s := clearTimer (ticket queueItem) s in
  set_running ({[ticket queueItem]} ∪ running s) s.

(** [processQueue]: the loop takes the head of the queue at each turn, so
    it is a recursion on the queue. *)
Fixpoint processQueueFrom (now : Z) (queue : list RequestQueueItem)
         (s : Manager) : Manager :=
  match queue with
  | [] => set_requestQueue [] s
  | queueItem :: rest =>
      if Z.of_nat (size (activeRequests s)) <? getEffectiveConcurrencyLimit s
      then processQueueFrom now rest (activate now queueItem s)
      else set_requestQueue queue s
  end.

Definition processQueue (now : Z) (s : Manager) : Manager :=
  processQueueFrom now (requestQueue s) s.

(** [queueItem.resolve(result)] *)
Definition item_resolve (now : Z) (queueItem : RequestQueueItem)
           (s : Manager) : Manager :=
  let s := removeActiveRequest (id queueItem) s in
  let s := recordSuccess (now - startTime queueItem) s in
  let s := settle (ticket queueItem) Fulfilled s in
  processQueue now s.

(** [queueItem.reject(error)] *)
Definition item_reject (now : Z) (queueItem : RequestQueueItem)
           (error : RequestError) (s : Manager) : Manager :=
  let s := removeActiveRequest (id queueItem) s in
  let s := recordError s in
  let s := settle (ticket queueItem) (Rejected error) s in
  processQueue now s.

Definition executeRequest (now : Z) (requestId : jsstring) (s : Manager)
  : Manager :=
  let t := length (requests s) in
  let queueItem := {| id := requestId; startTime := now; ticket := t |} in
  let s := set_requests (requests s ++ [queueItem]) s in
  let s := set_promises (promises s ++ [Pending]) s in
  let s := set_requestQueue (requestQueue s ++ [queueItem]) s in
  let s := set_timers ({[t]} ∪ timers s) s in
  processQueue now s.

(** The callback of [setTimeout]; it runs only while the timer is armed. *)
Definition onQueueTimeout (now : Z) (t : nat) (s : Manager) : Manager :=
  match requests s !! t with
  | Some queueItem =>
      if bool_decide (t ∈ timers s) then
        let s := clearTimer t s in
        let s := removeFromQueue (id queueItem) s in
        item_reject now queueItem
          (QueueTimeout (id queueItem) (queueTimeout (config s))) s
      else s
  | None => s
  end.

(** The listener of the abort signal. *)
Definition onAbort (now : Z) (t : nat) (s : Manager) : Manager :=
  match requests s !! t with
  | Some queueItem =>
      let s := clearTimer t s in
      let s := removeFromQueue (id queueItem) s in
      let s := removeActiveRequest (id queueItem) s in
      item_reject now queueItem Aborted s
  | None => s
  end.

(** [executeRequestAsync] after [await requestFn()]. *)
Definition onWorkDone (now : Z) (t : nat) (failure : option jsstring)
           (s : Manager) : Manager :=
  match requests s !! t with
  | Some queueItem =>
      if bool_decide (t ∈ running s) then
        let s := set_running (running s ∖ {[t]}) s in
        match failure with
        | None => item_resolve now queueItem s
        | Some message => item_reject now queueItem (WorkFailed message) s
        end
      else s
  | None => s
  end.

Definition updateConfig (newConfig : PartialConfig) (s : Manager) : Manager :=
  let c := config s in
  set_config
    {| maxConcurrentRequests :=
         default (maxConcurrentRequests c) (new_maxConcurrentRequests newConfig);
       queueTimeout := default (queueTimeout c) (new_queueTimeout newConfig);
       adaptiveThrottling :=
         default (adaptiveThrottling c) (new_adaptiveThrottling newConfig) |}
    s.

(** [this.requestQueue.forEach(...)]: the indices below the length at the
    start are visited in order; an index that is no longer in the array
    when its turn comes is skipped.  The callback sees the array as it is
    by then. *)
Fixpoint clearQueueFrom (now : Z) (k : nat) (remaining : nat) (s : Manager)
  : Manager :=
  match remaining with
  | O => s
  | S remaining =>
      match requestQueue s !! k with
      | Some item =>
          clearQueueFrom now (S k) remaining
                         (item_reject now item QueueCleared s)
      | None => clearQueueFrom now (S k) remaining s
      end
  end.

Definition clearQueue (now : Z) (s : Manager) : Manager :=
  let s := clearQueueFrom now 0 (length (requestQueue s)) s in
  set_requestQueue [] s.

(** What can happen to a manager, one turn of the event loop each. *)
Inductive Event :=
| ExecuteRequest (now : Z) (requestId : jsstring)
| WorkFulfilled (now : Z) (t : nat)
| WorkRejected (now : Z) (t : nat) (message : jsstring)
| QueueTimeoutFired (now : Z) (t : nat)
| AbortSignalled (now : Z) (t : nat)
| UpdateConfig (newConfig : PartialConfig)
| ClearQueue (now : Z).

Definition step (e : Event) (s : Manager) : Manager :=
  match e with
  | ExecuteRequest now requestId => executeRequest now requestId s
  | WorkFulfilled now t => onWorkDone now t None s
  | WorkRejected now t message => onWorkDone now t (Some message) s
  | QueueTimeoutFired now t => onQueueTimeout now t s
  | AbortSignalled now t => onAbort now t s
  | UpdateConfig newConfig => updateConfig newConfig s
  | ClearQueue now => clearQueue now s
  end.

Definition run (events : list Event) (s : Manager) : Manager :=
  fold_left (fun s e => step e s) events s.

(** *** Notions and scenarios used in the statements below *)

(** The configured maximum is never lowered by the [UpdateConfig] events of
    a stream; [m] is the maximum before the stream. *)
Fixpoint neverLowered (m : Z) (events : list Event) : Prop :=
  match events with
  | [] => True
  | UpdateConfig newConfig :: rest =>
      let m' := default m (new_maxConcurrentRequests newConfig) in
      m <= m' /\ neverLowered m' rest
  | _ :: rest => neverLowered m rest
  end.

(** The configured maximum is at least one and no more requests are
    active than it allows. *)
Definition withinMaximum (s : Manager) : Prop :=
  1 <= maxConcurrentRequests (config s)
  /\ Z.of_nat (size (activeRequests s)) <= maxConcurrentRequests (config s).

(** No slot is free: the dispatcher would start nothing. *)
Definition noFreeSlot (s : Manager) : Prop :=
  getEffectiveConcurrencyLimit s <= Z.of_nat (size (activeRequests s)).

(** Errors cannot raise the effective limit: throttling is off, or the
    maximum is at least one. *)
Definition limitCannotRise (s : Manager) : Prop :=
  adaptiveThrottling (config s) = false
  \/ 1 <= maxConcurrentRequests (config s).

(** No queued request carries the id of an active one. *)
Definition queuedNotActive (s : Manager) : Prop :=
  forall item, In item (requestQueue s) -> id item ∉ activeRequests s.

(** What is left of a rejection when it can start nothing: the error is
    recorded and the promise settled. *)
Definition rejectOnly (error : RequestError) (s : Manager)
           (item : RequestQueueItem) : Manager :=
  settle (ticket item) (Rejected error) (recordError s).

(** Nine requests [r0] ... [r8] arrive at a manager of four slots with
    adaptive throttling; the first five that run fail. *)
Definition throttled4 : ConcurrencyConfig :=
  {| maxConcurrentRequests := 4; queueTimeout := 5000;
     adaptiveThrottling := true |}.

Definition fiveFailures : list Event :=
  List.map (fun n => ExecuteRequest 0 (lit "r" ++ ofInteger n))
           [0; 1; 2; 3; 4; 5; 6; 7; 8]
  ++ List.map (fun t => WorkRejected 1 t (lit "Simulated failure"))
              [0; 1; 2; 3; 4]%nat.


(** One slot, no throttling.  [blocking] runs, [queued0], [queued1] and
    [queued2] wait; the maximum is raised to three, then the queue is
    cleared. *)
Definition single : ConcurrencyConfig :=
  {| maxConcurrentRequests := 1; queueTimeout := 5000;
     adaptiveThrottling := false |}.

Definition raiseToThree : PartialConfig :=
  {| new_maxConcurrentRequests := Some 3; new_queueTimeout := None;
     new_adaptiveThrottling := None |}.

Definition clearAfterRaise : list Event :=
  [ExecuteRequest 0 (lit "blocking");
   ExecuteRequest 0 (lit "queued0");
   ExecuteRequest 0 (lit "queued1");
   ExecuteRequest 0 (lit "queued2");
   UpdateConfig raiseToThree;
   ClearQueue 50].

(** The same without the raise, as in the test of queue clearing. *)
Definition clearWhileFull : list Event :=
  [ExecuteRequest 0 (lit "blocking");
   ExecuteRequest 0 (lit "queued0");
   ExecuteRequest 0 (lit "queued1");
   ExecuteRequest 0 (lit "queued2");
   ClearQueue 50].

Definition afterClearAfterRaise : Manager :=
  run clearAfterRaise (newManager single).

Definition afterClearWhileFull : Manager :=
  run clearWhileFull (newManager single).

(* --------------------------------------------------------------------- *)
(** *** Optimal configuration, and further notions *)

(** [getOptimalConfig()]; [memoryUsage] is [process.memoryUsage()]. *)
Definition getOptimalConfig (memoryUsage : LocalModelUtils.MemoryUsage)
  : ConcurrencyConfig :=
  let totalMemory :=
    LocalModelUtils.heapTotal memoryUsage
    + LocalModelUtils.external memoryUsage in
  let maxConcurrentRequests :=
    if 8000000000 <? totalMemory then 4
    else if 4000000000 <? totalMemory then 2
    else 1 in
  {| maxConcurrentRequests := maxConcurrentRequests;
     queueTimeout := 120000;
     adaptiveThrottling := true |}.

(** *** More notions for the statements *)

(** A stream of events without any call of [updateConfig]. *)
Definition configUntouched (events : list Event) : Prop :=
  Forall (fun e => forall newConfig, e <> UpdateConfig newConfig) events.

(** The ids of the requests submitted by a stream of events. *)
Definition submittedIds (events : list Event) : list jsstring :=
  omap (fun e => match e with
                 | ExecuteRequest _ requestId => Some requestId
                 | _ => None
                 end) events.

(** The tickets and ids of a list of queue items, as sets. *)
Definition ticketsOf (items : list RequestQueueItem) : gset nat :=
  list_to_set (ticket <$> items).

Definition idsOf (items : list RequestQueueItem) : gset jsstring :=
  list_to_set (id <$> items).

(** Requests wait only while no slot is free. *)
Definition workConserving (s : Manager) : Prop :=
  requestQueue s = [] \/ noFreeSlot s.

(** The two averages and the list of waiting times are within their
    ranges. *)
Definition metricsInRange (m : PerformanceMetrics) : Prop :=
  (0 <= errorRate m <= 1)%Q
  /\ (0 <= averageResponseTime m)%Q
  /\ (length (queueWaitTimes m) <= 100)%nat.

(** The bookkeeping of a manager whose requests all carry different ids:
    a ticket is the position of its request; every request has its
    promise; a queued request is known, pending, not started, and its
    queue timeout is armed; an active id belongs to a request that has
    left the queue. *)
Record wellFormed (s : Manager) : Prop := {
  wf_tickets :
    forall t item, requests s !! t = Some item -> ticket item = t;
  wf_promises : length (promises s) = length (requests s);
  wf_ids : NoDup (id <$> requests s);
  wf_queue_ids : NoDup (id <$> requestQueue s);
  wf_queue :
    forall item, item ∈ requestQueue s ->
      requests s !! ticket item = Some item
      /\ promises s !! ticket item = Some Pending
      /\ ticket item ∈ timers s
      /\ ticket item ∉ running s;
  wf_active :
    forall x, x ∈ activeRequests s ->
      exists item, item ∈ requests s /\ id item = x
                   /\ item ∉ requestQueue s;
  wf_running :
    forall t, t ∈ running s -> (t < length (requests s))%nat;
}.

(** [s'] has the requests of [s]; its queue, active set and running set
    have at most shrunk, and what is still queued is pending, not
    started, with its timer armed. *)
Definition shrunk (s s' : Manager) : Prop :=
  requests s' = requests s
  /\ config s' = config s
  /\ length (promises s') = length (promises s)
  /\ NoDup (id <$> requestQueue s')
  /\ (forall item, item ∈ requestQueue s' ->
        item ∈ requestQueue s
        /\ promises s' !! ticket item = Some Pending
        /\ ticket item ∈ timers s'
        /\ ticket item ∉ running s')
  /\ (forall x, x ∈ activeRequests s' -> x ∈ activeRequests s)
  /\ (forall t, t ∈ running s' -> t ∈ running s).

(** The states the theorems on distinct ids speak about. *)
Definition sound (s : Manager) : Prop :=
  wellFormed s /\ workConserving s /\ limitCannotRise s.

(** One running request and three queued ones behind it. *)
Definition fourRequests : list Event :=
  [ExecuteRequest 0 (lit "blocking");
   ExecuteRequest 0 (lit "queued0");
   ExecuteRequest 0 (lit "queued1");
   ExecuteRequest 0 (lit "queued2")].

Definition secondQueued : RequestQueueItem :=
  {| id := lit "queued1"; startTime := 0; ticket := 2 |}.

(** A request that was fulfilled before its abort signal fires. *)
Definition fulfilledOnce : Manager :=
  run [ExecuteRequest 0 (lit "blocking"); WorkFulfilled 10 0]
      (newManager single).

(** What follows the clearing of a full queue in the scenario above: a
    new request, a late abort of a cleared request, the end of the
    running one. *)
Definition lateEvents : list Event :=
  [ExecuteRequest 60 (lit "later");
   AbortSignalled 70 1;
   QueueTimeoutFired 5000 2;
   WorkFulfilled 80 0].

End Concurrency.

(* ===================================================================== *)
(** * Properties *)
(* ===================================================================== *)

(** ** Backend classification *)

Module LocalModelUtilsProps.
Import LocalModelUtils.

(** A non-empty base URL hides the environment variable. *)
Lemma baseUrl_hides_env env c url model :
  isLocalModel env (Some (c :: url)) model
  = isLocalModel None (Some (c :: url)) model.
Proof. reflexivity. Qed.

(** Claim C9.  Whatever [OPENAI_BASE_URL] holds, the classifier answers
    local for the loopback URL with model [llama3.2:8b], not local for
    the OpenAI endpoint with model [gpt-4], and local for the OpenAI
    endpoint with model [llama-7b]: a model-name pattern alone is
    enough even when the URL is a cloud endpoint. *)
Theorem isLocalModel_scenarios (env : option jsstring) :
  isLocalModel env (Some (lit "http://127.0.0.1:11434"))
               (Some (lit "llama3.2:8b")) = true
  /\ isLocalModel env (Some (lit "https://api.openai.com"))
                  (Some (lit "gpt-4")) = false
  /\ isLocalModel env (Some (lit "https://api.openai.com"))
                  (Some (lit "llama-7b")) = true
  /\ existsb (fun pattern =>
                includes pattern (toLowerCase (lit "https://api.openai.com")))
             localPatterns = false.
Proof. repeat split; vm_compute; reflexivity. Qed.

End LocalModelUtilsProps.

(** ** Loop detection *)

Module LoopDetectionProps.
Import LoopDetection.

Section ToolCalls.

Variable sha256 : jsstring -> jsstring.
Variable Args : Type.
Variable JSON_stringify : Args -> jsstring.

Local Abbreviation getToolCallKey := (getToolCallKey sha256 Args JSON_stringify).
Local Abbreviation addAndCheck := (addAndCheck sha256 Args JSON_stringify).
Local Abbreviation feed := (feed sha256 Args JSON_stringify).

(** Once the flag is set, every event is answered with [true] and
    nothing changes. *)
Lemma addAndCheck_sticky e s :
  loopDetected s = true -> addAndCheck e s = (true, s).
Proof. intros H. unfold LoopDetection.addAndCheck. now rewrite H. Qed.

Lemma feed_sticky events s :
  loopDetected s = true ->
  feed events s = (List.map (fun _ => true) events, s).
Proof.
  induction events as [|e events IH]; intros H; simpl; [reflexivity|].
  rewrite addAndCheck_sticky by assumption.
  now rewrite IH.
Qed.

(** The flag is what [addAndCheck] last answered. *)
Lemma addAndCheck_flag e s :
  loopDetected (snd (addAndCheck e s)) = fst (addAndCheck e s).
Proof.
  unfold LoopDetection.addAndCheck.
  destruct (loopDetected s) eqn:E; [exact E|].
  destruct e as [name args | value |].
  - destruct (checkToolCallLoop _ _ _ _ _ _); reflexivity.
  - destruct (checkContentLoop _ _ _); reflexivity.
  - exact E.
Qed.

(** An answer [true] anywhere in a stream leaves the flag set. *)
Lemma feed_detected events s :
  In true (fst (feed events s)) ->
  loopDetected (snd (feed events s)) = true.
Proof.
  revert s. induction events as [|e events IH]; intros s; cbn;
    [intros []|].
  pose proof (addAndCheck_flag e s) as Hflag.
  destruct (addAndCheck e s) as [r s'].
  cbn [fst snd] in Hflag.
  destruct r.
  - rewrite feed_sticky by exact Hflag. intros _. exact Hflag.
  - specialize (IH s').
    destruct (feed events s') as [rs s''].
    cbn [fst snd] in *. intros [E | Hin]; [discriminate E | auto].
Qed.

Lemma all_true_seq {A} (l : list A) (f : nat -> bool) (a : nat) :
  (forall i, (a <= i)%nat -> f i = true) ->
  List.map (fun _ => true) l = List.map f (seq a (length l)).
Proof.
  revert a. induction l as [|x l IH]; intros a Hf; cbn; [reflexivity|].
  f_equal; [symmetry; apply Hf; lia | apply IH; intros; apply Hf; lia].
Qed.

(** One more call with the fingerprint being counted. *)
Lemma addAndCheck_same_key key n name args s :
  counting key n s ->
  getToolCallKey name args = key ->
  let '(r, s') := addAndCheck (ToolCallRequest name args) s in
  r = (5 <=? n + 1)
  /\ (r = false -> counting key (n + 1) s')
  /\ (r = true -> loopDetected s' = true).
Proof.
  intros (Hl & Hn & Hk) Hkey.
  unfold LoopDetection.addAndCheck. rewrite Hl.
  unfold checkToolCallLoop. rewrite Hkey.
  cbn [resetContentTracking set_streamContentHistory set_contentStats
       set_lastContentIndex lastToolCallKey toolCallRepetitionCount].
  destruct Hk as [Hk | [Hk Hz]]; rewrite Hk.
  - rewrite decide_True by reflexivity. cbn. rewrite Hn.
    unfold TOOL_CALL_LOOP_THRESHOLD.
    destruct (5 <=? n + 1) eqn:E; cbn;
      (split; [reflexivity | split; intros E'; try discriminate E']).
    + reflexivity.
    + repeat split; auto.
  - rewrite decide_False by discriminate. cbn. rewrite Hz.
    split; [reflexivity | split; intros E'; try discriminate E'].
    repeat split; auto.
Qed.

Lemma feed_same_key key calls :
  Forall (fun c => getToolCallKey c.1 c.2 = key) calls ->
  forall n s,
    0 <= n -> counting key n s ->
    fst (feed (List.map (fun c => ToolCallRequest c.1 c.2) calls) s)
    = List.map (fun i => 5 <=? n + Z.of_nat i) (seq 1 (length calls)).
Proof.
  induction 1 as [|[name args] calls Hkey Hrest IH]; intros n s Hn Hc;
    [reflexivity|].
  cbn [List.map LoopDetection.feed length seq].
  pose proof (addAndCheck_same_key key n name args s Hc Hkey) as Hstep.
  destruct (addAndCheck _ s) as [r s'].
  destruct Hstep as (Hr & Hfalse & Htrue).
  destruct (feed _ s') as [rs s''] eqn:Hfeed.
  cbn [fst]. f_equal; [exact Hr|].
  change rs with (fst (rs, s'')). rewrite <- Hfeed.
  rewrite <- seq_shift, List.map_map.
  destruct r.
  - rewrite feed_sticky by auto. cbn [fst].
    rewrite List.map_map. apply all_true_seq.
    intros i _. symmetry in Hr. apply Z.leb_le in Hr.
    apply Z.leb_le. lia.
  - rewrite (IH (n + 1) s') by (auto; lia).
    apply List.map_ext. intros i. f_equal. lia.
Qed.

Lemma reset_counting key promptId s : counting key 0 (reset promptId s).
Proof. repeat split; cbn; auto. Qed.

(** Claim C1.  After [reset], a run of tool calls that all have the same
    fingerprint is answered [false] four times and [true] from the
    fifth call on; and once five of them were fed, every later event of
    any kind is answered [true]. *)
Theorem tool_call_loop_on_fifth
        (promptId key : jsstring) (s0 : Service)
        (calls : list (jsstring * Args))
        (later : list (ServerGeminiStreamEvent Args)) :
  Forall (fun c => getToolCallKey c.1 c.2 = key) calls ->
  let events := List.map (fun c => ToolCallRequest c.1 c.2) calls in
  fst (feed events (reset promptId s0))
  = List.map (fun i => 5 <=? Z.of_nat i) (seq 1 (length calls))
  /\ ((5 <= length calls)%nat ->
      fst (feed later (snd (feed events (reset promptId s0))))
      = List.map (fun _ => true) later).
Proof.
  intros Hkeys events.
  assert (H : fst (feed events (reset promptId s0))
              = List.map (fun i => 5 <=? Z.of_nat i) (seq 1 (length calls))).
  { unfold events.
    rewrite (feed_same_key key calls Hkeys 0 (reset promptId s0));
      [reflexivity | lia | apply reset_counting]. }
  split; [exact H|].
  intros Hlen.
  assert (Hsticky : loopDetected (snd (feed events (reset promptId s0)))
                    = true).
  { apply feed_detected. rewrite H.
    apply List.in_map_iff. exists 5%nat. split; [reflexivity|].
    apply List.in_seq. lia. }
  rewrite feed_sticky by exact Hsticky. reflexivity.
Qed.

End ToolCalls.

Lemma tool_call_loop_on_fifth_witness :
  Forall (fun c => getToolCallKey SHA256.hexDigest jsstring serialized c.1 c.2
                   = SHA256.hexDigest (lit "read_file:{}")) sevenReads
  /\ fst (feed SHA256.hexDigest jsstring serialized
               (List.map (fun c => ToolCallRequest c.1 c.2) sevenReads)
               (reset (lit "prompt-1") newService))
     = [false; false; false; false; true; true; true].
Proof.
  assert (H : Forall (fun c => getToolCallKey SHA256.hexDigest jsstring
                                              serialized c.1 c.2
                               = SHA256.hexDigest (lit "read_file:{}"))
                     sevenReads)
    by (repeat constructor).
  split; [exact H|].
  exact (proj1 (tool_call_loop_on_fifth SHA256.hexDigest jsstring serialized
                  (lit "prompt-1") (SHA256.hexDigest (lit "read_file:{}"))
                  newService sevenReads [] H)).
Defined.

(** *** The density branch of the fast path *)

Lemma countUnit_two (a b : N) (text : jsstring) :
  a <> b -> countUnit a text + countUnit b text <= strlen text.
Proof.
  intros Hab. unfold countUnit, strlen.
  induction text as [|c text IH]; cbn [List.filter length]; [lia|].
  destruct (N.eqb_spec a c) as [Ha|Ha], (N.eqb_spec b c) as [Hb|Hb];
    cbn [length]; lia.
Qed.

Lemma Qgtb_inject (n len : Z) :
  Qgtb (inject_Z n) (inject_Z len * 0.6) = true <-> 6 * len < 10 * n.
Proof.
  unfold Qgtb. rewrite negb_true_iff, <- not_true_iff_false, Qle_bool_iff.
  unfold Qle, Qmult, inject_Z. cbn. lia.
Qed.

(** Claim C10.  Double quotes and stars are different characters, so their
    counts add up to at most the length of the text and cannot both
    exceed 60% of it; the density test of [hasObviousRepetition]
    therefore fails on every text and that branch never reports a
    loop: what the fast path finds is found by its two other tests. *)
Theorem density_branch_never_fires (text : jsstring) :
  ~ (inject_Z (strlen text) * 0.6 < inject_Z (countUnit 34 text)
     /\ inject_Z (strlen text) * 0.6 < inject_Z (countUnit 42 text))%Q
  /\ denseQuotesAndStars text = false
  /\ obviousIn text = charRepeat text || brokenQuote text.
Proof.
  pose proof (countUnit_two 34 42 text ltac:(discriminate)) as Hsum.
  assert (Hlen : 0 <= strlen text) by (unfold strlen; lia).
  assert (Hdense : denseQuotesAndStars text = false).
  { unfold denseQuotesAndStars.
    destruct (100 <? strlen text); [|reflexivity].
    apply andb_false_iff.
    destruct (Qgtb (inject_Z (countUnit 34 text)) _) eqn:E1; [|now left].
    destruct (Qgtb (inject_Z (countUnit 42 text)) _) eqn:E2; [|now right].
    apply Qgtb_inject in E1, E2. lia. }
  split; [|split].
  - intros [H1 H2]. unfold Qlt, Qmult, inject_Z in H1, H2. cbn in H1, H2. lia.
  - exact Hdense.
  - unfold obviousIn. rewrite Hdense. apply orb_false_r.
Qed.

(** *** The history buffer *)

Section History.

Variable sha256 : jsstring -> jsstring.

(** Looking at one chunk changes [contentStats] only. *)
Lemma isLoopDetectedForChunk_frame chunk hash s :
  let s' := snd (isLoopDetectedForChunk chunk hash s) in
  streamContentHistory s' = streamContentHistory s
  /\ lastContentIndex s' = lastContentIndex s
  /\ inCodeBlock s' = inCodeBlock s
  /\ telemetry s' = telemetry s
  /\ promptId s' = promptId s.
Proof.
  unfold isLoopDetectedForChunk.
  destruct (contentStats s !! hash) as [[|first rest]|]; cbn; auto.
  destruct (isActualContentMatch chunk first s); cbn; auto.
  destruct (_ <? CONTENT_LOOP_THRESHOLD); cbn; auto.
Qed.

(** The loop of [analyzeContentChunksForLoop] ends within its fuel. *)
Lemma analyzeLoop_terminates fuel s :
  (Z.to_nat (strlen (streamContentHistory s) - CONTENT_CHUNK_SIZE + 1
             - lastContentIndex s) < fuel)%nat ->
  is_Some (analyzeLoop sha256 fuel s).
Proof.
  revert s. induction fuel as [|fuel IH]; intros s Hfuel; [lia|].
  cbn [analyzeLoop].
  destruct (hasMoreChunksToProcess s) eqn:Hmore; [|eauto].
  pose proof (isLoopDetectedForChunk_frame
                (substring (streamContentHistory s) (lastContentIndex s)
                           (lastContentIndex s + CONTENT_CHUNK_SIZE))
                (sha256 (substring (streamContentHistory s)
                                   (lastContentIndex s)
                                   (lastContentIndex s + CONTENT_CHUNK_SIZE)))
                s) as Hframe.
  destruct (isLoopDetectedForChunk _ _ s) as [detected s1].
  cbn [snd] in Hframe. destruct Hframe as (Hh & Hi & _).
  destruct detected; [eauto|].
  apply IH. cbn. rewrite Hh, Hi.
  unfold hasMoreChunksToProcess in Hmore. apply Z.leb_le in Hmore.
  unfold CONTENT_CHUNK_SIZE in *. lia.
Qed.

Lemma analyzeContentChunksForLoop_runs s :
  analyzeLoop sha256 (analyzeFuel s) s
  = Some (analyzeContentChunksForLoop sha256 s).
Proof.
  unfold analyzeContentChunksForLoop.
  destruct (analyzeLoop_terminates (analyzeFuel s) s) as [r Hr];
    [unfold analyzeFuel; lia | now rewrite Hr].
Qed.

Lemma analyzeLoop_history fuel s r s' :
  analyzeLoop sha256 fuel s = Some (r, s') ->
  streamContentHistory s' = streamContentHistory s
  /\ inCodeBlock s' = inCodeBlock s.
Proof.
  revert s. induction fuel as [|fuel IH]; intros s; [discriminate|].
  cbn [analyzeLoop].
  destruct (hasMoreChunksToProcess s); [|intros [= <- <-]; auto].
  match goal with
  | |- context [isLoopDetectedForChunk ?c ?h s] =>
      pose proof (isLoopDetectedForChunk_frame c h s) as Hframe;
      destruct (isLoopDetectedForChunk c h s) as [detected s1]
  end.
  cbn [snd] in Hframe. destruct Hframe as (Hh & _ & Hc & _).
  destruct detected.
  - intros [= <- <-]. cbn. auto.
  - intros H. apply IH in H. cbn in H. destruct H. split; congruence.
Qed.

Lemma analyzeContentChunksForLoop_history s :
  streamContentHistory (snd (analyzeContentChunksForLoop sha256 s))
  = streamContentHistory s.
Proof.
  pose proof (analyzeContentChunksForLoop_runs s) as H.
  destruct (analyzeContentChunksForLoop sha256 s) as [r s'].
  apply analyzeLoop_history in H. apply H.
Qed.

Lemma truncateAndUpdate_cap s :
  strlen (streamContentHistory (truncateAndUpdate s)) <= MAX_HISTORY_LENGTH.
Proof.
  unfold truncateAndUpdate.
  destruct (_ <=? MAX_HISTORY_LENGTH) eqn:E.
  - now apply Z.leb_le in E.
  - apply Z.leb_gt in E. cbn. unfold slice_from, strlen in *.
    unfold MAX_HISTORY_LENGTH in *.
    destruct (_ <? 0) eqn:E'; [apply Z.ltb_lt in E'; lia|].
    rewrite length_drop. lia.
Qed.

(** As long as no loop is reported the history stays within the cap. *)
Lemma checkContentLoop_cap content s :
  strlen (streamContentHistory s) <= MAX_HISTORY_LENGTH ->
  fst (checkContentLoop sha256 content s) = false ->
  strlen (streamContentHistory (snd (checkContentLoop sha256 content s)))
  <= MAX_HISTORY_LENGTH.
Proof.
  intros Hcap. unfold checkContentLoop. cbv zeta.
  match goal with
  | |- context [if ?b then resetContentTracking true s else s] =>
      set (s1 := if b then resetContentTracking true s else s);
      assert (H1 : strlen (streamContentHistory s1) <= MAX_HISTORY_LENGTH)
        by (subst s1; destruct b;
            [unfold resetContentTracking, MAX_HISTORY_LENGTH, strlen; cbn; lia
            | exact Hcap]);
      clearbody s1
  end.
  match goal with
  | |- context [if ?c then (false, ?x) else _] => destruct c
  end; [intros _; exact H1|].
  destruct (hasObviousRepetition _ _); [discriminate|].
  intros _. rewrite analyzeContentChunksForLoop_history.
  apply truncateAndUpdate_cap.
Qed.

Lemma addAndCheck_cap (Args : Type) (JSON_stringify : Args -> jsstring) e s :
  strlen (streamContentHistory s) <= MAX_HISTORY_LENGTH ->
  fst (addAndCheck sha256 Args JSON_stringify e s) = false ->
  strlen (streamContentHistory (snd (addAndCheck sha256 Args JSON_stringify e s)))
  <= MAX_HISTORY_LENGTH.
Proof.
  intros Hcap. unfold addAndCheck.
  destruct (loopDetected s); [discriminate|].
  destruct e as [name args | value |].
  - unfold checkToolCallLoop.
    destruct (_ <=? _); [discriminate|]. intros _.
    destruct (decide _); unfold resetContentTracking, strlen; cbn;
      unfold MAX_HISTORY_LENGTH; lia.
  - pose proof (checkContentLoop_cap value s Hcap) as H.
    destruct (checkContentLoop sha256 value s) as [r s'].
    cbn [fst snd] in *. exact H.
  - intros _. exact Hcap.
Qed.

(** While every answer is [false] the history stays within the cap. *)
Lemma feed_cap (Args : Type) (JSON_stringify : Args -> jsstring) events s :
  strlen (streamContentHistory s) <= MAX_HISTORY_LENGTH ->
  Forall (fun r => r = false) (fst (feed sha256 Args JSON_stringify events s)) ->
  strlen (streamContentHistory (snd (feed sha256 Args JSON_stringify events s)))
  <= MAX_HISTORY_LENGTH.
Proof.
  revert s. induction events as [|e events IH]; intros s Hcap; cbn;
    [intros _; exact Hcap|].
  pose proof (addAndCheck_cap Args JSON_stringify e s Hcap) as Hstep.
  destruct (addAndCheck sha256 Args JSON_stringify e s) as [r s1].
  specialize (IH s1).
  destruct (feed sha256 Args JSON_stringify events s1) as [rs s2].
  cbn [fst snd] in *. intros Hall.
  apply Forall_cons in Hall. destruct Hall as [-> Hall]. auto.
Qed.

(** Claim C4, where the code departs from it.  A single content event of
    1001 letters [a] is caught by the fast path: [addAndCheck] answers
    [true] and returns before [truncateAndUpdate] runs, leaving 1001
    code units in [streamContentHistory], one more than the cap. *)
Theorem history_over_cap_after_fast_path
        (Args : Type) (JSON_stringify : Args -> jsstring) :
  let r := addAndCheck sha256 Args JSON_stringify
                       (Content (repeat 97%N 1001))
                       (reset (lit "prompt-1") newService) in
  fst r = true
  /\ strlen (streamContentHistory (snd r)) = 1001
  /\ MAX_HISTORY_LENGTH < strlen (streamContentHistory (snd r)).
Proof. vm_compute. repeat split; reflexivity. Qed.

End History.

(** *** Truncation *)

(** With both ends in order and not negative, [substring] is a [take] of
    a [drop]. *)
Lemma substring_in_range (h : jsstring) (a n : Z) :
  0 <= a -> 0 <= n ->
  substring h a (a + n) = take (Z.to_nat n) (drop (Z.to_nat a) h).
Proof.
  intros Ha Hn. unfold substring, strlen.
  rewrite (Z.max_l a 0), (Z.max_l (a + n) 0) by lia.
  destruct (Z.le_gt_cases (a + n) (Z.of_nat (length h))) as [H|H].
  - rewrite (Z.min_l a), (Z.min_l (a + n)) by lia.
    rewrite Z.min_l, Z.max_r by lia. f_equal. lia.
  - rewrite (Z.min_r (a + n)) by lia.
    destruct (Z.le_gt_cases a (Z.of_nat (length h))) as [H'|H'].
    + rewrite (Z.min_l a) by lia. rewrite Z.min_l, Z.max_r by lia.
      rewrite !take_ge; [reflexivity| |]; rewrite length_drop; lia.
    + rewrite (Z.min_r a) by lia. rewrite Z.min_l, Z.max_r by lia.
      rewrite !drop_ge by lia. now rewrite !take_nil.
Qed.

(** A window of the buffer after its first [t] code units were dropped is
    the window [t] places further in the buffer before. *)
Lemma substring_drop (h : jsstring) (t j n : Z) :
  0 <= t <= strlen h -> 0 <= j -> 0 <= n ->
  substring (drop (Z.to_nat t) h) j (j + n) = substring h (j + t) (j + t + n).
Proof.
  intros Ht Hj Hn.
  rewrite !substring_in_range by lia.
  rewrite drop_drop. do 2 f_equal. lia.
Qed.

Lemma slice_from_drop (h : jsstring) (t : Z) :
  0 <= t <= strlen h -> slice_from h t = drop (Z.to_nat t) h.
Proof.
  intros Ht. unfold slice_from.
  destruct (t <? 0) eqn:E; [apply Z.ltb_lt in E; lia|].
  f_equal. lia.
Qed.

Lemma adjustIndices_elem (t : Z) (l l' : list Z) (j : Z) :
  adjustIndices t l = Some l' ->
  In j l' <-> exists i, In i l /\ j = i - t /\ 0 <= j.
Proof.
  unfold adjustIndices. destruct (0 <? _); [|discriminate].
  intros [= <-]. rewrite List.filter_In, List.in_map_iff, Z.leb_le.
  split.
  - intros [(i & <- & Hi) Hj]. eauto.
  - intros (i & Hi & -> & Hj). eauto.
Qed.

(** Claim C5.  When the history is longer than the cap, [truncateAndUpdate]
    drops the excess [t] from the front and, in every entry of
    [contentStats], replaces the offsets by the offsets minus [t] that
    are not negative, in the same order, deleting the entry when none is
    left.  An offset that survives addresses the same 20 code units of
    the truncated buffer as it did of the buffer before. *)
Theorem truncation_keeps_chunk_positions (s : Service) :
  MAX_HISTORY_LENGTH < strlen (streamContentHistory s) ->
  let t := strlen (streamContentHistory s) - MAX_HISTORY_LENGTH in
  let s' := truncateAndUpdate s in
  streamContentHistory s' = drop (Z.to_nat t) (streamContentHistory s)
  /\ strlen (streamContentHistory s') = MAX_HISTORY_LENGTH
  /\ (forall hash,
        contentStats s' !! hash
        = match contentStats s !! hash with
          | Some l =>
              match List.filter (fun j => 0 <=? j)
                                (List.map (fun i => i - t) l) with
              | [] => None
              | l' => Some l'
              end
          | None => None
          end)
  /\ (forall hash l' j,
        contentStats s' !! hash = Some l' -> In j l' ->
        0 <= j
        /\ (exists l, contentStats s !! hash = Some l /\ In (j + t) l)
        /\ substring (streamContentHistory s') j (j + CONTENT_CHUNK_SIZE)
           = substring (streamContentHistory s) (j + t)
                       (j + t + CONTENT_CHUNK_SIZE)).
Proof.
  intros Hlong t s'.
  assert (Ht : 0 <= t <= strlen (streamContentHistory s))
    by (unfold t, MAX_HISTORY_LENGTH in *; lia).
  assert (Hs' : s' = set_contentStats
                       (omap (adjustIndices t) (contentStats s))
                       (set_lastContentIndex
                          (Z.max 0 (lastContentIndex s - t))
                          (set_streamContentHistory
                             (slice_from (streamContentHistory s) t) s))).
  { unfold s', truncateAndUpdate.
    destruct (_ <=? MAX_HISTORY_LENGTH) eqn:E; [apply Z.leb_le in E; lia|].
    reflexivity. }
  assert (Hh : streamContentHistory s'
               = drop (Z.to_nat t) (streamContentHistory s)).
  { rewrite Hs'. cbn. now apply slice_from_drop. }
  assert (Hstats : forall hash,
             contentStats s' !! hash
             = contentStats s !! hash ≫= adjustIndices t).
  { intros hash. rewrite Hs'. cbn. apply lookup_omap. }
  split; [exact Hh|]. split; [|split].
  - rewrite Hh. unfold strlen in *. rewrite length_drop.
    unfold t, MAX_HISTORY_LENGTH in *. lia.
  - intros hash. rewrite Hstats.
    destruct (contentStats s !! hash) as [l|]; [|reflexivity].
    cbn. unfold adjustIndices.
    destruct (List.filter _ _); reflexivity.
  - intros hash l' j Hl' Hj. rewrite Hstats in Hl'.
    destruct (contentStats s !! hash) as [l|] eqn:Hl; [|discriminate].
    cbn in Hl'.
    apply (adjustIndices_elem t l l' j Hl') in Hj.
    destruct Hj as (i & Hi & -> & Hpos).
    replace (i - t + t) with i by lia.
    split; [exact Hpos|]. split; [eauto|].
    rewrite Hh. rewrite substring_drop; try (unfold CONTENT_CHUNK_SIZE; lia).
    now replace (i - t + t) with i by lia.
Qed.

Lemma truncation_keeps_chunk_positions_witness :
  MAX_HISTORY_LENGTH < strlen (streamContentHistory overlongService)
  /\ contentStats (truncateAndUpdate overlongService) !! lit "k" = Some [2; 7].
Proof.
  assert (H : MAX_HISTORY_LENGTH < strlen (streamContentHistory overlongService))
    by (vm_compute; reflexivity).
  split; [exact H|].
  destruct (truncation_keeps_chunk_positions overlongService H)
    as (_ & _ & Hstats & _).
  rewrite Hstats. vm_compute. reflexivity.
Defined.

(** *** Fenced code blocks *)

Section CodeBlocks.

Variable sha256 : jsstring -> jsstring.
Variable Args : Type.
Variable JSON_stringify : Args -> jsstring.

Local Abbreviation feed := (feed sha256 Args JSON_stringify).

(** A content event is left unexamined when the service is inside a
    code block before it or after it; the flag [inCodeBlock] flips on
    an odd number of fences. *)
Lemma checkContentLoop_skipped content s :
  let inside :=
    if countFences content mod 2 =? 0 then inCodeBlock s
    else negb (inCodeBlock s) in
  inCodeBlock s || inside = true ->
  fst (checkContentLoop sha256 content s) = false
  /\ inCodeBlock (snd (checkContentLoop sha256 content s)) = inside.
Proof.
  intros inside Hin. unfold checkContentLoop. cbv zeta.
  match goal with
  | |- context [if ?b then resetContentTracking true s else s] =>
      set (s1 := if b then resetContentTracking true s else s);
      assert (H1 : inCodeBlock s1 = inCodeBlock s)
        by (subst s1; destruct b; reflexivity);
      clearbody s1
  end.
  cbn [inCodeBlock set_inCodeBlock]. rewrite H1. fold inside.
  rewrite Hin. cbn. auto.
Qed.

Lemma addAndCheck_skipped content s :
  loopDetected s = false ->
  let inside :=
    if countFences content mod 2 =? 0 then inCodeBlock s
    else negb (inCodeBlock s) in
  inCodeBlock s || inside = true ->
  let r := addAndCheck sha256 Args JSON_stringify (Content content) s in
  fst r = false /\ loopDetected (snd r) = false
  /\ inCodeBlock (snd r) = inside.
Proof.
  intros Hl inside Hin. unfold addAndCheck. rewrite Hl.
  destruct (checkContentLoop_skipped content s Hin) as [Hr Hb].
  destruct (checkContentLoop sha256 content s) as [r s'].
  cbn [fst snd] in *. subst r. cbn. auto.
Qed.

Lemma feed_app events1 events2 s :
  feed (events1 ++ events2) s
  = (fst (feed events1 s) ++ fst (feed events2 (snd (feed events1 s))),
     snd (feed events2 (snd (feed events1 s)))).
Proof.
  revert s. induction events1 as [|e events1 IH]; intros s; cbn.
  - now destruct (LoopDetection.feed _ _ _ events2 s).
  - destruct (addAndCheck _ _ _ e s) as [r s1]. rewrite IH.
    destruct (LoopDetection.feed _ _ _ events1 s1) as [rs s2].
    reflexivity.
Qed.

(** Between the fences every event is skipped. *)
Lemma feed_inside_block body s :
  loopDetected s = false -> inCodeBlock s = true ->
  Forall (fun c => countFences c = 0) body ->
  let r := feed (List.map Content body) s in
  fst r = List.map (fun _ => false) body
  /\ loopDetected (snd r) = false /\ inCodeBlock (snd r) = true.
Proof.
  intros Hl Hb Hbody. revert s Hl Hb.
  induction Hbody as [|c body Hc Hbody IH]; intros s Hl Hb; cbn; [auto|].
  destruct (addAndCheck_skipped c s Hl) as (Hr & Hl' & Hb').
  { rewrite Hb. reflexivity. }
  rewrite Hc, Hb in Hb'. cbn in Hb'.
  destruct (addAndCheck _ _ _ (Content c) s) as [r s1].
  cbn [fst snd] in *. subst r.
  specialize (IH s1 Hl' Hb').
  destruct (LoopDetection.feed _ _ _ _ s1) as [rs s2].
  cbn [fst snd] in *. destruct IH as (-> & ? & ?). auto.
Qed.

(** Claim C6, as the code has it.  Take a service that has reported no loop
    and is outside a code block, and a fenced block that arrives as an
    event carrying the opening fence, any number of events without a
    fence, and an event carrying the closing fence.  Every event up to
    and including the closing one is answered [false], however
    repetitive the text is; after the closing event the service is
    outside the block again. *)
Theorem fenced_block_never_reports
        (s : Service) (opening closing : jsstring) (body : list jsstring) :
  loopDetected s = false -> inCodeBlock s = false ->
  countFences opening = 1 ->
  Forall (fun c => countFences c = 0) body ->
  countFences closing = 1 ->
  let unfinished := List.map Content (opening :: body) in
  let finished := List.map Content (opening :: body ++ [closing]) in
  fst (feed unfinished s) = List.map (fun _ => false) unfinished
  /\ inCodeBlock (snd (feed unfinished s)) = true
  /\ fst (feed finished s) = List.map (fun _ => false) finished
  /\ inCodeBlock (snd (feed finished s)) = false.
Proof.
  intros Hl Hb Hopen Hbody Hclose unfinished finished.
  assert (Hu : fst (feed unfinished s) = List.map (fun _ => false) unfinished
               /\ loopDetected (snd (feed unfinished s)) = false
               /\ inCodeBlock (snd (feed unfinished s)) = true).
  { unfold unfinished. cbn [List.map LoopDetection.feed].
    destruct (addAndCheck_skipped opening s Hl) as (Hr & Hl' & Hb').
    { rewrite Hopen, Hb. reflexivity. }
    rewrite Hopen, Hb in Hb'. cbn in Hb'.
    destruct (addAndCheck _ _ _ (Content opening) s) as [r s1].
    cbn [fst snd] in *. subst r.
    pose proof (feed_inside_block body s1 Hl' Hb' Hbody) as H.
    destruct (LoopDetection.feed _ _ _ _ s1) as [rs s2].
    cbn [fst snd] in *. destruct H as (-> & ? & ?).
    rewrite List.map_map. auto. }
  destruct Hu as (Hu1 & Hu2 & Hu3).
  split; [exact Hu1|]. split; [exact Hu3|].
  assert (Hf : finished = unfinished ++ [Content closing]).
  { unfold finished, unfinished. cbn. now rewrite List.map_app. }
  rewrite Hf, feed_app. cbn [fst snd]. rewrite Hu1.
  cbn [LoopDetection.feed].
  destruct (addAndCheck_skipped closing (snd (feed unfinished s)) Hu2)
    as (Hr & _ & Hb').
  { rewrite Hu3. reflexivity. }
  rewrite Hclose, Hu3 in Hb'. cbn in Hb'.
  destruct (addAndCheck _ _ _ (Content closing) _) as [r s1].
  cbn [fst snd] in *. subst r.
  rewrite List.map_app. auto.
Qed.

(** A block that arrives whole in one event carries two fences, which
    leave [inCodeBlock] as it was: the text is examined like any other
    and twenty letters [x] in a row inside the block trip the fast
    path, whatever the digest. *)
Lemma whole_block_in_one_event_reports :
  countFences wholeBlock = 2
  /\ fst (feed [Content wholeBlock] (reset (lit "prompt-1") newService))
     = [true].
Proof. vm_compute. auto. Qed.

End CodeBlocks.

(** Claim C6, as stated, fails: the stream consisting of one content event
    that holds a complete fenced block, with twenty letters [x] on its
    only line, is answered [true]. *)
Lemma fenced_block_counterexample :
  fst (feed SHA256.hexDigest jsstring serialized [Content wholeBlock]
            (reset (lit "prompt-1") newService))
  = [true].
Proof. vm_compute. reflexivity. Qed.

Lemma fenced_block_never_reports_witness :
  (loopDetected (reset (lit "prompt-1") newService) = false
   /\ inCodeBlock (reset (lit "prompt-1") newService) = false
   /\ countFences fenceOpening = 1
   /\ Forall (fun c => countFences c = 0) codeLines
   /\ countFences fenceClosing = 1)
  /\ fst (feed SHA256.hexDigest jsstring serialized
               (List.map Content (fenceOpening :: codeLines ++ [fenceClosing]))
               (reset (lit "prompt-1") newService))
     = repeat false 8.
Proof.
  assert (H1 : loopDetected (reset (lit "prompt-1") newService) = false)
    by reflexivity.
  assert (H2 : inCodeBlock (reset (lit "prompt-1") newService) = false)
    by reflexivity.
  assert (H3 : countFences fenceOpening = 1) by reflexivity.
  assert (H4 : Forall (fun c => countFences c = 0) codeLines)
    by (repeat constructor).
  assert (H5 : countFences fenceClosing = 1) by reflexivity.
  split; [auto|].
  exact (proj1 (proj2 (proj2
           (fenced_block_never_reports SHA256.hexDigest jsstring serialized
              (reset (lit "prompt-1") newService) fenceOpening fenceClosing
              codeLines H1 H2 H3 H4 H5)))).
Defined.

(** *** The digest only files the chunks *)

Lemma windows_spec (h w : jsstring) :
  In w (windows h)
  <-> exists k : nat, (k + 20 <= length h)%nat /\ w = take 20 (drop k h).
Proof.
  induction h as [|a r IH].
  - cbn. split; [intros [] | intros (k & Hk & _); cbn in Hk; lia].
  - cbn [windows]. rewrite List.in_app_iff, IH.
    unfold CONTENT_CHUNK_SIZE, strlen.
    change (Z.to_nat 20) with 20%nat.
    split.
    + intros [Hw | (k & Hk & ->)].
      * destruct (20 <=? _) eqn:E; [|destruct Hw].
        apply Z.leb_le in E. destruct Hw as [<- | []].
        exists 0%nat. split; [lia | reflexivity].
      * exists (S k). split; [cbn [length]; lia | reflexivity].
    + intros ([|k] & Hk & ->).
      * left. destruct (20 <=? _) eqn:E; [now left|].
        apply Z.leb_gt in E. lia.
      * right. exists k. split; [cbn [length] in Hk; lia | reflexivity].
Qed.

Lemma windows_drop (n : nat) (h : jsstring) :
  incl (windows (drop n h)) (windows h).
Proof.
  intros w. rewrite !windows_spec. intros (k & Hk & ->).
  rewrite length_drop in Hk.
  exists (n + k)%nat. split; [lia | now rewrite drop_drop].
Qed.

Lemma windows_app_r (h1 h2 : jsstring) :
  incl (windows h2) (windows (h1 ++ h2)).
Proof.
  replace h2 with (drop (length h1) (h1 ++ h2)) at 1
    by apply drop_app_length.
  apply windows_drop.
Qed.

Lemma substring_window (h : jsstring) (i : Z) :
  0 <= i -> i + CONTENT_CHUNK_SIZE <= strlen h ->
  In (substring h i (i + CONTENT_CHUNK_SIZE)) (windows h).
Proof.
  unfold CONTENT_CHUNK_SIZE, strlen. intros Hi Hlen.
  apply windows_spec. exists (Z.to_nat i). split; [lia|].
  now rewrite substring_in_range by lia.
Qed.

Lemma isChunk_In chunks w : isChunk chunks w = true -> In w chunks.
Proof.
  unfold isChunk. rewrite existsb_exists.
  intros (c & Hc & E). apply bool_decide_eq_true in E. now subst.
Qed.

Section Digest.

Variables digest1 digest2 : jsstring -> jsstring.
Variable chunks : list jsstring.
Hypothesis free1 : collisionFreeOn chunks digest1.
Hypothesis free2 : collisionFreeOn chunks digest2.

Local Abbreviation agree := (statsAgree chunks digest1 digest2).
Local Abbreviation related := (sameBut chunks digest1 digest2).

Lemma agree_empty : agree ∅ ∅.
Proof. intros c _. now rewrite !lookup_empty. Qed.

Lemma agree_insert c v m1 m2 :
  In c chunks -> agree m1 m2 ->
  agree (<[digest1 c := v]> m1) (<[digest2 c := v]> m2).
Proof.
  intros Hc Hm c' Hc'. destruct (decide (c = c')) as [<-|Hne].
  - now rewrite !lookup_insert_eq.
  - rewrite !lookup_insert_ne; [now apply Hm | |].
    + intros E. apply Hne. now apply free2.
    + intros E. apply Hne. now apply free1.
Qed.

Lemma agree_omap (f : list Z -> option (list Z)) m1 m2 :
  agree m1 m2 -> agree (omap f m1) (omap f m2).
Proof. intros Hm c Hc. rewrite !lookup_omap. now rewrite (Hm c Hc). Qed.

(** One chunk, filed under either digest. *)
Lemma isLoopDetectedForChunk_related c m1 s2 :
  In c chunks -> agree m1 (contentStats s2) ->
  let r1 := isLoopDetectedForChunk c (digest1 c) (set_contentStats m1 s2) in
  let r2 := isLoopDetectedForChunk c (digest2 c) s2 in
  fst r1 = fst r2
  /\ exists m1', snd r1 = set_contentStats m1' (snd r2)
                 /\ agree m1' (contentStats (snd r2)).
Proof.
  intros Hc Hm. unfold isLoopDetectedForChunk.
  cbn [contentStats set_contentStats]. rewrite (Hm c Hc).
  destruct (contentStats s2 !! digest2 c) as [[|first rest]|]; cbn zeta.
  - split; [reflexivity|]. exists m1. split; [reflexivity | exact Hm].
  - change (isActualContentMatch c first (set_contentStats m1 s2))
      with (isActualContentMatch c first s2).
    destruct (isActualContentMatch c first s2); cbn [negb].
    + cbn [lastContentIndex set_contentStats contentStats].
      destruct (_ <? CONTENT_LOOP_THRESHOLD); cbn [fst snd];
        (split; [reflexivity|]);
        eexists; (split; [reflexivity|]); cbn [contentStats];
        now apply agree_insert.
    + split; [reflexivity|]. exists m1. split; [reflexivity | exact Hm].
  - cbn [fst snd lastContentIndex set_contentStats contentStats].
    split; [reflexivity|].
    eexists. split; [reflexivity|]. cbn [contentStats].
    now apply agree_insert.
Qed.

(** The sliding analysis, under either digest. *)
Lemma analyzeLoop_related fuel m1 s2 :
  0 <= lastContentIndex s2 ->
  incl (windows (streamContentHistory s2)) chunks ->
  agree m1 (contentStats s2) ->
  match analyzeLoop digest1 fuel (set_contentStats m1 s2),
        analyzeLoop digest2 fuel s2 with
  | Some (r1, s1'), Some (r2, s2') => r1 = r2 /\ related s1' s2'
  | None, None => True
  | _, _ => False
  end.
Proof.
  revert m1 s2. induction fuel as [|fuel IH]; intros m1 s2 Hi Hw Hm;
    [exact I|].
  cbn [analyzeLoop].
  change (hasMoreChunksToProcess (set_contentStats m1 s2))
    with (hasMoreChunksToProcess s2).
  destruct (hasMoreChunksToProcess s2) eqn:Hmore.
  2: { split; [reflexivity|]. repeat split; auto. }
  cbn [streamContentHistory lastContentIndex set_contentStats].
  set (c := substring (streamContentHistory s2) (lastContentIndex s2)
                      (lastContentIndex s2 + CONTENT_CHUNK_SIZE)).
  assert (Hc : In c chunks).
  { apply Hw, substring_window; [exact Hi|].
    unfold hasMoreChunksToProcess in Hmore. now apply Z.leb_le in Hmore. }
  pose proof (isLoopDetectedForChunk_related c m1 s2 Hc Hm) as Hstep.
  pose proof (isLoopDetectedForChunk_frame c (digest2 c) s2) as Hframe.
  fold (set_contentStats m1 s2).
  destruct (isLoopDetectedForChunk c (digest1 c) (set_contentStats m1 s2))
    as [r1 s1'].
  destruct (isLoopDetectedForChunk c (digest2 c) s2) as [r2 s2'].
  cbn [fst snd] in Hstep, Hframe.
  destruct Hstep as (<- & m1' & -> & Hm').
  destruct Hframe as (Hh & Hidx & _).
  destruct r1.
  - split; [reflexivity|]. repeat split; cbn; auto. lia.
  - specialize (IH m1' (set_lastContentIndex (lastContentIndex s2' + 1) s2')).
    apply IH; cbn; auto; [lia | now rewrite Hh].
Qed.

Lemma analyzeContentChunksForLoop_related m1 s2 :
  0 <= lastContentIndex s2 ->
  incl (windows (streamContentHistory s2)) chunks ->
  agree m1 (contentStats s2) ->
  let r1 := analyzeContentChunksForLoop digest1 (set_contentStats m1 s2) in
  let r2 := analyzeContentChunksForLoop digest2 s2 in
  fst r1 = fst r2 /\ related (snd r1) (snd r2).
Proof.
  intros Hi Hw Hm. unfold analyzeContentChunksForLoop.
  change (analyzeFuel (set_contentStats m1 s2)) with (analyzeFuel s2).
  pose proof (analyzeLoop_related (analyzeFuel s2) m1 s2 Hi Hw Hm) as H.
  destruct (analyzeLoop digest1 _ _) as [[r1 s1']|],
           (analyzeLoop digest2 _ _) as [[r2 s2']|]; try contradiction.
  - exact H.
  - split; [reflexivity|]. repeat split; auto.
Qed.

Lemma truncateAndUpdate_related m1 s2 :
  0 <= lastContentIndex s2 ->
  agree m1 (contentStats s2) ->
  exists m1' n,
    truncateAndUpdate (set_contentStats m1 s2)
    = set_contentStats m1' (truncateAndUpdate s2)
    /\ agree m1' (contentStats (truncateAndUpdate s2))
    /\ 0 <= lastContentIndex (truncateAndUpdate s2)
    /\ streamContentHistory (truncateAndUpdate s2)
       = drop n (streamContentHistory s2).
Proof.
  intros Hi Hm. unfold truncateAndUpdate.
  cbn [streamContentHistory set_contentStats].
  destruct (_ <=? MAX_HISTORY_LENGTH).
  - exists m1, 0%nat. repeat split; auto.
  - eexists. eexists. split; [reflexivity|]. cbn.
    split; [now apply agree_omap|]. split; [lia|]. reflexivity.
Qed.

(** One content event, under either digest. *)
Lemma checkContentLoop_related content s1 s2 :
  related s1 s2 ->
  forallb (isChunk chunks) (windows (streamContentHistory s2 ++ content))
  = true ->
  let r1 := checkContentLoop digest1 content s1 in
  let r2 := checkContentLoop digest2 content s2 in
  fst r1 = fst r2 /\ related (snd r1) (snd r2).
Proof.
  intros (Hi & Hs1 & Hm) Hw.
  assert (Hincl : incl (windows (streamContentHistory s2 ++ content)) chunks).
  { intros w Hin. apply isChunk_In.
    rewrite forallb_forall in Hw. now apply Hw. }
  clear Hw. revert Hs1 Hm. generalize (contentStats s1).
  intros m1 -> Hm.
  unfold checkContentLoop. cbv zeta.
  match goal with
  | |- context [if ?b then resetContentTracking true s2 else s2] =>
      set (t2 := if b then resetContentTracking true s2 else s2);
      assert (Ht : exists m,
                 (if b then resetContentTracking true (set_contentStats m1 s2)
                  else set_contentStats m1 s2) = set_contentStats m t2
                 /\ agree m (contentStats t2)
                 /\ 0 <= lastContentIndex t2
                 /\ incl (windows (streamContentHistory t2 ++ content))
                         chunks)
  end.
  { subst t2. destruct (_ || _).
    - exists ∅. split; [reflexivity|]. split; [apply agree_empty|].
      split; [cbn; lia|]. cbn [resetContentTracking streamContentHistory
        set_lastContentIndex set_contentStats set_streamContentHistory].
      intros w Hwin. apply Hincl. revert Hwin. apply windows_app_r.
    - exists m1. auto. }
  destruct Ht as (m & -> & Hm' & Hi' & Hincl').
  clearbody t2. clear Hincl Hm Hi m1 s2.
  cbn [inCodeBlock set_contentStats set_inCodeBlock].
  match goal with
  | |- context [if ?c then (false, ?x) else _] => destruct c
  end.
  { split; [reflexivity|]. repeat split; auto. }
  cbn [streamContentHistory set_contentStats set_inCodeBlock
       set_streamContentHistory].
  match goal with
  | |- context [hasObviousRepetition content ?x] =>
      match goal with
      | |- context [hasObviousRepetition content ?y] =>
          tryif constr_eq x y then fail else
            change (hasObviousRepetition content x)
              with (hasObviousRepetition content y)
      end
  end.
  match goal with
  | |- context [if ?c then (true, ?x) else _] => destruct c
  end.
  { split; [reflexivity|]. repeat split; auto. }
  match goal with
  | |- context [analyzeContentChunksForLoop digest2 (truncateAndUpdate ?x)] =>
      destruct (truncateAndUpdate_related m x Hi' Hm')
        as (m' & n & Ht & Hm'' & Hi'' & Hh);
      pose proof (analyzeContentChunksForLoop_related
                    m' (truncateAndUpdate x) Hi'' ) as Ha
  end.
  cbn [streamContentHistory set_streamContentHistory set_inCodeBlock] in Hh.
  match type of Ht with
  | truncateAndUpdate ?a = _ =>
      match goal with
      | |- context [analyzeContentChunksForLoop digest1 (truncateAndUpdate ?b)] =>
          change (truncateAndUpdate b) with (truncateAndUpdate a)
      end
  end.
  rewrite Ht. apply Ha; [|exact Hm''].
  rewrite Hh. intros w Hwin. apply Hincl'. revert Hwin. apply windows_drop.
Qed.

Lemma addAndCheck_related (Args : Type) (JSON_stringify : Args -> jsstring)
      content s1 s2 :
  related s1 s2 ->
  forallb (isChunk chunks) (windows (streamContentHistory s2 ++ content))
  = true ->
  let r1 := addAndCheck digest1 Args JSON_stringify (Content content) s1 in
  let r2 := addAndCheck digest2 unit (fun _ => []) (Content content) s2 in
  fst r1 = fst r2 /\ related (snd r1) (snd r2).
Proof.
  intros Hrel Hw.
  pose proof (checkContentLoop_related content s1 s2 Hrel Hw) as Hstep.
  destruct Hrel as (Hi & Hs1 & Hm).
  unfold addAndCheck.
  replace (loopDetected s1) with (loopDetected s2) by (now rewrite Hs1).
  destruct (loopDetected s2).
  { split; [reflexivity|]. repeat split; auto. }
  destruct (checkContentLoop digest1 content s1) as [r1 s1'].
  destruct (checkContentLoop digest2 content s2) as [r2 s2'].
  cbn [fst snd] in *. destruct Hstep as (<- & Hi' & Hs1' & Hm').
  split; [reflexivity|]. repeat split; auto.
  rewrite Hs1' at 1. reflexivity.
Qed.

(** The answers to a stream of content events, and the state up to the
    keys of [contentStats], do not depend on the digest as long as it
    tells apart the chunks that come up. *)
Lemma feed_related (Args : Type) (JSON_stringify : Args -> jsstring)
      contents s1 s2 :
  related s1 s2 ->
  windowsWithin chunks digest2 contents s2 = true ->
  let r1 := feed digest1 Args JSON_stringify (List.map Content contents) s1 in
  let r2 := feed digest2 unit (fun _ => []) (List.map Content contents) s2 in
  fst r1 = fst r2 /\ related (snd r1) (snd r2).
Proof.
  revert s1 s2. induction contents as [|c contents IH]; intros s1 s2 Hrel Hw.
  - cbn. auto.
  - cbn [windowsWithin] in Hw. apply andb_true_iff in Hw.
    destruct Hw as [Hw Hrest].
    pose proof (addAndCheck_related Args JSON_stringify c s1 s2 Hrel Hw)
      as Hstep.
    cbn [List.map LoopDetection.feed].
    destruct (addAndCheck digest1 _ _ (Content c) s1) as [r1 s1'].
    destruct (addAndCheck digest2 _ _ (Content c) s2) as [r2 s2'].
    cbn [fst snd] in *. destruct Hstep as (<- & Hrel').
    specialize (IH s1' s2' Hrel' Hrest).
    destruct (LoopDetection.feed digest1 _ _ _ s1') as [rs1 t1].
    destruct (LoopDetection.feed digest2 _ _ _ s2') as [rs2 t2].
    cbn [fst snd] in *. destruct IH as (<- & Hfinal). auto.
Qed.

End Digest.

(** *** Chanting *)

Lemma plainDigest_free chunks : collisionFreeOn chunks plainDigest.
Proof. intros a b _ _ E. exact E. Qed.

Lemma sameBut_telemetry chunks digest1 digest2 s1 s2 :
  sameBut chunks digest1 digest2 s1 s2 -> telemetry s1 = telemetry s2.
Proof. intros (_ & -> & _). reflexivity. Qed.

(** Claim C2.  Take a service outside a code block and reset it; let the
    digest tell apart the 20-unit windows of the text fed.  The string
    [abcdefghijklmnopqrst] fed four times as content events is answered
    [false] three times and [true] the fourth time, and one telemetry
    event of type [CHANTING_IDENTICAL_SENTENCES] is logged; fed three
    times it is answered [false] each time and nothing is logged. *)
Theorem chanting_on_fourth_repetition
        (sha256 : jsstring -> jsstring) (Args : Type)
        (JSON_stringify : Args -> jsstring)
        (promptId : jsstring) (s0 : Service) :
  inCodeBlock s0 = false ->
  collisionFreeOn
    (windows (alphabet20 ++ alphabet20 ++ alphabet20 ++ alphabet20)) sha256 ->
  let s := reset promptId s0 in
  let four := feed sha256 Args JSON_stringify
                   (List.map Content (repeat alphabet20 4)) s in
  let three := feed sha256 Args JSON_stringify
                    (List.map Content (repeat alphabet20 3)) s in
  fst four = [false; false; false; true]
  /\ telemetry (snd four)
     = telemetry s0
       ++ [{| loop_type := CHANTING_IDENTICAL_SENTENCES;
              prompt_id := promptId |}]
  /\ fst three = [false; false; false]
  /\ telemetry (snd three) = telemetry s0.
Proof.
  intros Hcode Hfree s four three.
  set (chunks := windows (alphabet20 ++ alphabet20 ++ alphabet20 ++ alphabet20))
    in Hfree.
  assert (Hrel : sameBut chunks sha256 plainDigest s s).
  { split; [cbn; lia | split; [reflexivity | intros c _; reflexivity]]. }
  assert (H4 : windowsWithin chunks plainDigest (repeat alphabet20 4) s = true).
  { subst s. destruct s0. cbn in Hcode. subst. vm_compute. reflexivity. }
  assert (H3 : windowsWithin chunks plainDigest (repeat alphabet20 3) s = true).
  { subst s. destruct s0. cbn in Hcode. subst. vm_compute. reflexivity. }
  pose proof (feed_related sha256 plainDigest chunks Hfree
                (plainDigest_free chunks) Args JSON_stringify
                (repeat alphabet20 4) s s Hrel H4) as [E4 R4].
  pose proof (feed_related sha256 plainDigest chunks Hfree
                (plainDigest_free chunks) Args JSON_stringify
                (repeat alphabet20 3) s s Hrel H3) as [E3 R3].
  apply sameBut_telemetry in R4, R3.
  subst four three. rewrite E4, R4, E3, R3.
  clear Hrel H4 H3 E4 R4 E3 R3 Hfree.
  subst s. destruct s0. cbn in Hcode. subst.
  vm_compute. auto.
Qed.

(** SHA-256 on the vectors of FIPS 180-4 and on the chanted text. *)
Example sha256_abc :
  SHA256.hexDigest (lit "abc")
  = lit "ba7816bf8f01cfea414140de5dae2223b00361a396177a9cb410ff61f20015ad".
Proof. vm_compute. reflexivity. Qed.

Example sha256_empty :
  SHA256.hexDigest (lit "")
  = lit "e3b0c44298fc1c149afbf4c8996fb92427ae41e4649b934ca495991b7852b855".
Proof. vm_compute. reflexivity. Qed.

Example sha256_two_blocks :
  SHA256.hexDigest
    (lit "abcdbcdecdefdefgefghfghighijhijkijkljklmklmnlmnomnopnopq")
  = lit "248d6a61d20638b8e5c026930c3e6039a33ce45964ff2167f6ecedd419db06c1".
Proof. vm_compute. reflexivity. Qed.

Example sha256_alphabet20 :
  SHA256.hexDigest alphabet20
  = lit "dd65eea0329dcb94b17187af9dff28c31a1d78026737a16af75979a1fa4618e5".
Proof. vm_compute. reflexivity. Qed.

Lemma collisionFreeCheck_sound chunks digest :
  collisionFreeCheck chunks digest = true -> collisionFreeOn chunks digest.
Proof.
  unfold collisionFreeCheck. intros H a b Ha Hb E.
  rewrite forallb_forall in H.
  specialize (H (a, digest a)
                (List.in_map (fun c => (c, digest c)) chunks a Ha)).
  rewrite forallb_forall in H.
  specialize (H (b, digest b)
                (List.in_map (fun c => (c, digest c)) chunks b Hb)).
  cbn [fst snd] in H. rewrite (bool_decide_eq_true_2 _ E) in H.
  now apply bool_decide_eq_true in H.
Qed.

(** SHA-256 tells apart the windows of the chanted text. *)
Lemma sha256_free_on_alphabet :
  collisionFreeOn
    (windows (alphabet20 ++ alphabet20 ++ alphabet20 ++ alphabet20))
    SHA256.hexDigest.
Proof. apply collisionFreeCheck_sound. vm_compute. reflexivity. Qed.

Lemma chanting_on_fourth_repetition_witness :
  (inCodeBlock newService = false
   /\ collisionFreeOn
        (windows (alphabet20 ++ alphabet20 ++ alphabet20 ++ alphabet20))
        SHA256.hexDigest)
  /\ fst (feed SHA256.hexDigest jsstring serialized
               (List.map Content (repeat alphabet20 4))
               (reset (lit "prompt-1") newService))
     = [false; false; false; true].
Proof.
  assert (H1 : inCodeBlock newService = false) by reflexivity.
  assert (H2 : collisionFreeOn
                 (windows (alphabet20 ++ alphabet20 ++ alphabet20 ++ alphabet20))
                 SHA256.hexDigest)
    by (apply collisionFreeCheck_sound; vm_compute; reflexivity).
  split; [auto|].
  exact (proj1 (chanting_on_fourth_repetition SHA256.hexDigest jsstring
                  serialized (lit "prompt-1") newService H1 H2)).
Defined.

End LoopDetectionProps.

(** ** Concurrency manager *)

Module ConcurrencyProps.
Import Concurrency.

Lemma Qgtb_lt (x y : Q) : Qgtb x y = true <-> (y < x)%Q.
Proof.
  unfold Qgtb. rewrite negb_true_iff, <- not_true_iff_false, Qle_bool_iff.
  split; [apply Qnot_le_lt | intros H H'; exact (Qlt_not_le _ _ H H')].
Qed.

Lemma Qgtb_not_lt (x y : Q) : Qgtb x y = false <-> ~ (y < x)%Q.
Proof.
  rewrite <- Qgtb_lt. destruct (Qgtb x y); split; congruence.
Qed.


(** The two products under [Math.floor], in integers.  This is exact
    arithmetic: in binary64 the constant 0.7 lies slightly below 7/10, and
    where 7/10 of the maximum is an integer the rounded product can fall
    just short of it (90 * 0.7 is 62.99999999999999). *)
Lemma floor_half (m : Z) : Qfloor (inject_Z m * 0.5) = m / 2.
Proof.
  unfold Qfloor, Qmult, inject_Z. cbn.
  rewrite <- (Z.div_mul_cancel_r m 2 5) by lia. reflexivity.
Qed.

Lemma floor_seven_tenths (m : Z) : Qfloor (inject_Z m * 0.7) = 7 * m / 10.
Proof.
  unfold Qfloor, Qmult, inject_Z. cbn. f_equal. lia.
Qed.


(** *** The active set and the limits *)

Lemma effective_limit_bounds (s : Manager) :
  1 <= maxConcurrentRequests (config s) ->
  1 <= getEffectiveConcurrencyLimit s <= maxConcurrentRequests (config s).
Proof.
  intros Hm. unfold getEffectiveConcurrencyLimit.
  rewrite floor_half, floor_seven_tenths.
  destruct (adaptiveThrottling (config s)); cbn [negb]; [|lia].
  destruct (Qgtb _ 0.2); [|destruct (Qgtb _ 30000)].
  - pose proof (Z.div_le_upper_bound (maxConcurrentRequests (config s)) 2
                  (maxConcurrentRequests (config s))). lia.
  - pose proof (Z.div_le_upper_bound (7 * maxConcurrentRequests (config s)) 10
                  (maxConcurrentRequests (config s))). lia.
  - lia.
Qed.

Lemma size_remove (x : jsstring) (A : gset jsstring) :
  (size (A ∖ {[x]}) <= size A)%nat.
Proof.
  apply subseteq_size. intros y Hy.
  apply elem_of_difference in Hy. tauto.
Qed.

Lemma size_add (x : jsstring) (A : gset jsstring) :
  (size ({[x]} ∪ A) <= S (size A))%nat.
Proof.
  rewrite size_union_alt, size_singleton.
  pose proof (size_remove x A). lia.
Qed.

(** Starting a request changes neither the configuration nor the two
    averages, hence not the effective limit. *)
Lemma activate_limit now item s :
  getEffectiveConcurrencyLimit (activate now item s)
  = getEffectiveConcurrencyLimit s.
Proof. reflexivity. Qed.

(** The dispatcher starts a request only below the effective limit. *)
Lemma processQueueFrom_size now queue s :
  Z.of_nat (size (activeRequests (processQueueFrom now queue s)))
  <= Z.max (Z.of_nat (size (activeRequests s)))
           (getEffectiveConcurrencyLimit s).
Proof.
  revert s. induction queue as [|item rest IH]; intros s.
  - cbn. lia.
  - cbn [processQueueFrom].
    destruct (_ <? getEffectiveConcurrencyLimit s) eqn:E; [|cbn; lia].
    apply Z.ltb_lt in E. specialize (IH (activate now item s)).
    rewrite activate_limit in IH.
    pose proof (size_add (id item) (activeRequests s)) as Hadd.
    change (activeRequests (activate now item s))
      with ({[id item]} ∪ activeRequests s) in IH.
    lia.
Qed.

Lemma processQueueFrom_config now queue s :
  config (processQueueFrom now queue s) = config s.
Proof.
  revert s. induction queue as [|item rest IH]; intros s; [reflexivity|].
  cbn [processQueueFrom]. destruct (_ <? _); [|reflexivity].
  now rewrite IH.
Qed.

Lemma processQueue_within now s :
  withinMaximum s -> withinMaximum (processQueue now s).
Proof.
  intros [Hm Hs]. unfold withinMaximum, processQueue.
  rewrite processQueueFrom_config. split; [exact Hm|].
  pose proof (processQueueFrom_size now (requestQueue s) s).
  pose proof (effective_limit_bounds s Hm). lia.
Qed.

Lemma removeActiveRequest_within requestId s :
  withinMaximum s -> withinMaximum (removeActiveRequest requestId s).
Proof.
  intros [Hm Hs]. split; [exact Hm|]. cbn.
  pose proof (size_remove requestId (activeRequests s)). lia.
Qed.

Lemma item_reject_within now item error s :
  withinMaximum s -> withinMaximum (item_reject now item error s).
Proof.
  intros H. apply processQueue_within.
  apply (removeActiveRequest_within (id item)) in H.
  destruct H as [Hm Hs]. unfold settle.
  destruct (_ !! _) as [[]|]; split; assumption.
Qed.

Lemma item_resolve_within now item s :
  withinMaximum s -> withinMaximum (item_resolve now item s).
Proof.
  intros H. apply processQueue_within.
  apply (removeActiveRequest_within (id item)) in H.
  destruct H as [Hm Hs]. unfold settle.
  destruct (_ !! _) as [[]|]; split; assumption.
Qed.

Lemma item_reject_config now item error s :
  config (item_reject now item error s) = config s.
Proof.
  unfold item_reject, processQueue. rewrite processQueueFrom_config.
  unfold settle. destruct (_ !! _) as [[]|]; reflexivity.
Qed.

Lemma item_resolve_config now item s :
  config (item_resolve now item s) = config s.
Proof.
  unfold item_resolve, processQueue. rewrite processQueueFrom_config.
  unfold settle. destruct (_ !! _) as [[]|]; reflexivity.
Qed.

Lemma clearQueueFrom_within now k remaining s :
  withinMaximum s -> withinMaximum (clearQueueFrom now k remaining s).
Proof.
  revert k s. induction remaining as [|remaining IH]; intros k s H;
    [exact H|].
  cbn [clearQueueFrom]. destruct (requestQueue s !! k); [|now apply IH].
  apply IH. now apply item_reject_within.
Qed.

Lemma clearQueueFrom_config now k remaining s :
  config (clearQueueFrom now k remaining s) = config s.
Proof.
  revert k s. induction remaining as [|remaining IH]; intros k s;
    [reflexivity|].
  cbn [clearQueueFrom]. destruct (requestQueue s !! k); [|now apply IH].
  now rewrite IH, item_reject_config.
Qed.

(** Every event other than [UpdateConfig] leaves the configuration alone
    and keeps the active set within the maximum. *)
Lemma step_within e s :
  (forall newConfig, e <> UpdateConfig newConfig) ->
  config (step e s) = config s
  /\ (withinMaximum s -> withinMaximum (step e s)).
Proof.
  intros Hne. destruct e as [now requestId | now t | now t message | now t
                            | now t | newConfig | now]; cbn [step].
  - unfold executeRequest, processQueue.
    rewrite processQueueFrom_config. split; [reflexivity|].
    intros H. apply processQueue_within. exact H.
  - unfold onWorkDone. destruct (requests s !! t); [|auto].
    destruct (bool_decide _); [|auto].
    rewrite item_resolve_config. split; [reflexivity|].
    intros H. apply item_resolve_within. exact H.
  - unfold onWorkDone. destruct (requests s !! t); [|auto].
    destruct (bool_decide _); [|auto].
    rewrite item_reject_config. split; [reflexivity|].
    intros H. apply item_reject_within. exact H.
  - unfold onQueueTimeout. destruct (requests s !! t); [|auto].
    destruct (bool_decide _); [|auto].
    rewrite item_reject_config. split; [reflexivity|].
    intros H. apply item_reject_within. exact H.
  - unfold onAbort. destruct (requests s !! t); [|auto].
    rewrite item_reject_config. split; [reflexivity|].
    intros H. apply item_reject_within.
    apply (removeActiveRequest_within (id r)). exact H.
  - now destruct (Hne newConfig).
  - unfold clearQueue. cbn [config set_requestQueue].
    rewrite clearQueueFrom_config. split; [reflexivity|].
    intros H. apply (clearQueueFrom_within now 0 (length (requestQueue s))) in H.
    exact H.
Qed.

Lemma run_within events s :
  withinMaximum s ->
  neverLowered (maxConcurrentRequests (config s)) events ->
  withinMaximum (run events s).
Proof.
  revert s. induction events as [|e events IH]; intros s Hs Hev; [exact Hs|].
  cbn [run fold_left].
  assert (Hcase : (exists newConfig, e = UpdateConfig newConfig)
                  \/ (forall newConfig, e <> UpdateConfig newConfig))
    by (destruct e; eauto; right; discriminate).
  destruct Hcase as [[newConfig ->] | Hne].
  - cbn in Hev. destruct Hev as [Hle Hrest]. destruct Hs as [Hm Hsz].
    apply IH; [split; cbn; lia | exact Hrest].
  - destruct (step_within e s Hne) as [Hc Hw].
    apply IH; [auto|]. rewrite Hc.
    destruct e; try exact Hev. now destruct (Hne newConfig).
Qed.




(** *** Clearing the queue *)

(** Claim C8, where the code departs from it.  [blocking] holds the only slot
    and three requests wait; the maximum is raised to three and the queue
    is cleared.  [clearQueue] rejects [queued0] through its own [reject],
    which calls [processQueue]: two slots are free, so [queued0] and
    [queued1] are started.  [forEach] then finds nothing at indices 1 and
    2 of the shortened array, and [queued2] is dropped with the queue.  In
    the end only the promise of [queued0] is rejected, the work of
    [queued0] and [queued1] is running, and the promise of [queued2] is
    left pending with its queue timeout still armed. *)
Theorem clearQueue_starts_and_drops :
  requestQueue afterClearAfterRaise = []
  /\ promises afterClearAfterRaise
     = [Pending; Rejected QueueCleared; Pending; Pending]
  /\ (forall t, t ∈ running afterClearAfterRaise
                <-> t = 0 \/ t = 1 \/ t = 2)%nat
  /\ (forall x, x ∈ activeRequests afterClearAfterRaise
                <-> x = lit "blocking" \/ x = lit "queued0"
                    \/ x = lit "queued1")
  /\ (forall t, t ∈ timers afterClearAfterRaise <-> t = 3%nat).
Proof.
  assert (Hr : running afterClearAfterRaise = {[0; 1; 2]}%nat)
    by (vm_compute; reflexivity).
  assert (Ha : activeRequests afterClearAfterRaise
               = {[lit "blocking"; lit "queued0"; lit "queued1"]})
    by (vm_compute; reflexivity).
  assert (Ht : timers afterClearAfterRaise = {[3%nat]})
    by (vm_compute; reflexivity).
  split; [reflexivity|]. split; [reflexivity|].
  rewrite Hr, Ha, Ht.
  split; [|split]; intros x;
    rewrite ?elem_of_union, ?elem_of_singleton; tauto.
Qed.

(** **** When no slot is free *)

Lemma recordError_limit (s : Manager) :
  limitCannotRise s ->
  getEffectiveConcurrencyLimit (recordError s) <= getEffectiveConcurrencyLimit s.
Proof.
  intros Hrise. unfold getEffectiveConcurrencyLimit, recordError,
    updatePerformanceMetrics.
  cbn [config performanceMetrics set_performanceMetrics errorRate
       averageResponseTime negb andb].
  destruct (adaptiveThrottling (config s)) eqn:Ead; cbn [negb]; [|lia].
  destruct Hrise as [Hoff | Hm]; [congruence|].
  rewrite floor_half, floor_seven_tenths.
  set (m := maxConcurrentRequests (config s)) in *.
  set (err := errorRate (performanceMetrics s)).
  assert (Hhalf : Z.max 1 (m / 2) <= Z.max 1 (7 * m / 10)).
  { pose proof (Z.div_le_mono (5 * m) (7 * m) 10 ltac:(lia) ltac:(lia)).
    replace (5 * m / 10) with (m / 2) in H
      by (rewrite <- (Z.div_mul_cancel_l m 2 5) by lia; reflexivity).
    lia. }
  assert (Hm2 : Z.max 1 (m / 2) <= m).
  { pose proof (Z.div_le_upper_bound m 2 m). lia. }
  destruct (Qgtb err 0.2) eqn:E.
  - assert (E' : Qgtb (err * (1 - 1 / 20) + 1 / 20) 0.2 = true).
    { apply Qgtb_lt. apply Qgtb_lt in E.
      unfold Qlt, Qmult, Qplus, Qminus, Qopp, Qdiv, Qinv in *. cbn in *. lia. }
    rewrite E'. lia.
  - destruct (Qgtb (err * (1 - 1 / 20) + 1 / 20) 0.2);
      destruct (Qgtb (averageResponseTime (performanceMetrics s)) 30000); lia.
Qed.

Lemma set_requestQueue_same (s : Manager) :
  set_requestQueue (requestQueue s) s = s.
Proof. now destruct s. Qed.

Lemma processQueue_full now s : noFreeSlot s -> processQueue now s = s.
Proof.
  unfold noFreeSlot, processQueue. intros Hfull.
  destruct (requestQueue s) as [|item rest] eqn:Hq; cbn [processQueueFrom].
  - rewrite <- Hq. apply set_requestQueue_same.
  - destruct (_ <? getEffectiveConcurrencyLimit s) eqn:E;
      [apply Z.ltb_lt in E; lia|].
    rewrite <- Hq. apply set_requestQueue_same.
Qed.

Lemma remove_absent (x : jsstring) (A : gset jsstring) :
  x ∉ A -> A ∖ {[x]} = A.
Proof.
  intros Hx. apply set_eq. intros y.
  rewrite elem_of_difference, elem_of_singleton.
  split; [tauto | intros Hy; split; [exact Hy | congruence]].
Qed.

Lemma removeActiveRequest_absent requestId s :
  requestId ∉ activeRequests s -> removeActiveRequest requestId s = s.
Proof.
  intros Hx. unfold removeActiveRequest. rewrite (remove_absent _ _ Hx).
  now destruct s.
Qed.

Lemma rejectOnly_frame error s item :
  activeRequests (rejectOnly error s item) = activeRequests s
  /\ requestQueue (rejectOnly error s item) = requestQueue s
  /\ config (rejectOnly error s item) = config s
  /\ running (rejectOnly error s item) = running s
  /\ timers (rejectOnly error s item) = timers s
  /\ getEffectiveConcurrencyLimit (rejectOnly error s item)
     = getEffectiveConcurrencyLimit (recordError s).
Proof.
  unfold rejectOnly, settle.
  destruct (promises (recordError s) !! ticket item) as [[]|]; auto 10.
Qed.

(** With no slot free and an id that is not active, rejecting an item only
    records the error and settles the promise. *)
Lemma item_reject_full now item error s :
  noFreeSlot s -> limitCannotRise s -> id item ∉ activeRequests s ->
  item_reject now item error s = rejectOnly error s item.
Proof.
  intros Hfull Hrise Hid. unfold item_reject.
  rewrite (removeActiveRequest_absent _ _ Hid).
  apply processQueue_full. unfold noFreeSlot.
  destruct (rejectOnly_frame error s item) as (Ha & _ & _ & _ & _ & Hl).
  fold (rejectOnly error s item). rewrite Ha, Hl.
  pose proof (recordError_limit s Hrise). unfold noFreeSlot in Hfull. lia.
Qed.

Lemma rejectOnly_keeps error s item :
  noFreeSlot s -> limitCannotRise s -> queuedNotActive s ->
  noFreeSlot (rejectOnly error s item)
  /\ limitCannotRise (rejectOnly error s item)
  /\ queuedNotActive (rejectOnly error s item).
Proof.
  intros Hfull Hrise Hq.
  destruct (rejectOnly_frame error s item) as (Ha & Hqu & Hc & _ & _ & Hl).
  unfold noFreeSlot, limitCannotRise, queuedNotActive.
  rewrite Ha, Hqu, Hc, Hl. repeat split; auto.
  pose proof (recordError_limit s Hrise). unfold noFreeSlot in Hfull. lia.
Qed.

(** Under these conditions the loop of [clearQueue] visits the items of
    the queue one after the other. *)
Lemma clearQueueFrom_full now remaining k s :
  noFreeSlot s -> limitCannotRise s -> queuedNotActive s ->
  clearQueueFrom now k remaining s
  = fold_left (rejectOnly QueueCleared)
              (take remaining (drop k (requestQueue s))) s.
Proof.
  revert k s. induction remaining as [|remaining IH]; intros k s Hfull Hrise Hq;
    [reflexivity|].
  cbn [clearQueueFrom].
  destruct (requestQueue s !! k) as [item|] eqn:Hk.
  - assert (Hin : In item (requestQueue s)).
    { apply list_elem_of_In, list_elem_of_lookup. eauto. }
    rewrite (item_reject_full now item QueueCleared s Hfull Hrise (Hq item Hin)).
    destruct (rejectOnly_keeps QueueCleared s item Hfull Hrise Hq)
      as (Hfull' & Hrise' & Hq').
    rewrite (IH (S k) _ Hfull' Hrise' Hq').
    destruct (rejectOnly_frame QueueCleared s item) as (_ & -> & _).
    rewrite (drop_S _ _ _ Hk). reflexivity.
  - rewrite (IH (S k) s Hfull Hrise Hq).
    apply lookup_ge_None in Hk.
    rewrite !drop_ge by lia. now rewrite !take_nil.
Qed.

Lemma rejectOnly_promises error s item t :
  promises (rejectOnly error s item) !! t
  = if decide (t = ticket item)
    then match promises s !! t with
         | Some Pending => Some (Rejected error)
         | p => p
         end
    else promises s !! t.
Proof.
  unfold rejectOnly, settle.
  change (promises (recordError s)) with (promises s).
  destruct (promises s !! ticket item) as [[]|] eqn:Hl;
    cbn [promises set_promises];
    change (promises (recordError s)) with (promises s);
    destruct (decide (t = ticket item)) as [->|Hne];
    rewrite ?Hl; try reflexivity.
  - apply list_lookup_insert_eq. now apply lookup_lt_Some in Hl.
  - apply list_lookup_insert_ne. congruence.
Qed.

Lemma rejectAll_frame items s :
  let s' := fold_left (rejectOnly QueueCleared) items s in
  activeRequests s' = activeRequests s
  /\ running s' = running s
  /\ timers s' = timers s.
Proof.
  revert s. induction items as [|item items IH]; intros s; cbn [fold_left];
    [auto|].
  destruct (rejectOnly_frame QueueCleared s item) as (Ha & _ & _ & Hr & Ht & _).
  destruct (IH (rejectOnly QueueCleared s item)) as (Ha' & Hr' & Ht').
  cbv zeta. repeat split; congruence.
Qed.

(** A promise that is settled stays as it is. *)
Lemma rejectAll_settled items s t p :
  promises s !! t = Some p -> p <> Pending ->
  promises (fold_left (rejectOnly QueueCleared) items s) !! t = Some p.
Proof.
  revert s. induction items as [|item items IH]; intros s Hp Hne;
    cbn [fold_left]; [exact Hp|].
  apply IH; [|exact Hne].
  rewrite rejectOnly_promises. destruct (decide _); [|exact Hp].
  rewrite Hp. now destruct p.
Qed.

(** The promise of a request that is not in the list is not touched. *)
Lemma rejectAll_others items s t :
  (forall item, In item items -> ticket item <> t) ->
  promises (fold_left (rejectOnly QueueCleared) items s) !! t = promises s !! t.
Proof.
  revert s. induction items as [|item items IH]; intros s Ht;
    cbn [fold_left]; [reflexivity|].
  rewrite IH by (intros i Hi; apply Ht; now right).
  rewrite rejectOnly_promises. destruct (decide _) as [->|]; [|reflexivity].
  now destruct (Ht item (or_introl eq_refl)).
Qed.

(** The pending promise of a request in the list is rejected. *)
Lemma rejectAll_rejects items s item :
  In item items -> promises s !! ticket item = Some Pending ->
  promises (fold_left (rejectOnly QueueCleared) items s) !! ticket item
  = Some (Rejected QueueCleared).
Proof.
  revert s. induction items as [|item0 items IH]; intros s Hin Hp; [destruct Hin|].
  cbn [fold_left].
  destruct (decide (ticket item = ticket item0)) as [E|Hne].
  - apply rejectAll_settled; [|discriminate].
    rewrite rejectOnly_promises, decide_True by exact E. now rewrite Hp.
  - destruct Hin as [-> | Hin]; [congruence|].
    apply IH; [exact Hin|].
    rewrite rejectOnly_promises, decide_False by exact Hne. exact Hp.
Qed.

(** When no slot is free, no queued id is active and errors cannot raise
    the limit, [clearQueue] does what its name says: the queue is left
    empty, the pending promise of every queued request is rejected with
    [QueueCleared], no other promise changes, and the active set, the
    running work and the timers are as before. *)
Lemma clearQueue_full now s :
  noFreeSlot s -> limitCannotRise s -> queuedNotActive s ->
  let s' := clearQueue now s in
  requestQueue s' = []
  /\ activeRequests s' = activeRequests s
  /\ running s' = running s
  /\ (forall item, In item (requestQueue s) ->
           promises s !! ticket item = Some Pending ->
           promises s' !! ticket item = Some (Rejected QueueCleared))
  /\ (forall t, (forall item, In item (requestQueue s) -> ticket item <> t) ->
           promises s' !! t = promises s !! t).
Proof.
  intros Hfull Hrise Hq. unfold clearQueue. cbv zeta.
  rewrite (clearQueueFrom_full now _ 0 s Hfull Hrise Hq).
  rewrite drop_0, firstn_all.
  cbn [requestQueue activeRequests running promises set_requestQueue].
  destruct (rejectAll_frame (requestQueue s) s) as (Ha & Hr & _).
  split; [reflexivity|]. split; [exact Ha|]. split; [exact Hr|]. split.
  - intros item Hin Hp. now apply rejectAll_rejects.
  - intros t Ht. now apply rejectAll_others.
Qed.

(** With every slot taken, as in the test of queue clearing, the same call
    rejects the three queued requests with the error whose message is
    [Request queue cleared], and starts none. *)
Lemma clearQueue_while_full :
  requestQueue afterClearWhileFull = []
  /\ promises afterClearWhileFull
     = [Pending; Rejected QueueCleared; Rejected QueueCleared;
        Rejected QueueCleared]
  /\ errorMessage QueueCleared = lit "Request queue cleared"
  /\ (forall t, t ∈ running afterClearWhileFull <-> t = 0%nat).
Proof.
  assert (Hr : running afterClearWhileFull = {[0%nat]})
    by (vm_compute; reflexivity).
  split; [reflexivity|]. split; [reflexivity|]. split; [reflexivity|].
  rewrite Hr. intros t. now rewrite elem_of_singleton.
Qed.

End ConcurrencyProps.

(** ** The utilities for local models *)

Module LocalModelProps.
Import LocalModelUtils.












Lemma startsWith_app_r p s t :
  startsWith p s = true -> startsWith p (s ++ t) = true.
Proof.
  revert s; induction p as [|a p IH]; intros [|b s]; simpl; try done.
  intros [-> H]%andb_true_iff. rewrite (IH _ H). reflexivity.
Qed.

Lemma includes_app_r p s t :
  includes p s = true -> includes p (s ++ t) = true.
Proof.
  induction s as [|b s IH].
  - destruct p; simpl; [|done]. intros _. destruct t; reflexivity.
  - intros H. change (startsWith p (b :: s) || includes p s = true) in H.
    change (startsWith p ((b :: s) ++ t) || includes p (s ++ t) = true).
    apply orb_true_iff in H as [H|H].
    + rewrite (startsWith_app_r _ _ _ H). reflexivity.
    + rewrite (IH H). apply orb_true_r.
Qed.

Lemma includes_app_l p s t :
  includes p s = true -> includes p (t ++ s) = true.
Proof.
  intros H. induction t as [|b t IH]; [exact H|].
  change (startsWith p (b :: t ++ s) || includes p (t ++ s) = true).
  rewrite IH. apply orb_true_r.
Qed.

Lemma includes_embedded p s before after :
  includes p s = true -> includes p (before ++ s ++ after) = true.
Proof. intros H. apply includes_app_l, includes_app_r, H. Qed.

Lemma toLowerCase_app s t :
  toLowerCase (s ++ t) = toLowerCase s ++ toLowerCase t.
Proof. apply map_app. Qed.

Lemma existsb_includes_embedded patterns s before after :
  existsb (fun pattern => includes pattern (toLowerCase s)) patterns = true ->
  existsb (fun pattern =>
             includes pattern (toLowerCase (before ++ s ++ after)))
          patterns = true.
Proof.
  rewrite !existsb_exists. intros (p & Hp & H). exists p. split; [exact Hp|].
  rewrite !toLowerCase_app. apply includes_embedded, H.
Qed.





(** Property X3.  The compression threshold never grows with the heap in
    use, and a local model always compresses earlier than a cloud model. *)
Theorem compression_threshold_monotone (isLocal : bool)
        (usage1 usage2 : MemoryUsage) :
  heapUsed usage1 <= heapUsed usage2 ->
  (getCompressionThreshold isLocal usage2
   <= getCompressionThreshold isLocal usage1)%Q
  /\ (getCompressionThreshold true usage1
      < getCompressionThreshold false usage2)%Q.
Proof.
  intros H. unfold getCompressionThreshold.
  destruct isLocal; simpl;
    destruct (2000000000 <? heapUsed usage1) eqn:E1;
    destruct (1000000000 <? heapUsed usage1) eqn:E2;
    destruct (2000000000 <? heapUsed usage2) eqn:E3;
    destruct (1000000000 <? heapUsed usage2) eqn:E4;
    try (apply Z.ltb_lt in E1); try (apply Z.ltb_ge in E1);
    try (apply Z.ltb_lt in E2); try (apply Z.ltb_ge in E2);
    try (apply Z.ltb_lt in E3); try (apply Z.ltb_ge in E3);
    try (apply Z.ltb_lt in E4); try (apply Z.ltb_ge in E4);
    try lia; split; reflexivity || (intro; discriminate) || (compute; congruence).
Qed.

Lemma compression_threshold_monotone_witness :
  heapUsed quietUsage <= heapUsed busyUsage
  /\ (getCompressionThreshold true busyUsage
      <= getCompressionThreshold true quietUsage)%Q
  /\ (getCompressionThreshold true quietUsage
      < getCompressionThreshold false busyUsage)%Q.
Proof.
  split; [vm_compute; discriminate|].
  apply (compression_threshold_monotone true quietUsage busyUsage).
  vm_compute; discriminate.
Defined.

Lemma length_fold_keep (history : list Q) (t : Q) :
  (length history <= 100)%nat ->
  (if 100 <? Z.of_nat (length (history ++ [t]))
   then drop 1 (history ++ [t]) else history ++ [t])
  = lastN 100 (history ++ [t]).
Proof.
  intros H. unfold lastN. rewrite length_app; simpl.
  destruct (100 <? _) eqn:E.
  - apply Z.ltb_lt in E. replace (length history + 1 - 100)%nat with 1%nat by lia.
    reflexivity.
  - apply Z.ltb_ge in E. replace (length history + 1 - 100)%nat with 0%nat by lia.
    reflexivity.
Qed.

Lemma lastN_length {A} n (l : list A) : (length (lastN n l) <= n)%nat.
Proof. unfold lastN. rewrite length_drop. lia. Qed.

Lemma lastN_snoc {A} n (l : list A) (x : A) :
  lastN (S n) (lastN (S n) l ++ [x]) = lastN (S n) (l ++ [x]).
Proof.
  unfold lastN. rewrite !length_app, !length_drop; simpl.
  destruct (decide (length l <= S n)%nat) as [Hle|Hgt].
  - replace (length l - S n)%nat with 0%nat by lia. simpl.
    rewrite Nat.sub_0_r. reflexivity.
  - rewrite <- drop_app_le by lia.
    rewrite drop_drop. f_equal. lia.
Qed.

Lemma monitor_history_from (calls : list MonitorCall) (m : LocalModelMonitor)
      (seen : list Q) :
  responseTimeHistory m = lastN 100 seen ->
  responseTimeHistory (fold_left monitorStep calls m)
  = lastN 100 (seen ++ timesOf calls).
Proof.
  revert m seen. induction calls as [|c calls IH]; intros m seen Hm.
  - simpl. rewrite app_nil_r. exact Hm.
  - simpl. destruct c as [t| |]; simpl.
    + replace (seen ++ t :: timesOf calls) with ((seen ++ [t]) ++ timesOf calls)
        by (rewrite <- app_assoc; reflexivity).
      apply IH. unfold recordResponseTime; simpl.
      rewrite length_fold_keep by (rewrite Hm; apply lastN_length).
      rewrite Hm. apply lastN_snoc.
    + apply IH. exact Hm.
    + apply IH. exact Hm.
Qed.

(** Property X4.  After any sequence of calls on a new monitor, the history
    holds the last 100 response times recorded, in the order they came:
    never more than 100 of them. *)
Theorem monitor_keeps_last_hundred (calls : list MonitorCall) :
  responseTimeHistory (fold_left monitorStep calls newMonitor)
  = lastN 100 (timesOf calls)
  /\ (length (responseTimeHistory (fold_left monitorStep calls newMonitor))
      <= 100)%nat.
Proof.
  assert (H := monitor_history_from calls newMonitor [] eq_refl).
  simpl in H. split; [exact H|]. rewrite H. apply lastN_length.
Qed.

(** Property X5.  An error that is recognised as a local-model error stays
    one when its text is embedded in a longer one. *)
Theorem local_error_survives_wrapping (text before after : jsstring) :
  isLocalModelError (OtherValue text) = true ->
  isLocalModelError (OtherValue (before ++ text ++ after)) = true
  /\ forall name,
       isLocalModelError (ErrorObject name (before ++ text ++ after)) = true.
Proof.
  unfold isLocalModelError, String_of. intros H.
  split; [|intros _];
    apply (existsb_includes_embedded localModelErrorPatterns), H.
Qed.

Lemma local_error_survives_wrapping_witness :
  isLocalModelError (OtherValue (lit "ECONNREFUSED")) = true
  /\ isLocalModelError
       (OtherValue (lit "connect " ++ lit "ECONNREFUSED" ++ lit " 10.1.2.3:80"))
     = true.
Proof.
  split; [vm_compute; reflexivity|].
  apply (local_error_survives_wrapping (lit "ECONNREFUSED") (lit "connect ")
           (lit " 10.1.2.3:80")).
  vm_compute; reflexivity.
Defined.

(** Property X6.  A URL that is classified as local stays local when it is
    embedded in a longer one (a scheme in front, a path behind), whatever
    the model and the environment. *)
Theorem local_url_survives_extension (env env' model model' : option jsstring)
        (c : N) (url before after : jsstring) :
  isLocalModel env (Some (c :: url)) None = true ->
  isLocalModel env' (Some (before ++ (c :: url) ++ after)) model' = true.
Proof.
  unfold isLocalModel. rewrite orb_false_r. intros H.
  apply orb_true_iff; left.
  assert (E : orElse (Some (before ++ (c :: url) ++ after)) (orElse env' [])
              = before ++ (c :: url) ++ after).
  { destruct before; reflexivity. }
  rewrite E. apply existsb_includes_embedded. exact H.
Qed.

Lemma local_url_survives_extension_witness :
  isLocalModel None (Some (lit "localhost:1234")) None = true
  /\ isLocalModel (Some (lit "https://api.openai.com"))
       (Some (lit "http://" ++ lit "localhost:1234" ++ lit "/v1"))
       (Some (lit "gpt-4")) = true.
Proof.
  split; [vm_compute; reflexivity|].
  apply (local_url_survives_extension None (Some (lit "https://api.openai.com"))
           None (Some (lit "gpt-4")) 108%N (lit "ocalhost:1234")
           (lit "http://") (lit "/v1")).
  vm_compute; reflexivity.
Defined.

Lemma permanent_is_local (text : jsstring) :
  permanentFailure text = true ->
  existsb (fun pattern => includes pattern (toLowerCase text))
          localModelErrorPatterns = true.
Proof.
  unfold permanentFailure. rewrite !existsb_exists.
  intros (p & Hp & H). exists p. split; [|exact H].
  simpl in Hp. unfold localModelErrorPatterns. simpl.
  tauto.
Qed.

Lemma permanent_embedded (text before after : jsstring) :
  permanentFailure text = true ->
  permanentFailure (before ++ text ++ after) = true.
Proof. apply existsb_includes_embedded. Qed.

(** Property X7.  An error whose text names a permanent failure (out of
    memory, model not found, context length exceeded) is never retried,
    whether it is an [Error] of any name or another value. *)
Theorem permanent_failure_not_retried (error : Thrown) :
  permanentFailure (inspectedText error) = true ->
  isLocalModelError error = true
  /\ shouldRetry getLocalModelRetryConfig error = false.
Proof.
  intros H.
  assert (L : isLocalModelError error = true).
  { destruct error; apply permanent_is_local, H. }
  split; [exact L|]. simpl. rewrite L.
  assert (P : permanentFailure (String_of error) = true).
  { destruct error as [name message|text]; simpl in *; [|exact H].
    destruct name as [|n name]; [exact H|].
    destruct message as [|m message]; [discriminate H|].
    pose proof (permanent_embedded (m :: message) ((n :: name) ++ lit ": ")
                  [] H) as P.
    rewrite app_nil_r, <- app_assoc in P. exact P. }
  unfold permanentFailure in P. simpl in P.
  rewrite orb_false_r in P. rewrite <- orb_assoc. rewrite P. reflexivity.
Qed.

Lemma permanent_failure_not_retried_witness :
  permanentFailure (inspectedText cudaFailure) = true
  /\ isLocalModelError cudaFailure = true
  /\ shouldRetry getLocalModelRetryConfig cudaFailure = false.
Proof.
  split; [vm_compute; reflexivity|].
  apply (permanent_failure_not_retried cudaFailure).
  vm_compute; reflexivity.
Defined.

End LocalModelProps.

(** ** The dispatcher of the concurrency manager *)

Module DispatcherProps.
Import Concurrency ConcurrencyProps.

Lemma processQueueFrom_prefix now queue s :
  exists k,
    let s' := processQueueFrom now queue s in
    (k <= length queue)%nat
    /\ requestQueue s' = drop k queue
    /\ running s' = ticketsOf (take k queue) ∪ running s
    /\ activeRequests s' = idsOf (take k queue) ∪ activeRequests s
    /\ timers s' = timers s ∖ ticketsOf (take k queue)
    /\ promises s' = promises s
    /\ requests s' = requests s
    /\ config s' = config s
    /\ (k = length queue \/ noFreeSlot s').
Proof.
  revert s. induction queue as [|item rest IH]; intros s.
  - exists 0%nat. cbn. unfold ticketsOf, idsOf. cbn.
    repeat split; try reflexivity; try lia; set_unfold; tauto.
  - cbn [processQueueFrom].
    destruct (_ <? getEffectiveConcurrencyLimit s) eqn:E.
    + destruct (IH (activate now item s))
        as (k & Hk & Hq & Hr & Ha & Ht & Hp & Hrq & Hc & Hstop).
      exists (S k). cbn zeta in *. rewrite Hq, Hr, Ha, Ht, Hp, Hrq, Hc.
      cbn [take drop length]. unfold ticketsOf, idsOf.
      cbn [List.map list_to_set].
      cbn [fmap list_fmap list_to_set].
      split; [lia|]. split; [reflexivity|].
      split; [cbn; set_unfold; tauto|].
      split; [cbn; set_unfold; tauto|].
      split; [cbn; set_unfold; tauto|].
      split; [reflexivity|]. split; [reflexivity|]. split; [reflexivity|].
      destruct Hstop as [->|Hfull]; [left; reflexivity|right; exact Hfull].
    + exists 0%nat. cbn. unfold ticketsOf, idsOf. cbn.
      split; [lia|]. split; [reflexivity|].
      split; [set_unfold; tauto|].
      split; [set_unfold; tauto|].
      split; [set_unfold; tauto|].
      split; [reflexivity|]. split; [reflexivity|]. split; [reflexivity|].
      right. unfold noFreeSlot. apply Z.ltb_ge in E. exact E.
Qed.

(** Property X8.  The dispatcher starts the requests at the head of the
    queue, in the order of the queue, and leaves the rest waiting; it stops
    only when the queue is empty or no slot is free, and settles no promise.
    *)
Theorem processQueue_fifo (now : Z) (s : Manager) :
  exists k,
    let s' := processQueue now s in
    (k <= length (requestQueue s))%nat
    /\ requestQueue s' = drop k (requestQueue s)
    /\ running s' = ticketsOf (take k (requestQueue s)) ∪ running s
    /\ activeRequests s' = idsOf (take k (requestQueue s)) ∪ activeRequests s
    /\ promises s' = promises s
    /\ (requestQueue s' = [] \/ noFreeSlot s').
Proof.
  destruct (processQueueFrom_prefix now (requestQueue s) s)
    as (k & Hk & Hq & Hr & Ha & Ht & Hp & Hrq & Hc & Hstop).
  exists k. cbn zeta in *. unfold processQueue.
  repeat (split; [assumption|]).
  destruct Hstop as [->|Hfull]; [left|right; exact Hfull].
  rewrite Hq. apply drop_all.
Qed.

Lemma processQueue_conserving now s : workConserving (processQueue now s).
Proof.
  destruct (processQueueFrom_prefix now (requestQueue s) s)
    as (k & Hk & Hq & _ & _ & _ & _ & _ & _ & Hstop).
  cbn zeta in *. unfold workConserving, processQueue.
  destruct Hstop as [->|Hfull]; [left|right; exact Hfull].
  rewrite Hq. apply drop_all.
Qed.

Lemma step_conserving e s :
  (forall newConfig, e <> UpdateConfig newConfig) ->
  workConserving s -> workConserving (step e s).
Proof.
  intros Hne Hs.
  destruct e as [now requestId | now t | now t message | now t
                | now t | newConfig | now]; cbn [step].
  - apply processQueue_conserving.
  - unfold onWorkDone. destruct (requests s !! t); [|exact Hs].
    destruct (bool_decide _); [|exact Hs]. apply processQueue_conserving.
  - unfold onWorkDone. destruct (requests s !! t); [|exact Hs].
    destruct (bool_decide _); [|exact Hs]. apply processQueue_conserving.
  - unfold onQueueTimeout. destruct (requests s !! t); [|exact Hs].
    destruct (bool_decide _); [|exact Hs]. apply processQueue_conserving.
  - unfold onAbort. destruct (requests s !! t); [|exact Hs].
    apply processQueue_conserving.
  - now destruct (Hne newConfig).
  - left. reflexivity.
Qed.

Lemma run_conserving events s :
  configUntouched events -> workConserving s -> workConserving (run events s).
Proof.
  revert s. induction events as [|e events IH]; intros s Hev Hs; [exact Hs|].
  apply Forall_cons in Hev as [He Hev]. cbn [run fold_left].
  apply IH; [exact Hev|]. apply step_conserving; assumption.
Qed.

(** Property X9.  As long as [updateConfig] is not called, no request waits
    while a slot is free: after every event the queue is empty or as many
    requests are active as the effective limit allows. *)
Theorem no_idle_slot_while_queued (cfg : ConcurrencyConfig)
        (events : list Event) :
  configUntouched events ->
  let s := run events (newManager cfg) in
  requestQueue s = []
  \/ getEffectiveConcurrencyLimit s <= Z.of_nat (size (activeRequests s)).
Proof.
  intros Hev. apply (run_conserving events (newManager cfg) Hev).
  left. reflexivity.
Qed.

Lemma no_idle_slot_while_queued_witness :
  configUntouched fiveFailures
  /\ (requestQueue (run fiveFailures (newManager throttled4)) = []
      \/ getEffectiveConcurrencyLimit (run fiveFailures (newManager throttled4))
         <= Z.of_nat
              (size (activeRequests (run fiveFailures (newManager throttled4))))).
Proof.
  assert (H : configUntouched fiveFailures)
    by (unfold configUntouched, fiveFailures; repeat constructor; discriminate).
  split; [exact H|].
  apply (no_idle_slot_while_queued throttled4 fiveFailures H).
Defined.

(** *** A promise settles once *)

Lemma settle_settled t' r s t p :
  promises s !! t = Some p -> p <> Pending ->
  promises (settle t' r s) !! t = Some p.
Proof.
  intros Hp Hne. unfold settle.
  destruct (promises s !! t') as [[]|] eqn:Ht'; try exact Hp.
  cbn. destruct (decide (t = t')) as [->|Hd].
  - congruence.
  - rewrite list_lookup_insert_ne by congruence. exact Hp.
Qed.

Lemma processQueue_promises now s :
  promises (processQueue now s) = promises s.
Proof.
  destruct (processQueueFrom_prefix now (requestQueue s) s) as (k & H).
  cbn zeta in H. unfold processQueue. tauto.
Qed.

Lemma item_reject_settled now item error s t p :
  promises s !! t = Some p -> p <> Pending ->
  promises (item_reject now item error s) !! t = Some p.
Proof.
  intros Hp Hne. unfold item_reject. rewrite processQueue_promises.
  apply settle_settled; assumption.
Qed.

Lemma item_resolve_settled now item s t p :
  promises s !! t = Some p -> p <> Pending ->
  promises (item_resolve now item s) !! t = Some p.
Proof.
  intros Hp Hne. unfold item_resolve. rewrite processQueue_promises.
  apply settle_settled; assumption.
Qed.

Lemma clearQueueFrom_settled now k remaining s t p :
  promises s !! t = Some p -> p <> Pending ->
  promises (clearQueueFrom now k remaining s) !! t = Some p.
Proof.
  revert k s. induction remaining as [|remaining IH]; intros k s Hp Hne;
    [exact Hp|].
  cbn [clearQueueFrom]. destruct (requestQueue s !! k).
  - apply IH; [|exact Hne]. apply item_reject_settled; assumption.
  - apply IH; assumption.
Qed.

Lemma step_settled e s t p :
  promises s !! t = Some p -> p <> Pending ->
  promises (step e s) !! t = Some p.
Proof.
  intros Hp Hne.
  destruct e as [now requestId | now t' | now t' message | now t'
                | now t' | newConfig | now]; cbn [step].
  - unfold executeRequest. rewrite processQueue_promises. cbn.
    rewrite lookup_app_l; [exact Hp|]. eapply lookup_lt_Some, Hp.
  - unfold onWorkDone. destruct (requests s !! t'); [|exact Hp].
    destruct (bool_decide _); [|exact Hp].
    apply item_resolve_settled; assumption.
  - unfold onWorkDone. destruct (requests s !! t'); [|exact Hp].
    destruct (bool_decide _); [|exact Hp].
    apply item_reject_settled; assumption.
  - unfold onQueueTimeout. destruct (requests s !! t'); [|exact Hp].
    destruct (bool_decide _); [|exact Hp].
    apply item_reject_settled; assumption.
  - unfold onAbort. destruct (requests s !! t'); [|exact Hp].
    apply item_reject_settled; assumption.
  - exact Hp.
  - unfold clearQueue. cbn. apply clearQueueFrom_settled; assumption.
Qed.

(** Property X10.  A promise that has been fulfilled or rejected keeps its
    outcome whatever happens afterwards: later timeouts, aborts, completions
    and clearings of the queue do not settle it again. *)
Theorem promise_settles_once (events : list Event) (s : Manager)
        (t : nat) (p : Settlement) :
  promises s !! t = Some p -> p <> Pending ->
  promises (run events s) !! t = Some p.
Proof.
  revert s. induction events as [|e events IH]; intros s Hp Hne; [exact Hp|].
  cbn [run fold_left]. apply IH; [|exact Hne].
  apply step_settled; assumption.
Qed.

Lemma promise_settles_once_witness :
  (promises afterClearWhileFull !! 1%nat = Some (Rejected QueueCleared)
   /\ Rejected QueueCleared <> Pending)
  /\ promises (run lateEvents afterClearWhileFull) !! 1%nat
     = Some (Rejected QueueCleared).
Proof.
  assert (H : promises afterClearWhileFull !! 1%nat
              = Some (Rejected QueueCleared)) by (vm_compute; reflexivity).
  split; [split; [exact H|discriminate]|].
  apply (promise_settles_once lateEvents afterClearWhileFull 1
           (Rejected QueueCleared) H).
  discriminate.
Defined.

(** *** The metrics stay in range *)

Lemma updatePerformanceMetrics_range responseTime isError s :
  metricsInRange (performanceMetrics s) ->
  metricsInRange
    (performanceMetrics (updatePerformanceMetrics responseTime isError s)).
Proof.
  intros ((He0 & He1) & Ha & Hw). unfold updatePerformanceMetrics.
  cbn [performanceMetrics set_performanceMetrics]. unfold metricsInRange.
  cbn [errorRate averageResponseTime queueWaitTimes].
  split; [|split; [|exact Hw]].
  - change (1 - 1 / 20)%Q with (19 # 20)%Q.
    change (1 / 20)%Q with (1 # 20)%Q.
    destruct isError; lra.
  - destruct (negb isError && (0 <? responseTime)) eqn:E; [|exact Ha].
    apply andb_true_iff in E as [_ E]. apply Z.ltb_lt in E.
    assert (0 <= inject_Z responseTime)%Q
      by (rewrite <- (Zle_Qle 0); lia).
    lra.
Qed.

Lemma pushWaitTime_range w m :
  metricsInRange m -> metricsInRange (pushWaitTime w m).
Proof.
  intros (He & Ha & Hw). unfold pushWaitTime, metricsInRange.
  cbn [errorRate averageResponseTime queueWaitTimes].
  split; [exact He|]. split; [exact Ha|].
  destruct (100 <? _) eqn:E.
  - rewrite length_drop, length_app. simpl. lia.
  - apply Z.ltb_ge in E. lia.
Qed.

Lemma settle_metrics t r s :
  performanceMetrics (settle t r s) = performanceMetrics s.
Proof. unfold settle. destruct (promises s !! t) as [[]|]; reflexivity. Qed.

Lemma processQueueFrom_range now queue s :
  metricsInRange (performanceMetrics s) ->
  metricsInRange (performanceMetrics (processQueueFrom now queue s)).
Proof.
  revert s. induction queue as [|item rest IH]; intros s H; [exact H|].
  cbn [processQueueFrom]. destruct (_ <? _); [|exact H].
  apply IH. cbn. apply pushWaitTime_range, H.
Qed.

Lemma item_reject_range now item error s :
  metricsInRange (performanceMetrics s) ->
  metricsInRange (performanceMetrics (item_reject now item error s)).
Proof.
  intros H. unfold item_reject, processQueue. apply processQueueFrom_range.
  rewrite settle_metrics.
  apply (updatePerformanceMetrics_range 0 true
           (removeActiveRequest (id item) s)), H.
Qed.

Lemma item_resolve_range now item s :
  metricsInRange (performanceMetrics s) ->
  metricsInRange (performanceMetrics (item_resolve now item s)).
Proof.
  intros H. unfold item_resolve, processQueue. apply processQueueFrom_range.
  rewrite settle_metrics.
  apply (updatePerformanceMetrics_range (now - startTime item) false
           (removeActiveRequest (id item) s)), H.
Qed.

Lemma clearQueueFrom_range now k remaining s :
  metricsInRange (performanceMetrics s) ->
  metricsInRange (performanceMetrics (clearQueueFrom now k remaining s)).
Proof.
  revert k s. induction remaining as [|remaining IH]; intros k s H; [exact H|].
  cbn [clearQueueFrom]. destruct (requestQueue s !! k).
  - apply IH, item_reject_range, H.
  - apply IH, H.
Qed.

Lemma step_range e s :
  metricsInRange (performanceMetrics s) ->
  metricsInRange (performanceMetrics (step e s)).
Proof.
  intros H.
  destruct e as [now requestId | now t | now t message | now t
                | now t | newConfig | now]; cbn [step].
  - unfold executeRequest, processQueue. apply processQueueFrom_range, H.
  - unfold onWorkDone. destruct (requests s !! t); [|exact H].
    destruct (bool_decide _); [|exact H]. apply item_resolve_range, H.
  - unfold onWorkDone. destruct (requests s !! t); [|exact H].
    destruct (bool_decide _); [|exact H]. apply item_reject_range, H.
  - unfold onQueueTimeout. destruct (requests s !! t); [|exact H].
    destruct (bool_decide _); [|exact H]. apply item_reject_range, H.
  - unfold onAbort. destruct (requests s !! t); [|exact H].
    apply item_reject_range, H.
  - exact H.
  - unfold clearQueue. cbn. apply clearQueueFrom_range, H.
Qed.

(** Property X11.  Whatever happens to a manager, its error rate stays
    between 0 and 1, its average response time is never negative, and it
    keeps at most 100 waiting times. *)
Theorem metrics_stay_in_range (cfg : ConcurrencyConfig)
        (events : list Event) :
  let m := performanceMetrics (run events (newManager cfg)) in
  (0 <= errorRate m <= 1)%Q
  /\ (0 <= averageResponseTime m)%Q
  /\ (length (queueWaitTimes m) <= 100)%nat.
Proof.
  cbn zeta. change (metricsInRange
                      (performanceMetrics (run events (newManager cfg)))).
  assert (H0 : metricsInRange (performanceMetrics (newManager cfg))).
  { unfold metricsInRange; cbn. split; [lra|]. split; [lra|lia]. }
  revert H0. generalize (newManager cfg).
  induction events as [|e events IH]; intros s H; [exact H|].
  cbn [run fold_left]. apply IH, step_range, H.
Qed.

Lemma removeFirst_subset x q it : it ∈ removeFirst x q -> it ∈ q.
Proof.
  induction q as [|a q IH]; cbn; [done|].
  destruct (bool_decide (id a = x)).
  - intros H. now apply elem_of_cons; right.
  - intros [->|H]%elem_of_cons; [apply elem_of_cons; now left|].
    apply elem_of_cons; right; auto.
Qed.

Lemma removeFirst_gone x q it :
  NoDup (id <$> q) -> it ∈ removeFirst x q -> id it <> x.
Proof.
  induction q as [|a q IH]; cbn; [intros _ H; inversion H|].
  intros [Ha Hq]%NoDup_cons.
  destruct (bool_decide (id a = x)) eqn:E.
  - apply bool_decide_eq_true in E. subst x. intros Hit Heq.
    apply Ha. rewrite <- Heq. apply list_elem_of_fmap. eauto.
  - apply bool_decide_eq_false in E.
    intros [->|H]%elem_of_cons; [exact E|]. now apply IH.
Qed.

Lemma removeFirst_keeps x q it :
  it ∈ q -> id it <> x -> it ∈ removeFirst x q.
Proof.
  induction q as [|a q IH]; cbn; [done|].
  intros [->|H]%elem_of_cons Hne.
  - rewrite bool_decide_eq_false_2 by exact Hne. apply elem_of_cons; now left.
  - destruct (bool_decide (id a = x)); [exact H|].
    apply elem_of_cons; right; auto.
Qed.

Lemma removeFirst_nodup x q :
  NoDup (id <$> q) -> NoDup (id <$> removeFirst x q).
Proof.
  induction q as [|a q IH]; cbn; [done|].
  intros [Ha Hq]%NoDup_cons.
  destruct (bool_decide (id a = x)); [exact Hq|].
  cbn. apply NoDup_cons. split; [|auto].
  intros (b & Hb & Hin)%list_elem_of_fmap. apply Ha.
  apply list_elem_of_fmap. exists b. split; [exact Hb|].
  eapply removeFirst_subset, Hin.
Qed.

Lemma same_id_same_item (l : list RequestQueueItem) a b :
  NoDup (id <$> l) -> a ∈ l -> b ∈ l -> id a = id b -> a = b.
Proof.
  induction l as [|c l IH]; cbn; [intros _ H; inversion H|].
  intros [Hc Hl]%NoDup_cons [->|Ha]%elem_of_cons [->|Hb]%elem_of_cons Heq.
  - reflexivity.
  - exfalso. apply Hc. rewrite Heq. apply list_elem_of_fmap. eauto.
  - exfalso. apply Hc. rewrite <- Heq. apply list_elem_of_fmap. eauto.
  - auto.
Qed.

Lemma wf_queued_known s item :
  wellFormed s -> item ∈ requestQueue s -> item ∈ requests s.
Proof.
  intros W H. destruct (wf_queue s W item H) as (Hr & _).
  eapply list_elem_of_lookup_2, Hr.
Qed.

Lemma wf_queuedNotActive s : wellFormed s -> queuedNotActive s.
Proof.
  intros W item Hin%list_elem_of_In Hact.
  destruct (wf_active s W _ Hact) as (item' & Hr & Hid & Hq).
  assert (item' = item).
  { apply (same_id_same_item (requests s)); auto using wf_ids.
    eapply wf_queued_known; eauto. }
  subst. contradiction.
Qed.

(** Two queued items with the same ticket are the same item. *)
Lemma wf_ticket_item s item t it :
  wellFormed s -> requests s !! t = Some item -> it ∈ requestQueue s ->
  ticket it = t -> it = item.
Proof.
  intros W Hr Hin Ht. destruct (wf_queue s W it Hin) as (Hr' & _).
  rewrite Ht in Hr'. congruence.
Qed.

Lemma wf_new cfg : wellFormed (newManager cfg).
Proof.
  split; cbn; try done; try apply NoDup_nil_2.
  intros item H. inversion H.
Qed.

Lemma wf_processQueue now s : wellFormed s -> wellFormed (processQueue now s).
Proof.
  intros W.
  destruct (processQueueFrom_prefix now (requestQueue s) s)
    as (k & Hk & Hq & Hr & Ha & Ht & Hp & Hrq & Hc & Hstop).
  cbn zeta in *. unfold processQueue.
  pose proof (take_drop k (requestQueue s)) as Htd.
  assert (Hnd : NoDup ((id <$> take k (requestQueue s))
                       ++ (id <$> drop k (requestQueue s)))).
  { rewrite <- fmap_app, Htd. apply wf_queue_ids, W. }
  apply NoDup_app in Hnd as (Hnd1 & Hdisj & Hnd2).
  assert (Hsub : forall it, it ∈ drop k (requestQueue s) ->
                            it ∈ requestQueue s).
  { intros it Hit. rewrite <- Htd. apply elem_of_app; now right. }
  assert (Hsub1 : forall it, it ∈ take k (requestQueue s) ->
                             it ∈ requestQueue s).
  { intros it Hit. rewrite <- Htd. apply elem_of_app; now left. }
  split.
  - rewrite Hrq. apply wf_tickets, W.
  - rewrite Hp, Hrq. apply wf_promises, W.
  - rewrite Hrq. apply wf_ids, W.
  - rewrite Hq. exact Hnd2.
  - rewrite Hq, Hrq, Hp, Ht, Hr. intros item Hit.
    destruct (wf_queue s W item (Hsub _ Hit)) as (H1 & H2 & H3 & H4).
    assert (Hnot : ticket item ∉ ticketsOf (take k (requestQueue s))).
    { unfold ticketsOf. rewrite elem_of_list_to_set.
      intros (it & Heq & Hin)%list_elem_of_fmap.
      assert (it = item).
      { symmetry. eapply (wf_ticket_item s it (ticket it)); eauto.
        apply (wf_queue s W it (Hsub1 _ Hin)). }
      subst it. apply (Hdisj (id item)); apply list_elem_of_fmap; eauto. }
    repeat split; auto.
    + apply elem_of_difference. auto.
    + intros [?|?]%elem_of_union; auto.
  - rewrite Ha, Hrq, Hq. intros x [Hx|Hx]%elem_of_union.
    + unfold idsOf in Hx. rewrite elem_of_list_to_set in Hx.
      apply list_elem_of_fmap in Hx as (it & -> & Hin).
      exists it. split; [eapply wf_queued_known; eauto|].
      split; [reflexivity|]. intros Hd.
      apply (Hdisj (id it)); apply list_elem_of_fmap; eauto.
    + destruct (wf_active s W x Hx) as (it & H1 & H2 & H3).
      exists it. repeat split; auto.
  - rewrite Hr, Hrq. intros t [Ht'|Ht']%elem_of_union.
    + unfold ticketsOf in Ht'. rewrite elem_of_list_to_set in Ht'.
      apply list_elem_of_fmap in Ht' as (it & -> & Hin).
      destruct (wf_queue s W it (Hsub1 _ Hin)) as (H1 & _).
      eapply lookup_lt_Some, H1.
    + apply wf_running; auto.
Qed.

Lemma wf_shrink s s' : wellFormed s -> shrunk s s' -> wellFormed s'.
Proof.
  intros W (Hr & _ & Hp & Hnd & Hq & Ha & Hrun). split.
  - rewrite Hr. apply wf_tickets, W.
  - rewrite Hp, Hr. apply wf_promises, W.
  - rewrite Hr. apply wf_ids, W.
  - exact Hnd.
  - intros item Hin. destruct (Hq item Hin) as (H0 & H1 & H2 & H3).
    rewrite Hr. destruct (wf_queue s W item H0) as (H4 & _). auto.
  - intros x Hx. destruct (wf_active s W x (Ha x Hx)) as (it & H1 & H2 & H3).
    exists it. rewrite Hr. repeat split; auto.
    intros Hin. apply H3. apply (Hq it Hin).
  - intros t Ht. rewrite Hr. apply wf_running, Hrun, Ht. exact W.
Qed.

Lemma settle_fields t r s :
  activeRequests (settle t r s) = activeRequests s
  /\ requestQueue (settle t r s) = requestQueue s
  /\ config (settle t r s) = config s
  /\ performanceMetrics (settle t r s) = performanceMetrics s
  /\ requests (settle t r s) = requests s
  /\ timers (settle t r s) = timers s
  /\ running (settle t r s) = running s
  /\ length (promises (settle t r s)) = length (promises s).
Proof.
  unfold settle. destruct (promises s !! t) as [[]|]; cbn;
    rewrite ?length_insert; auto 10.
Qed.

Lemma settle_other t r s t' :
  t' <> t -> promises (settle t r s) !! t' = promises s !! t'.
Proof.
  intros Hne. unfold settle. destruct (promises s !! t) as [[]|]; cbn; auto.
  apply list_lookup_insert_ne. congruence.
Qed.

Lemma settle_pending t r s :
  promises s !! t = Some Pending -> promises (settle t r s) !! t = Some r.
Proof.
  intros H. unfold settle. rewrite H. cbn.
  apply list_lookup_insert_eq. eapply lookup_lt_Some, H.
Qed.

(** The end of every handler: the id leaves the active set, the outcome
    is recorded, the promise of ticket [t] is settled and the queue is
    processed. *)
Lemma wf_finish now x t r responseTime isError s s1 :
  wellFormed s -> shrunk s s1 ->
  (forall it, it ∈ requestQueue s1 -> ticket it <> t) ->
  wellFormed
    (processQueue now
       (settle t r
          (updatePerformanceMetrics responseTime isError
             (removeActiveRequest x s1)))).
Proof.
  intros W (Hr & Hc & Hp & Hnd & Hq & Ha & Hrun) Ht.
  apply wf_processQueue. apply (wf_shrink s); [exact W|].
  set (s2 := updatePerformanceMetrics responseTime isError
               (removeActiveRequest x s1)).
  destruct (settle_fields t r s2)
    as (Fa & Fq & Fc & _ & Fr & Ft & Frun & Fp).
  unfold shrunk. rewrite Fa, Fq, Fc, Fr, Ft, Frun, Fp. cbn.
  repeat split; auto.
  - apply (Hq item H).
  - rewrite settle_other; [apply (Hq item H)|]. intros E. subst t.
    eapply Ht; eauto.
  - apply (Hq item H).
  - apply (Hq item H).
  - intros x0 [Hx _]%elem_of_difference. auto.
Qed.

Lemma shrunk_dequeued t item s :
  wellFormed s -> requests s !! t = Some item ->
  shrunk s (removeFromQueue (id item) (clearTimer t s))
  /\ forall it, it ∈ removeFirst (id item) (requestQueue s) -> ticket it <> t.
Proof.
  intros W Hr.
  assert (Hne : forall it, it ∈ removeFirst (id item) (requestQueue s) ->
                           ticket it <> t).
  { intros it Hit Heq.
    pose proof (removeFirst_gone _ _ _ (wf_queue_ids s W) Hit) as Hid.
    apply Hid. f_equal.
    eapply wf_ticket_item; eauto. eapply removeFirst_subset; eauto. }
  split; [|exact Hne].
  unfold shrunk. cbn. repeat split; auto.
  - apply removeFirst_nodup, wf_queue_ids, W.
  - eapply removeFirst_subset; eauto.
  - apply (wf_queue s W item0). eapply removeFirst_subset; eauto.
  - apply elem_of_difference. split.
    + apply (wf_queue s W item0). eapply removeFirst_subset; eauto.
    + rewrite elem_of_singleton. apply Hne, H.
  - apply (wf_queue s W item0). eapply removeFirst_subset; eauto.
Qed.

Lemma wf_onQueueTimeout now t s :
  wellFormed s -> wellFormed (onQueueTimeout now t s).
Proof.
  intros W. unfold onQueueTimeout.
  destruct (requests s !! t) as [item|] eqn:Hr; [|exact W].
  destruct (bool_decide _); [|exact W].
  destruct (shrunk_dequeued t item s W Hr) as (Hs & Hne).
  unfold item_reject, recordError.
  rewrite (wf_tickets s W t item Hr).
  apply (wf_finish now _ t _ 0 true s); auto.
Qed.

Lemma wf_onAbort now t s : wellFormed s -> wellFormed (onAbort now t s).
Proof.
  intros W. unfold onAbort.
  destruct (requests s !! t) as [item|] eqn:Hr; [|exact W].
  destruct (shrunk_dequeued t item s W Hr) as (Hs & Hne).
  unfold item_reject, recordError.
  rewrite (wf_tickets s W t item Hr).
  apply (wf_finish now _ t _ 0 true s); auto.
  destruct Hs as (H1 & H2 & H3 & H4 & H5 & H6 & H7).
  unfold shrunk. cbn in *. repeat split; auto; try apply (H5 item0 H).
  intros x [Hx _]%elem_of_difference. auto.
Qed.

Lemma wf_onWorkDone now t failure s :
  wellFormed s -> wellFormed (onWorkDone now t failure s).
Proof.
  intros W. unfold onWorkDone.
  destruct (requests s !! t) as [item|] eqn:Hr; [|exact W].
  destruct (bool_decide _) eqn:Hrun; [|exact W].
  apply bool_decide_eq_true in Hrun.
  assert (Hs : shrunk s (set_running (running s ∖ {[t]}) s)).
  { unfold shrunk. cbn. repeat split; auto.
    - apply wf_queue_ids, W.
    - apply (wf_queue s W item0 H).
    - apply (wf_queue s W item0 H).
    - intros [Hx _]%elem_of_difference. now apply (wf_queue s W item0 H).
    - intros t0 [Hx _]%elem_of_difference. auto. }
  assert (Hne : forall it, it ∈ requestQueue s -> ticket it <> t).
  { intros it Hit Heq. subst t. now apply (wf_queue s W it Hit). }
  destruct failure as [message|].
  - unfold item_reject, recordError. rewrite (wf_tickets s W t item Hr).
    apply (wf_finish now _ t _ 0 true s); auto.
  - unfold item_resolve, recordSuccess. rewrite (wf_tickets s W t item Hr).
    apply (wf_finish now _ t _ _ false s); auto.
Qed.

Lemma wf_executeRequest now requestId s :
  wellFormed s -> requestId ∉ id <$> requests s ->
  wellFormed (executeRequest now requestId s).
Proof.
  intros W Hfresh. unfold executeRequest. apply wf_processQueue.
  set (item := {| id := requestId; startTime := now;
                  ticket := length (requests s) |}).
  assert (Hnew : forall it, it ∈ requests s -> it <> item).
  { intros it Hit ->. apply Hfresh. apply list_elem_of_fmap. exists item.
    split; [reflexivity|exact Hit]. }
  split; cbn.
  - intros t it Hl. apply lookup_app_Some in Hl as [Hl|[Hlen Hl]].
    + apply (wf_tickets s W t it Hl).
    + destruct (t - length (requests s))%nat eqn:E; [|done].
      cbn in Hl. injection Hl as <-. cbn. lia.
  - rewrite !length_app. cbn. rewrite (wf_promises s W). reflexivity.
  - rewrite fmap_app. apply NoDup_app. split; [apply wf_ids, W|].
    split; [|apply NoDup_singleton].
    cbn. intros x Hx [->|Hin]%elem_of_cons; [contradiction|inversion Hin].
  - rewrite fmap_app. apply NoDup_app. split; [apply wf_queue_ids, W|].
    split; [|apply NoDup_singleton].
    cbn. intros x Hx [->|Hin]%elem_of_cons; [|inversion Hin].
    apply Hfresh. apply list_elem_of_fmap in Hx as (it & -> & Hit).
    apply list_elem_of_fmap. exists it. split; [reflexivity|].
    eapply wf_queued_known; eauto.
  - intros it [Hit|Hit]%elem_of_app.
    + destruct (wf_queue s W it Hit) as (H1 & H2 & H3 & H4).
      repeat split; auto.
      * apply lookup_app_l_Some, H1.
      * apply lookup_app_l_Some, H2.
      * apply elem_of_union; now right.
    + apply list_elem_of_singleton in Hit. subst it. cbn.
      repeat split.
      * rewrite lookup_app_r by lia. now rewrite Nat.sub_diag.
      * rewrite lookup_app_r by (rewrite (wf_promises s W); lia).
        now rewrite (wf_promises s W), Nat.sub_diag.
      * apply elem_of_union; left. now apply elem_of_singleton.
      * intros Hrun. apply (wf_running s W) in Hrun. lia.
  - intros x Hx. destruct (wf_active s W x Hx) as (it & H1 & H2 & H3).
    exists it. repeat split; auto.
    + apply elem_of_app; now left.
    + intros [Hin|Hin]%elem_of_app; [contradiction|].
      apply list_elem_of_singleton in Hin. now apply (Hnew it H1).
  - intros t Ht. rewrite length_app. apply (wf_running s W) in Ht. lia.
Qed.

Lemma rejectOnly_fields error s item :
  requests (rejectOnly error s item) = requests s
  /\ length (promises (rejectOnly error s item)) = length (promises s).
Proof.
  unfold rejectOnly.
  destruct (settle_fields (ticket item) (Rejected error) (recordError s))
    as (_ & _ & _ & _ & Fr & _ & _ & Fp).
  rewrite Fr, Fp. split; reflexivity.
Qed.

Lemma rejectAll_fields items s :
  let s' := fold_left (rejectOnly QueueCleared) items s in
  requests s' = requests s
  /\ length (promises s') = length (promises s)
  /\ config s' = config s.
Proof.
  revert s. induction items as [|item items IH]; intros s; cbn; [auto|].
  destruct (IH (rejectOnly QueueCleared s item)) as (H1 & H2 & H3).
  cbn zeta in *. rewrite H1, H2, H3.
  destruct (rejectOnly_fields QueueCleared s item) as (-> & ->).
  destruct (rejectOnly_frame QueueCleared s item) as (_ & _ & -> & _).
  auto.
Qed.

(** In a sound state the loop of [clearQueue] is a plain iteration over
    the queue. *)
Lemma clearQueue_sound_eq now s :
  sound s ->
  clearQueue now s
  = set_requestQueue []
      (fold_left (rejectOnly QueueCleared) (requestQueue s) s).
Proof.
  intros (W & [Hq|Hfull] & Hrise); unfold clearQueue.
  - rewrite Hq. reflexivity.
  - rewrite (clearQueueFrom_full now _ 0 s Hfull Hrise
               (wf_queuedNotActive s W)).
    rewrite drop_0, firstn_all. reflexivity.
Qed.

Lemma wf_clearQueue now s : sound s -> wellFormed (clearQueue now s).
Proof.
  intros S. rewrite (clearQueue_sound_eq now s S). destruct S as (W & _).
  destruct (rejectAll_fields (requestQueue s) s) as (Hr & Hp & _).
  destruct (rejectAll_frame (requestQueue s) s) as (Ha & Hrun & _).
  cbn zeta in *.
  apply (wf_shrink s); [exact W|]. unfold shrunk. cbn.
  rewrite Hr, Hp, Ha, Hrun. repeat split; auto; try (inversion H).
  - destruct (rejectAll_fields (requestQueue s) s) as (_ & _ & Hc). exact Hc.
  - apply NoDup_nil_2.
Qed.

Lemma step_requests e s :
  id <$> requests (step e s) = (id <$> requests s) ++ submittedIds [e].
Proof.
  assert (Hpq : forall now s0, requests (processQueue now s0) = requests s0).
  { intros now s0.
    destruct (processQueueFrom_prefix now (requestQueue s0) s0) as (k & H).
    cbn zeta in H. unfold processQueue. tauto. }
  assert (Hrej : forall now item error s0,
             requests (item_reject now item error s0) = requests s0).
  { intros. unfold item_reject. rewrite Hpq.
    destruct (settle_fields (ticket item) (Rejected error)
                (recordError (removeActiveRequest (id item) s0)))
      as (_ & _ & _ & _ & -> & _). reflexivity. }
  assert (Hres : forall now item s0,
             requests (item_resolve now item s0) = requests s0).
  { intros. unfold item_resolve. rewrite Hpq.
    destruct (settle_fields (ticket item) Fulfilled
                (recordSuccess (now - startTime item)
                   (removeActiveRequest (id item) s0)))
      as (_ & _ & _ & _ & -> & _). reflexivity. }
  destruct e as [now requestId | now t | now t message | now t
                | now t | newConfig | now]; cbn [step submittedIds omap list_omap];
    rewrite ?app_nil_r.
  - unfold executeRequest. rewrite Hpq. cbn. rewrite fmap_app. reflexivity.
  - unfold onWorkDone. destruct (requests s !! t); [|reflexivity].
    destruct (bool_decide _); [|reflexivity]. now rewrite Hres.
  - unfold onWorkDone. destruct (requests s !! t); [|reflexivity].
    destruct (bool_decide _); [|reflexivity]. now rewrite Hrej.
  - unfold onQueueTimeout. destruct (requests s !! t); [|reflexivity].
    destruct (bool_decide _); [|reflexivity]. now rewrite Hrej.
  - unfold onAbort. destruct (requests s !! t); [|reflexivity].
    now rewrite Hrej.
  - reflexivity.
  - unfold clearQueue. cbn.
    generalize (length (requestQueue s)). generalize 0%nat. intros k n.
    revert k s. induction n as [|n IH]; intros k s; [reflexivity|].
    cbn [clearQueueFrom]. destruct (requestQueue s !! k).
    + rewrite IH. now rewrite Hrej.
    + apply IH.
Qed.

Lemma step_sound e s :
  sound s ->
  (forall newConfig, e <> UpdateConfig newConfig) ->
  NoDup ((id <$> requests s) ++ submittedIds [e]) ->
  sound (step e s).
Proof.
  intros S Hne Hnd. pose proof S as (W & Hwc & Hrise).
  split; [|split].
  - destruct e as [now requestId | now t | now t message | now t
                  | now t | newConfig | now]; cbn [step].
    + apply wf_executeRequest; [exact W|].
      cbn in Hnd. apply NoDup_app in Hnd as (_ & Hd & _).
      intros Hin. apply (Hd _ Hin). apply elem_of_cons; now left.
    + apply wf_onWorkDone, W.
    + apply wf_onWorkDone, W.
    + apply wf_onQueueTimeout, W.
    + apply wf_onAbort, W.
    + now destruct (Hne newConfig).
    + apply wf_clearQueue, S.
  - apply step_conserving; assumption.
  - unfold limitCannotRise. destruct (step_within e s Hne) as (-> & _).
    exact Hrise.
Qed.

Lemma run_sound events s :
  sound s -> configUntouched events ->
  NoDup ((id <$> requests s) ++ submittedIds events) ->
  sound (run events s) /\ config (run events s) = config s.
Proof.
  revert s. induction events as [|e events IH]; intros s S Hev Hnd;
    [split; [exact S|reflexivity]|].
  apply Forall_cons in Hev as [He Hev].
  change (run (e :: events) s) with (run events (step e s)).
  assert (Hsplit : submittedIds (e :: events)
                   = submittedIds [e] ++ submittedIds events).
  { unfold submittedIds. cbn. destruct e; reflexivity. }
  rewrite Hsplit, app_assoc in Hnd.
  destruct (IH (step e s)) as (IH1 & IH2).
  - apply step_sound; auto. apply NoDup_app in Hnd. tauto.
  - exact Hev.
  - rewrite step_requests. exact Hnd.
  - split; [exact IH1|]. rewrite IH2. apply (step_within e s He).
Qed.

Lemma new_sound cfg :
  adaptiveThrottling cfg = false \/ 1 <= maxConcurrentRequests cfg ->
  sound (newManager cfg).
Proof.
  intros H. split; [apply wf_new|]. split; [left; reflexivity|exact H].
Qed.

(** Property X12.  In an execution without [updateConfig] whose requests
    carry different ids, [clearQueue] does what its name says: every queued
    request is rejected with the error of a cleared queue, none is started,
    and no other promise changes. *)
Theorem clearQueue_rejects_every_queued (cfg : ConcurrencyConfig)
        (events : list Event) (now : Z) :
  adaptiveThrottling cfg = false \/ 1 <= maxConcurrentRequests cfg ->
  configUntouched events ->
  NoDup (submittedIds events) ->
  let s := run events (newManager cfg) in
  let s' := clearQueue now s in
  requestQueue s' = []
  /\ activeRequests s' = activeRequests s
  /\ running s' = running s
  /\ (forall item, item ∈ requestQueue s ->
        promises s' !! ticket item = Some (Rejected QueueCleared))
  /\ (forall t, (forall item, item ∈ requestQueue s -> ticket item <> t) ->
        promises s' !! t = promises s !! t).
Proof.
  intros Hcfg Hev Hnd s s'.
  destruct (run_sound events (newManager cfg) (new_sound cfg Hcfg) Hev Hnd)
    as (S & _).
  fold s in S. subst s'. rewrite (clearQueue_sound_eq now s S).
  destruct S as (W & _).
  destruct (rejectAll_frame (requestQueue s) s) as (Ha & Hrun & _).
  cbn zeta in *. cbn [requestQueue activeRequests running promises
                      set_requestQueue].
  repeat split; auto.
  - intros item Hin. apply rejectAll_rejects; [now apply list_elem_of_In|].
    apply (wf_queue s W item Hin).
  - intros t Ht. apply rejectAll_others. intros item Hin%list_elem_of_In.
    auto.
Qed.

Lemma fourRequests_untouched : configUntouched fourRequests.
Proof. unfold configUntouched, fourRequests. repeat constructor; discriminate. Qed.

Lemma fourRequests_distinct : NoDup (submittedIds fourRequests).
Proof. apply (bool_decide_eq_true_1 _). vm_compute. reflexivity. Qed.

Lemma clearQueue_rejects_every_queued_witness :
  ((adaptiveThrottling single = false \/ 1 <= maxConcurrentRequests single)
   /\ configUntouched fourRequests
   /\ NoDup (submittedIds fourRequests))
  /\ requestQueue (clearQueue 50 (run fourRequests (newManager single))) = [].
Proof.
  split; [split; [left; reflexivity|
                  split; [exact fourRequests_untouched
                         |exact fourRequests_distinct]]|].
  apply (clearQueue_rejects_every_queued single fourRequests 50
           (or_introl eq_refl) fourRequests_untouched fourRequests_distinct).
Defined.

(** Property X13.  In such an execution, the queue timeout of a waiting
    request rejects that request with the timeout error and takes it out of
    the queue; the other waiting requests keep their place and stay pending,
    and nothing is started or stopped. *)
Theorem queue_timeout_rejects_only_its_request (cfg : ConcurrencyConfig)
        (events : list Event) (now : Z) (item : RequestQueueItem) :
  adaptiveThrottling cfg = false \/ 1 <= maxConcurrentRequests cfg ->
  configUntouched events ->
  NoDup (submittedIds events) ->
  item ∈ requestQueue (run events (newManager cfg)) ->
  let s := run events (newManager cfg) in
  let s' := onQueueTimeout now (ticket item) s in
  promises s' !! ticket item
  = Some (Rejected (QueueTimeout (id item) (queueTimeout cfg)))
  /\ requestQueue s' = removeFirst (id item) (requestQueue s)
  /\ (item ∉ requestQueue s')
  /\ (forall other, other ∈ requestQueue s -> other <> item ->
        other ∈ requestQueue s'
        /\ promises s' !! ticket other = Some Pending)
  /\ activeRequests s' = activeRequests s
  /\ running s' = running s.
Proof.
  intros Hcfg Hev Hnd Hin s s'.
  destruct (run_sound events (newManager cfg) (new_sound cfg Hcfg) Hev Hnd)
    as (S & Hc).
  fold s in S, Hc, Hin. cbn in Hc. destruct S as (W & Hwc & Hrise).
  destruct (wf_queue s W item Hin) as (Hr & Hp & Ht & Hnr).
  assert (Hfull : noFreeSlot s).
  { destruct Hwc as [Hq|Hf]; [|exact Hf]. rewrite Hq in Hin. inversion Hin. }
  set (s1 := removeFromQueue (id item) (clearTimer (ticket item) s)).
  assert (Hs' : s' = rejectOnly (QueueTimeout (id item) (queueTimeout cfg))
                       s1 item).
  { subst s'. unfold onQueueTimeout. rewrite Hr.
    rewrite bool_decide_eq_true_2 by exact Ht. fold s1.
    change (config s1) with (config s). rewrite Hc.
    apply item_reject_full; [exact Hfull|exact Hrise|].
    apply (wf_queuedNotActive s W item). now apply list_elem_of_In. }
  destruct (rejectOnly_frame (QueueTimeout (id item) (queueTimeout cfg))
              s1 item) as (Fa & Fq & _ & Frun & _).
  assert (Hgone : forall it, it ∈ removeFirst (id item) (requestQueue s) ->
                             id it <> id item).
  { intros it Hit. apply (removeFirst_gone _ _ _ (wf_queue_ids s W) Hit). }
  rewrite Hs', Fa, Fq, Frun. cbn [s1 requestQueue activeRequests running
    removeFromQueue clearTimer set_requestQueue set_timers].
  split; [|split; [reflexivity|split; [|split; [|split; reflexivity]]]].
  - unfold rejectOnly. apply settle_pending. exact Hp.
  - intros Hit. now apply (Hgone item Hit).
  - intros other Ho Hne.
    assert (Hid : id other <> id item).
    { intros Heq. apply Hne.
      apply (same_id_same_item (requestQueue s)); auto.
      apply wf_queue_ids, W. }
    split; [apply removeFirst_keeps; assumption|].
    unfold rejectOnly. rewrite settle_other.
    + apply (wf_queue s W other Ho).
    + intros Heq. apply Hne.
      eapply (wf_ticket_item s item (ticket item)); eauto.
Qed.

Lemma queue_timeout_rejects_only_its_request_witness :
  ((adaptiveThrottling single = false \/ 1 <= maxConcurrentRequests single)
   /\ configUntouched fourRequests
   /\ NoDup (submittedIds fourRequests)
   /\ secondQueued ∈ requestQueue (run fourRequests (newManager single)))
  /\ promises (onQueueTimeout 5000 (ticket secondQueued)
                 (run fourRequests (newManager single)))
     !! ticket secondQueued
     = Some (Rejected (QueueTimeout (id secondQueued) (queueTimeout single))).
Proof.
  assert (Hin : secondQueued
                ∈ requestQueue (run fourRequests (newManager single))).
  { apply list_elem_of_In. vm_compute. auto. }
  split; [split; [left; reflexivity|
                  split; [exact fourRequests_untouched
                         |split; [exact fourRequests_distinct|exact Hin]]]|].
  apply (queue_timeout_rejects_only_its_request single fourRequests 5000
           secondQueued (or_introl eq_refl) fourRequests_untouched
           fourRequests_distinct Hin).
Defined.

(** *** Resources *)

(** Property X14.  [getOptimalConfig] and [detectLocalModelCapabilities]
    read the same memory figures and agree on the number of concurrent
    requests, which is 1, 2 or 4; the context size is 80000 and compression
    is aggressive whatever the memory. *)
Theorem capabilities_match_optimal_config (usage : LocalModelUtils.MemoryUsage)
        (cudaVisibleDevices cudaDeviceOrder : option jsstring)
        (argv : list jsstring) :
  let capabilities :=
    LocalModelUtils.detectLocalModelCapabilities
      usage cudaVisibleDevices cudaDeviceOrder argv in
  LocalModelUtils.maxConcurrentRequests capabilities
  = Some (maxConcurrentRequests (getOptimalConfig usage))
  /\ (maxConcurrentRequests (getOptimalConfig usage) = 1
      \/ maxConcurrentRequests (getOptimalConfig usage) = 2
      \/ maxConcurrentRequests (getOptimalConfig usage) = 4)
  /\ LocalModelUtils.memoryConstraints capabilities
     = Some {| LocalModelUtils.maxContextSize := Some 80000;
               LocalModelUtils.aggressiveCompression := Some true |}.
Proof.
  unfold LocalModelUtils.detectLocalModelCapabilities, getOptimalConfig. cbn zeta.
  destruct (_ || _); destruct (8000000000 <? _);
    try destruct (4000000000 <? _); cbn; auto 10.
Qed.

Lemma configUntouched_neverLowered m events :
  configUntouched events -> neverLowered m events.
Proof.
  induction events as [|e events IH]; [done|].
  intros [He Hev]%Forall_cons.
  destruct e; cbn; auto. now destruct (He newConfig).
Qed.

(** Property X15.  A manager created with [getOptimalConfig] never has more
    than four active requests, and never more than its configuration allows,
    as long as [updateConfig] is not called. *)
Theorem optimal_config_bounds_activity (usage : LocalModelUtils.MemoryUsage)
        (events : list Event) :
  configUntouched events ->
  let s := run events (newManager (getOptimalConfig usage)) in
  Z.of_nat (size (activeRequests s))
  <= maxConcurrentRequests (getOptimalConfig usage) <= 4.
Proof.
  intros Hev s.
  assert (Hm : 1 <= maxConcurrentRequests (getOptimalConfig usage) <= 4).
  { unfold getOptimalConfig. cbn. destruct (8000000000 <? _);
      [|destruct (4000000000 <? _)]; lia. }
  assert (W : withinMaximum (newManager (getOptimalConfig usage))).
  { split; [apply Hm|].
    change (Z.of_nat (size (∅ : gset jsstring))
            <= maxConcurrentRequests (getOptimalConfig usage)).
    rewrite size_empty. lia. }
  pose proof (run_within events _ W
                (configUntouched_neverLowered _ events Hev)) as (_ & H).
  fold s in H.
  assert (Hc : forall s0, config (run events s0) = config s0).
  { clear -Hev. induction events as [|e events IH]; intros s0; [reflexivity|].
    apply Forall_cons in Hev as [He Hev].
    change (run (e :: events) s0) with (run events (step e s0)).
    rewrite (IH Hev). apply (step_within e s0 He). }
  unfold s in H. rewrite Hc in H. fold s in H.
  change (config (newManager (getOptimalConfig usage)))
    with (getOptimalConfig usage) in H.
  lia.
Qed.

Lemma optimal_config_bounds_activity_witness :
  configUntouched fiveFailures
  /\ Z.of_nat (size (activeRequests
                       (run fiveFailures
                            (newManager (getOptimalConfig LocalModelUtils.busyUsage)))))
     <= maxConcurrentRequests (getOptimalConfig LocalModelUtils.busyUsage) <= 4.
Proof.
  assert (H : configUntouched fiveFailures)
    by (unfold configUntouched, fiveFailures; repeat constructor; discriminate).
  split; [exact H|].
  apply (optimal_config_bounds_activity LocalModelUtils.busyUsage fiveFailures H).
Defined.

Lemma processQueueFrom_errorRate now queue s :
  errorRate (performanceMetrics (processQueueFrom now queue s))
  = errorRate (performanceMetrics s).
Proof.
  revert s. induction queue as [|item rest IH]; intros s; [reflexivity|].
  cbn [processQueueFrom]. destruct (_ <? _); [|reflexivity].
  rewrite IH. reflexivity.
Qed.

(** Property X16.  An abort signal always counts as an error, also when it
    fires for a request that has completed or was rejected before: the error
    rate moves towards 1 by one twentieth, while a settled promise keeps its
    outcome. *)
Theorem abort_always_records_an_error (now : Z) (t : nat)
        (item : RequestQueueItem) (s : Manager) :
  requests s !! t = Some item ->
  errorRate (performanceMetrics (onAbort now t s))
  = (errorRate (performanceMetrics s) * (1 - 1 / 20) + 1 / 20)%Q
  /\ forall p, promises s !! t = Some p -> p <> Pending ->
               promises (onAbort now t s) !! t = Some p.
Proof.
  intros Hr. split.
  - unfold onAbort. rewrite Hr. unfold item_reject, processQueue.
    rewrite processQueueFrom_errorRate, settle_metrics. reflexivity.
  - intros p Hp Hne. apply (step_settled (AbortSignalled now t)); assumption.
Qed.

Lemma abort_always_records_an_error_witness :
  requests fulfilledOnce !! 0%nat
  = Some {| id := lit "blocking"; startTime := 0; ticket := 0 |}
  /\ errorRate (performanceMetrics (onAbort 20 0 fulfilledOnce))
     = (errorRate (performanceMetrics fulfilledOnce) * (1 - 1 / 20) + 1 / 20)%Q
  /\ forall p, promises fulfilledOnce !! 0%nat = Some p -> p <> Pending ->
               promises (onAbort 20 0 fulfilledOnce) !! 0%nat = Some p.
Proof.
  assert (H : requests fulfilledOnce !! 0%nat
              = Some {| id := lit "blocking"; startTime := 0; ticket := 0 |})
    by (vm_compute; reflexivity).
  split; [exact H|].
  apply (abort_always_records_an_error 20 0 _ fulfilledOnce H).
Defined.

End DispatcherProps.

(** ** The detector, event by event and turn by turn *)

Module DetectorProps.
Import LoopDetection LoopDetectionProps ConcurrencyProps.

Section Stream.

Variable sha256 : jsstring -> jsstring.
Variable Args : Type.
Variable JSON_stringify : Args -> jsstring.

Local Abbreviation getToolCallKey := (getToolCallKey sha256 Args JSON_stringify).
Local Abbreviation addAndCheck := (addAndCheck sha256 Args JSON_stringify).
Local Abbreviation feed := (feed sha256 Args JSON_stringify).

(** Property X17.  The answers to a stream of events are a run of [false]
    followed by a run of [true]: once a loop has been reported, every later
    answer is [true]. *)
Theorem answers_never_return_to_false
        (events : list (ServerGeminiStreamEvent Args)) (s : Service) :
  exists k,
    (k <= length events)%nat
    /\ fst (feed events s)
       = repeat false k ++ repeat true (length events - k).
Proof.
  revert s. induction events as [|e events IH]; intros s.
  - exists 0%nat. split; [lia|reflexivity].
  - cbn [LoopDetection.feed].
    pose proof (addAndCheck_flag sha256 Args JSON_stringify e s) as Hflag.
    destruct (addAndCheck e s) as [r s1]. cbn [fst snd] in Hflag.
    destruct r.
    + rewrite (feed_sticky sha256 Args JSON_stringify events s1 Hflag).
      exists 0%nat. split; [lia|]. cbn. f_equal.
      clear. induction events; cbn; congruence.
    + destruct (IH s1) as (k & Hk & Hr).
      destruct (feed events s1) as [rs s2]. cbn [fst] in *.
      exists (S k). split; [cbn; lia|]. cbn. now rewrite Hr.
Qed.



(** Property X19.  [reset] does not leave a code block: a service that is
    reset while inside one keeps ignoring content, however repetitive, until
    a fence arrives. *)
Theorem reset_keeps_code_block (promptId : jsstring) (s : Service)
        (body : list jsstring) :
  inCodeBlock s = true ->
  Forall (fun c => countFences c = 0) body ->
  inCodeBlock (reset promptId s) = true
  /\ fst (feed (List.map Content body) (reset promptId s))
     = List.map (fun _ => false) body.
Proof.
  intros Hc Hb. split; [exact Hc|].
  apply (feed_inside_block sha256 Args JSON_stringify body (reset promptId s));
    auto.
Qed.

(** *** Tool calls that do not repeat five times *)

Lemma repeat_snoc {A} (x : A) n : repeat x n ++ [x] = repeat x (S n).
Proof. symmetry. apply (repeat_cons n x). Qed.

Lemma feed_no_five (calls : list (jsstring * Args)) (seen : list jsstring)
      (s : Service) :
  loopDetected s = false ->
  (seen = [] /\ lastToolCallKey s = None)
  \/ (exists key n before,
        seen = before ++ repeat key n /\ (1 <= n)%nat
        /\ lastToolCallKey s = Some key
        /\ toolCallRepetitionCount s = Z.of_nat n) ->
  noFiveInARow (seen ++ List.map (fun c => getToolCallKey c.1 c.2) calls) ->
  fst (feed (List.map (fun c => ToolCallRequest c.1 c.2) calls) s)
  = List.map (fun _ => false) calls.
Proof.
  revert seen s. induction calls as [|[name args] calls IH];
    intros seen s Hl Hinv Hno; [reflexivity|].
  cbn [List.map LoopDetection.feed fst snd].
  unfold LoopDetection.addAndCheck. rewrite Hl.
  unfold checkToolCallLoop.
  set (key := getToolCallKey name args).
  change (LoopDetection.getToolCallKey sha256 Args JSON_stringify name args)
    with key.
  set (s0 := resetContentTracking true s).
  assert (Hk0 : lastToolCallKey s0 = lastToolCallKey s) by reflexivity.
  assert (Hc0 : toolCallRepetitionCount s0 = toolCallRepetitionCount s)
    by reflexivity.
  destruct (decide (lastToolCallKey s0 = Some key)) as [Hsame|Hdiff].
  - destruct Hinv as [[_ Hnone]|(k & n & before & Hseen & Hn & Hlast & Hcount)];
      [congruence|].
    assert (k = key) by congruence. subst k.
    assert (Hlt : (S n < 5)%nat).
    { destruct (le_lt_dec 5 (S n)) as [Hge|]; [|assumption]. exfalso.
      apply (Hno (before ++ repeat key (S n - 5))
                 (List.map (fun c => getToolCallKey c.1 c.2) calls) key).
      rewrite Hseen. cbn [List.map fst snd]. fold key.
      rewrite <- !app_assoc. f_equal.
      replace (key :: List.map (fun c => getToolCallKey c.1 c.2) calls)
        with ([key] ++ List.map (fun c => getToolCallKey c.1 c.2) calls)
        by reflexivity.
      rewrite !app_assoc. f_equal.
      rewrite repeat_snoc, <- repeat_app. f_equal. lia. }
    cbn [toolCallRepetitionCount set_toolCall]. rewrite Hc0, Hcount.
    unfold TOOL_CALL_LOOP_THRESHOLD.
    destruct (5 <=? Z.of_nat n + 1) eqn:E; [apply Z.leb_le in E; lia|].
    match goal with
    | |- context [LoopDetection.feed _ _ _ ?ev ?st] =>
        specialize (IH (seen ++ [key]) st)
    end.
    destruct (LoopDetection.feed _ _ _ _ _) as [rs s2]. cbn [fst] in *.
    f_equal. apply IH.
    + reflexivity.
    + right. exists key, (S n), before. repeat split; try lia.
      * rewrite Hseen, <- app_assoc, repeat_snoc. reflexivity.
      * cbn. exact Hlast.
      * cbn [toolCallRepetitionCount set_toolCall set_loopDetected]. lia.
    + rewrite <- app_assoc. exact Hno.
  - cbn [toolCallRepetitionCount set_toolCall].
    unfold TOOL_CALL_LOOP_THRESHOLD. change (5 <=? 1) with false. cbv iota.
    match goal with
    | |- context [LoopDetection.feed _ _ _ ?ev ?st] =>
        specialize (IH (seen ++ [key]) st)
    end.
    destruct (LoopDetection.feed _ _ _ _ _) as [rs s2]. cbn [fst] in *.
    f_equal. apply IH.
    + reflexivity.
    + right. exists key, 1%nat, seen. repeat split; try lia; reflexivity.
    + rewrite <- app_assoc. exact Hno.
Qed.

(** Property X20.  A stream of tool calls in which no five calls in a row
    have the same fingerprint is never reported, however long it is and
    however few different calls it alternates between. *)
Theorem fewer_than_five_in_a_row_never_reports
        (promptId : jsstring) (s0 : Service)
        (calls : list (jsstring * Args)) :
  noFiveInARow (List.map (fun c => getToolCallKey c.1 c.2) calls) ->
  fst (feed (List.map (fun c => ToolCallRequest c.1 c.2) calls)
            (reset promptId s0))
  = List.map (fun _ => false) calls.
Proof.
  intros Hno. apply (feed_no_five calls [] (reset promptId s0)).
  - reflexivity.
  - left. split; reflexivity.
  - exact Hno.
Qed.

End Stream.

Lemma no_five_in_pattern (r w : jsstring) :
  r <> w -> noFiveInARow [r; w; r; r; r; r; w; w].
Proof.
  intros Hne before after key H.
  do 9 (destruct before as [|? before]; cbn in H;
        [first [discriminate H | injection H; intros; subst; congruence]
        |first [discriminate H | injection H as ? H; subst]]).
Qed.

Lemma fewer_than_five_in_a_row_never_reports_witness :
  noFiveInARow
    (List.map (fun c => getToolCallKey SHA256.hexDigest jsstring serialized
                                       c.1 c.2) readAndWrite)
  /\ fst (feed SHA256.hexDigest jsstring serialized
               (List.map (fun c => ToolCallRequest c.1 c.2) readAndWrite)
               (reset (lit "prompt-1") newService))
     = repeat false 8.
Proof.
  assert (H : noFiveInARow
                (List.map (fun c => getToolCallKey SHA256.hexDigest jsstring
                                                   serialized c.1 c.2)
                          readAndWrite)).
  { apply (no_five_in_pattern
             (getToolCallKey SHA256.hexDigest jsstring serialized
                             (lit "read_file") (lit "{}"))
             (getToolCallKey SHA256.hexDigest jsstring serialized
                             (lit "write_file") (lit "{}"))).
    vm_compute. discriminate. }
  split; [exact H|].
  apply (fewer_than_five_in_a_row_never_reports SHA256.hexDigest jsstring
           serialized (lit "prompt-1") newService readAndWrite H).
Defined.


Lemma reset_keeps_code_block_witness :
  (inCodeBlock insideBlock = true
   /\ Forall (fun c => countFences c = 0) (repeat alphabet20 6))
  /\ inCodeBlock (reset (lit "prompt-2") insideBlock) = true
  /\ fst (feed SHA256.hexDigest jsstring serialized
               (List.map Content (repeat alphabet20 6))
               (reset (lit "prompt-2") insideBlock))
     = List.map (fun _ => false) (repeat alphabet20 6).
Proof.
  assert (H : Forall (fun c => countFences c = 0) (repeat alphabet20 6))
    by (repeat constructor).
  split; [split; [reflexivity|exact H]|].
  apply (reset_keeps_code_block SHA256.hexDigest jsstring serialized
           (lit "prompt-2") insideBlock (repeat alphabet20 6) eq_refl H).
Defined.

(** *** The check by the model *)

Lemma set_llmCheck_same s :
  set_llmCheck (turnsInCurrentPrompt s) (llmCheckInterval s)
               (lastCheckTurn s) s = s.
Proof. now destruct s. Qed.

Lemma turns_quiet openai results s :
  turnsInCurrentPrompt s + Z.of_nat (length results) < LLM_CHECK_AFTER_TURNS ->
  turns openai results s
  = (List.map (fun _ => false) results,
     set_llmCheck (turnsInCurrentPrompt s + Z.of_nat (length results))
                  (llmCheckInterval s) (lastCheckTurn s) s).
Proof.
  revert s. induction results as [|result results IH]; intros s H.
  - cbn. rewrite Z.add_0_r, set_llmCheck_same. reflexivity.
  - cbn [turns]. unfold turnStarted.
    cbn [turnsInCurrentPrompt llmCheckInterval lastCheckTurn set_llmCheck].
    cbn [length] in H.
    destruct (LLM_CHECK_AFTER_TURNS <=? turnsInCurrentPrompt s + 1) eqn:E;
      [apply Z.leb_le in E; lia|].
    cbn [andb]. rewrite IH by (cbn; lia). cbn [fst snd List.map].
    f_equal. unfold set_llmCheck. cbn. f_equal. lia.
Qed.

(** Property X21.  The model is not consulted during the first 29 turns of a
    prompt: [turnStarted] answers [false] whatever [generateJson] would say
    and only counts the turn.  In the 30th turn it is consulted, unless
    the content generator is of type [openai], and a confidence it returns
    is reported as a loop exactly when it is above 0.9. *)
Theorem no_llm_check_before_turn_30 (openai : bool)
        (results : list GenerateJson) (promptId : jsstring) (s0 : Service) :
  (length results < 30)%nat ->
  turns openai results (reset promptId s0)
  = (List.map (fun _ => false) results,
     set_llmCheck (Z.of_nat (length results)) DEFAULT_LLM_CHECK_INTERVAL 0
                  (reset promptId s0))
  /\ (length results = 29%nat ->
      forall confidence,
        fst (turnStarted false (Returns (Some confidence))
                         (snd (turns openai results (reset promptId s0))))
        = Qgtb confidence 0.9).
Proof.
  intros H.
  assert (E : turns openai results (reset promptId s0)
              = (List.map (fun _ => false) results,
                 set_llmCheck (Z.of_nat (length results))
                              DEFAULT_LLM_CHECK_INTERVAL 0
                              (reset promptId s0))).
  { rewrite turns_quiet by (cbn; unfold LLM_CHECK_AFTER_TURNS; lia).
    reflexivity. }
  split; [exact E|]. intros H29 confidence. rewrite E, H29. cbn [snd].
  unfold turnStarted, checkForLoopWithLLM. cbn.
  destruct (Qgtb confidence 0.9); reflexivity.
Qed.

Lemma no_llm_check_before_turn_30_witness :
  (length (repeat (Returns (Some 1%Q)) 29) < 30)%nat
  /\ turns false (repeat (Returns (Some 1%Q)) 29)
            (reset (lit "prompt-1") newService)
     = (List.map (fun _ => false) (repeat (Returns (Some 1%Q)) 29),
        set_llmCheck (Z.of_nat (length (repeat (Returns (Some 1%Q)) 29)))
                     DEFAULT_LLM_CHECK_INTERVAL 0
                     (reset (lit "prompt-1") newService)).
Proof.
  assert (H : (length (repeat (Returns (Some 1%Q)) 29) < 30)%nat)
    by (cbn; lia).
  split; [exact H|].
  apply (no_llm_check_before_turn_30 false (repeat (Returns (Some 1%Q)) 29)
           (lit "prompt-1") newService H).
Defined.

(** *** The schedule of the check by the model *)

Lemma Math_round_mono (x y : Q) : (x <= y)%Q -> Math_round x <= Math_round y.
Proof. intros H. apply Qfloor_resp_le. lra. Qed.

(** Property X22.  When the model is consulted, a confidence between 0 and
    0.9 is no loop; it sets the interval to the next check between 6 and 15
    turns, the longer the lower the confidence. *)
Theorem llm_interval_follows_confidence (s : Service) (c c' : Q) :
  (0 <= c)%Q -> (c <= c')%Q -> (c' <= 0.9)%Q ->
  let r := checkForLoopWithLLM false (Returns (Some c)) s in
  let r' := checkForLoopWithLLM false (Returns (Some c')) s in
  fst r = false
  /\ 6 <= llmCheckInterval (snd r') <= llmCheckInterval (snd r)
  /\ llmCheckInterval (snd r) <= 15.
Proof.
  intros H0 Hc H9. unfold checkForLoopWithLLM.
  assert (E : Qgtb c 0.9 = false) by (apply Qgtb_not_lt; lra).
  assert (E' : Qgtb c' 0.9 = false) by (apply Qgtb_not_lt; lra).
  rewrite E, E'. cbn [fst snd llmCheckInterval set_llmCheck].
  unfold MIN_LLM_CHECK_INTERVAL, MAX_LLM_CHECK_INTERVAL.
  change (inject_Z (15 - 5)) with 10%Q. change (inject_Z 5) with 5%Q.
  split; [reflexivity|].
  assert (L : Math_round 6 <= Math_round (5 + 10 * (1 - c')))
    by (apply Math_round_mono; lra).
  assert (M : Math_round (5 + 10 * (1 - c')) <= Math_round (5 + 10 * (1 - c)))
    by (apply Math_round_mono; lra).
  assert (U : Math_round (5 + 10 * (1 - c)) <= Math_round 15)
    by (apply Math_round_mono; lra).
  change (Math_round 6) with 6 in L. change (Math_round 15) with 15 in U.
  lia.
Qed.

Lemma llm_interval_follows_confidence_witness :
  ((0 <= 0.5)%Q /\ (0.5 <= 0.85)%Q /\ (0.85 <= 0.9)%Q)
  /\ fst (checkForLoopWithLLM false (Returns (Some 0.5%Q)) newService) = false
  /\ 6 <= llmCheckInterval
            (snd (checkForLoopWithLLM false (Returns (Some 0.85%Q)) newService))
       <= llmCheckInterval
            (snd (checkForLoopWithLLM false (Returns (Some 0.5%Q)) newService))
  /\ llmCheckInterval
       (snd (checkForLoopWithLLM false (Returns (Some 0.5%Q)) newService))
     <= 15.
Proof.
  split; [repeat split; vm_compute; discriminate|].
  apply (llm_interval_follows_confidence newService 0.5%Q 0.85%Q);
    vm_compute; discriminate.
Defined.

Section Analysis.

Variable sha256 : jsstring -> jsstring.



End Analysis.


(** *** The cap on the history *)

(** Property X24.  As long as no loop has been reported, the history holds
    at most [MAX_HISTORY_LENGTH] code units after every event. *)
Theorem history_within_cap_while_unreported
        (sha256 : jsstring -> jsstring) (Args : Type)
        (JSON_stringify : Args -> jsstring)
        (events : list (ServerGeminiStreamEvent Args))
        (promptId : jsstring) (s0 : Service) :
  Forall (fun r => r = false)
         (fst (feed sha256 Args JSON_stringify events (reset promptId s0))) ->
  strlen (streamContentHistory
            (snd (feed sha256 Args JSON_stringify events
                       (reset promptId s0))))
  <= MAX_HISTORY_LENGTH.
Proof.
  intros H. apply feed_cap; [|exact H].
  change (0 <= MAX_HISTORY_LENGTH). unfold MAX_HISTORY_LENGTH. lia.
Qed.

Lemma countingAloud_unreported :
  fst (feed plainDigest jsstring serialized (List.map Content countingAloud)
            (reset (lit "prompt-1") newService))
  = repeat false 255.
Proof. vm_compute. reflexivity. Qed.

Lemma history_within_cap_while_unreported_witness :
  Forall (fun r => r = false)
         (fst (feed plainDigest jsstring serialized
                    (List.map Content countingAloud)
                    (reset (lit "prompt-1") newService)))
  /\ strlen (streamContentHistory
              (snd (feed plainDigest jsstring serialized
                         (List.map Content countingAloud)
                         (reset (lit "prompt-1") newService))))
     <= MAX_HISTORY_LENGTH.
Proof.
  assert (H : Forall (fun r => r = false)
                (fst (feed plainDigest jsstring serialized
                           (List.map Content countingAloud)
                           (reset (lit "prompt-1") newService)))).
  { rewrite countingAloud_unreported. apply Forall_forall.
    intros r Hr%list_elem_of_In. apply repeat_spec in Hr. exact Hr. }
  split; [exact H|].
  apply (history_within_cap_while_unreported plainDigest jsstring serialized
           (List.map Content countingAloud) (lit "prompt-1") newService H).
Defined.

(** *** The digest only names the chunks *)

(** Property X25.  With a digest that tells apart the chunks met along the
    way, the service answers a stream of content exactly as if it filed
    every chunk under its own text. *)
Theorem digest_only_names_chunks
        (sha256 : jsstring -> jsstring) (Args : Type)
        (JSON_stringify : Args -> jsstring)
        (chunks : list jsstring) (contents : list jsstring) (s : Service) :
  collisionFreeOn chunks sha256 ->
  0 <= lastContentIndex s -> contentStats s = ∅ ->
  windowsWithin chunks plainDigest contents s = true ->
  fst (feed sha256 Args JSON_stringify (List.map Content contents) s)
  = fst (feed plainDigest unit (fun _ => []) (List.map Content contents) s).
Proof.
  intros Hfree Hi Hs Hw.
  apply (feed_related sha256 plainDigest chunks Hfree
           (plainDigest_free chunks) Args JSON_stringify contents s s);
    [|exact Hw].
  split; [exact Hi|]. split; [now destruct s|].
  intros c _. rewrite Hs. reflexivity.
Qed.

Lemma digest_only_names_chunks_witness :
  (collisionFreeOn
     (windows (alphabet20 ++ alphabet20 ++ alphabet20 ++ alphabet20))
     SHA256.hexDigest
   /\ 0 <= lastContentIndex (reset (lit "prompt-1") newService)
   /\ contentStats (reset (lit "prompt-1") newService) = ∅
   /\ windowsWithin
        (windows (alphabet20 ++ alphabet20 ++ alphabet20 ++ alphabet20))
        plainDigest (repeat alphabet20 4)
        (reset (lit "prompt-1") newService) = true)
  /\ fst (feed SHA256.hexDigest jsstring serialized
               (List.map Content (repeat alphabet20 4))
               (reset (lit "prompt-1") newService))
     = fst (feed plainDigest unit (fun _ => [])
                 (List.map Content (repeat alphabet20 4))
                 (reset (lit "prompt-1") newService)).
Proof.
  assert (Hw : windowsWithin
                 (windows (alphabet20 ++ alphabet20 ++ alphabet20 ++ alphabet20))
                 plainDigest (repeat alphabet20 4)
                 (reset (lit "prompt-1") newService) = true)
    by (vm_compute; reflexivity).
  split; [split; [exact sha256_free_on_alphabet
                 |split; [cbn; lia|split; [reflexivity|exact Hw]]]|].
  apply (digest_only_names_chunks SHA256.hexDigest jsstring serialized
           (windows (alphabet20 ++ alphabet20 ++ alphabet20 ++ alphabet20))
           (repeat alphabet20 4) (reset (lit "prompt-1") newService)
           sha256_free_on_alphabet);
    [cbn; lia|reflexivity|exact Hw].
Defined.

Lemma chunkAt_app (h c : jsstring) (i : Z) :
  0 <= i -> i + CONTENT_CHUNK_SIZE <= strlen h ->
  chunkAt (h ++ c) i = chunkAt h i.
Proof.
  intros Hi Hlen. unfold chunkAt, CONTENT_CHUNK_SIZE in *.
  rewrite !substring_in_range by lia. unfold strlen in Hlen.
  rewrite drop_app_le by lia.
  rewrite take_app_le by (rewrite length_drop; lia). reflexivity.
Qed.

Lemma chunkAt_drop (h : jsstring) (t j : Z) :
  0 <= t <= strlen h -> 0 <= j ->
  chunkAt (drop (Z.to_nat t) h) j = chunkAt h (j + t).
Proof.
  intros Ht Hj. unfold chunkAt. apply substring_drop; auto.
  unfold CONTENT_CHUNK_SIZE. lia.
Qed.

Lemma entriesSoundBelow_weaken (b b' : Z) (s : Service) :
  b <= b' -> entriesSoundBelow b s -> entriesSoundBelow b' s.
Proof.
  intros Hb Hs hash l Hl. destruct (Hs hash l Hl) as (H1 & H2 & H3).
  split; [exact H1|]. split; [|exact H3].
  intros i Hi. specialize (H2 i Hi). lia.
Qed.

Lemma set_contentStats_same (s : Service) :
  set_contentStats (contentStats s) s = s.
Proof. now destruct s. Qed.

Lemma four_sorted (a b c d : Z) :
  StronglySorted Z.lt [a; b; c; d] -> a < b /\ b < c /\ c < d.
Proof.
  intros H.
  apply StronglySorted_inv in H as (H & Ha).
  apply StronglySorted_inv in H as (H & Hb).
  apply StronglySorted_inv in H as (H & Hc).
  inversion Ha; subst. inversion Hb; subst. inversion Hc; subst. auto.
Qed.

Lemma isLoopDetectedForChunk_sound (hash : jsstring) (s : Service) :
  0 <= lastContentIndex s ->
  hasMoreChunksToProcess s = true ->
  entriesSoundBelow (lastContentIndex s) s ->
  let r := isLoopDetectedForChunk
             (chunkAt (streamContentHistory s) (lastContentIndex s)) hash s in
  (exists m, snd r = set_contentStats m s)
  /\ entriesSoundBelow (lastContentIndex s + 1) (snd r)
  /\ (fst r = true -> chants (streamContentHistory s)).
Proof.
  intros Hi Hmore Hs.
  unfold hasMoreChunksToProcess in Hmore. apply Z.leb_le in Hmore.
  set (h := streamContentHistory s) in *.
  set (idx := lastContentIndex s) in *.
  assert (Hweak : entriesSoundBelow (idx + 1) s)
    by (apply (entriesSoundBelow_weaken idx); [lia|exact Hs]).
  assert (Hnew : forall l,
             StronglySorted Z.lt l ->
             (forall i, In i l ->
                0 <= i < idx + 1 /\ i + CONTENT_CHUNK_SIZE <= strlen h) ->
             (forall i j, In i l -> In j l -> chunkAt h i = chunkAt h j) ->
             entriesSoundBelow (idx + 1)
               (set_contentStats (<[hash := l]> (contentStats s)) s)).
  { intros l H1 H2 H3 hash' l' Hl'. cbn in Hl'.
    destruct (decide (hash' = hash)) as [->|Hne].
    - rewrite lookup_insert_eq in Hl'. injection Hl' as <-. auto.
    - rewrite lookup_insert_ne in Hl' by congruence.
      apply (Hweak hash' l' Hl'). }
  unfold isLoopDetectedForChunk. cbv zeta. fold idx.
  destruct (contentStats s !! hash) as [l|] eqn:Hl.
  - destruct l as [|first rest].
    + cbn. split; [exists (contentStats s); now rewrite set_contentStats_same|].
      split; [exact Hweak|discriminate].
    + destruct (isActualContentMatch _ first s) eqn:Hm; cbn [negb].
      2:{ cbn. split; [exists (contentStats s);
                       now rewrite set_contentStats_same|].
          split; [exact Hweak|discriminate]. }
      unfold isActualContentMatch in Hm. apply bool_decide_eq_true in Hm.
      fold h in Hm. fold (chunkAt h first) in Hm.
      destruct (Hs hash _ Hl) as (Hsort & Hb & Heq).
      set (l' := (first :: rest) ++ [idx]).
      assert (Hsort' : StronglySorted Z.lt l').
      { apply StronglySorted_app_2; [|exact Hsort|repeat constructor].
        intros x1 x2 Hx1%list_elem_of_In Hx2%list_elem_of_singleton.
        subst x2. apply Hb in Hx1. lia. }
      assert (Hb' : forall i, In i l' ->
                 0 <= i < idx + 1 /\ i + CONTENT_CHUNK_SIZE <= strlen h).
      { intros i [Hin|[<-|[]]]%in_app_iff; [|lia].
        apply Hb in Hin. fold h in Hin. lia. }
      assert (Hc : forall i, In i l' -> chunkAt h i = chunkAt h idx).
      { intros i [Hin|[<-|[]]]%in_app_iff; [|reflexivity].
        rewrite <- Hm. apply Heq; [exact Hin|now left]. }
      assert (Heq' : forall i j, In i l' -> In j l' ->
                                 chunkAt h i = chunkAt h j).
      { intros i j Hi' Hj'. rewrite (Hc i Hi'), (Hc j Hj'). reflexivity. }
      specialize (Hnew l' Hsort' Hb' Heq').
      destruct (Z.of_nat (length l') <? CONTENT_LOOP_THRESHOLD) eqn:E.
      * cbn [fst snd]. split; [eexists; reflexivity|].
        split; [exact Hnew|discriminate].
      * cbn [fst snd]. split; [eexists; reflexivity|]. split; [exact Hnew|].
        intros Hq. apply Z.ltb_ge in E. unfold CONTENT_LOOP_THRESHOLD in *.
        set (k := (length l' - Z.to_nat 4)%nat) in *.
        assert (Hlen : length (drop k l') = 4%nat)
          by (rewrite length_drop; subst k; lia).
        pose proof (take_drop k l') as Htd.
        destruct (drop k l') as [|a [|b [|c [|d [|]]]]] eqn:Hd;
          try discriminate Hlen.
        cbn [List.last List.hd] in Hq.
        assert (Hdist : d - a <= 120).
        { apply Qle_bool_iff in Hq.
          change (inject_Z (4 - 1)) with (3 # 1)%Q in Hq.
          change (inject_Z CONTENT_CHUNK_SIZE * 2)%Q with (40 # 1)%Q in Hq.
          unfold Qle, Qdiv, Qmult, Qinv, inject_Z in Hq.
          cbn in Hq. lia. }
        assert (Hs4 : StronglySorted Z.lt [a; b; c; d]).
        { rewrite <- Htd in Hsort'.
          eapply StronglySorted_app_1_r, Hsort'. }
        apply four_sorted in Hs4 as (Hab & Hbc & Hcd).
        assert (Hin : forall x, In x [a; b; c; d] -> In x l').
        { intros x Hx. rewrite <- Htd. apply in_or_app. now right. }
        exists a, b, c, d.
        pose proof (Hb' a (Hin a ltac:(cbn; auto))) as Ha.
        pose proof (Hb' d (Hin d ltac:(cbn; auto))) as Hd'.
        repeat split; try lia.
        -- apply Heq'; apply Hin; cbn; auto.
        -- apply Heq'; apply Hin; cbn; auto.
        -- apply Heq'; apply Hin; cbn; auto.
  - cbn [fst snd]. split; [eexists; reflexivity|].
    split; [|discriminate].
    apply Hnew.
    + repeat constructor.
    + intros i [<-|[]]. fold idx. lia.
    + intros i j [<-|[]] [<-|[]]. reflexivity.
Qed.

Lemma sorted_adjusted (t : Z) (l : list Z) :
  StronglySorted Z.lt l ->
  StronglySorted Z.lt
    (List.filter (fun index => 0 <=? index)
                 (List.map (fun index => index - t) l)).
Proof.
  induction l as [|a l IH]; intros H; [constructor|].
  apply StronglySorted_inv in H as (Hl & Ha). cbn.
  destruct (0 <=? a - t); [|auto].
  constructor; [auto|].
  apply Forall_forall. intros x Hx%list_elem_of_In.
  apply filter_In in Hx as (Hx & _). apply in_map_iff in Hx as (y & <- & Hy).
  rewrite Forall_forall in Ha. specialize (Ha y).
  rewrite list_elem_of_In in Ha. specialize (Ha Hy). lia.
Qed.

Lemma truncateAndUpdate_sound (s : Service) :
  entriesSound s ->
  entriesSound (truncateAndUpdate s)
  /\ toolSide (truncateAndUpdate s) = toolSide s
  /\ telemetry (truncateAndUpdate s) = telemetry s.
Proof.
  intros (Hi & Hs). unfold truncateAndUpdate.
  destruct (strlen (streamContentHistory s) <=? MAX_HISTORY_LENGTH) eqn:E;
    [split; [split; assumption|split; reflexivity]|].
  apply Z.leb_gt in E. cbv zeta.
  set (t := strlen (streamContentHistory s) - MAX_HISTORY_LENGTH) in *.
  assert (Ht : 0 <= t <= strlen (streamContentHistory s))
    by (unfold MAX_HISTORY_LENGTH in *; lia).
  split; [|split; reflexivity].
  split; [cbn; lia|].
  intros hash l' Hl'.
  cbn [contentStats set_contentStats set_lastContentIndex
       set_streamContentHistory] in Hl'.
  rewrite lookup_omap in Hl'.
  destruct (contentStats s !! hash) as [l|] eqn:Hl; [|discriminate].
  cbn in Hl'. destruct (Hs hash l Hl) as (Hsort & Hb & Heq).
  pose proof (fun j => adjustIndices_elem t l l' j Hl') as Hel.
  cbn [streamContentHistory lastContentIndex set_contentStats
       set_lastContentIndex set_streamContentHistory].
  rewrite (slice_from_drop _ t Ht).
  assert (Hlen : strlen (drop (Z.to_nat t) (streamContentHistory s))
                 = strlen (streamContentHistory s) - t).
  { unfold strlen in *. rewrite length_drop. lia. }
  split; [|split].
  - unfold adjustIndices in Hl'. destruct (0 <? _); [|discriminate].
    injection Hl' as <-. apply sorted_adjusted, Hsort.
  - intros j Hj. apply Hel in Hj as (i & Hin & -> & Hj0).
    destruct (Hb i Hin) as (Hi1 & Hi2). rewrite Hlen. lia.
  - intros j1 j2 Hj1 Hj2.
    apply Hel in Hj1 as (i1 & Hin1 & -> & H1).
    apply Hel in Hj2 as (i2 & Hin2 & -> & H2).
    rewrite !chunkAt_drop by (auto; lia).
    replace (i1 - t + t) with i1 by lia. replace (i2 - t + t) with i2 by lia.
    apply Heq; assumption.
Qed.

Section Verdicts.

Variable sha256 : jsstring -> jsstring.

Lemma analyzeLoop_sound fuel s r s' :
  entriesSound s ->
  analyzeLoop sha256 fuel s = Some (r, s') ->
  toolSide s' = toolSide s
  /\ streamContentHistory s' = streamContentHistory s
  /\ (if r
      then telemetry s'
           = telemetry s ++ [{| loop_type := CHANTING_IDENTICAL_SENTENCES;
                                prompt_id := promptId s |}]
           /\ chants (streamContentHistory s)
      else telemetry s' = telemetry s /\ entriesSound s').
Proof.
  revert s. induction fuel as [|fuel IH]; intros s (Hi & Hs); [discriminate|].
  cbn [analyzeLoop].
  destruct (hasMoreChunksToProcess s) eqn:Hmore.
  - pose proof (isLoopDetectedForChunk_sound
                  (sha256 (chunkAt (streamContentHistory s)
                                   (lastContentIndex s)))
                  s Hi Hmore Hs) as Hstep.
    cbv zeta in Hstep. unfold chunkAt in Hstep.
    destruct (isLoopDetectedForChunk _ _ s) as [detected s1].
    cbn [fst snd] in Hstep. destruct Hstep as ((m & ->) & Hsound & Hch).
    destruct detected.
    + intros [= <- <-]. cbn. repeat split; auto.
    + intros H. apply IH in H.
      * destruct H as (H1 & H2 & H3). cbn in H1, H2.
        split; [exact H1|]. split; [exact H2|].
        destruct r; cbn in H3; exact H3.
      * split; [cbn; lia|]. exact Hsound.
  - intros [= <- <-].
    split; [reflexivity|split; [reflexivity|split; [reflexivity|]]].
    split; assumption.
Qed.

Lemma entriesSound_empty s :
  contentStats s = ∅ -> 0 <= lastContentIndex s -> entriesSound s.
Proof.
  intros He Hi. split; [exact Hi|]. intros hash l Hl.
  rewrite He, lookup_empty in Hl. discriminate.
Qed.

Lemma resetContentTracking_sound s :
  entriesSound (resetContentTracking true s).
Proof. apply entriesSound_empty; [reflexivity|cbn; lia]. Qed.

Lemma checkContentLoop_sound content s :
  entriesSound s ->
  let r := checkContentLoop sha256 content s in
  toolSide (snd r) = toolSide s
  /\ (if fst r
      then telemetry (snd r) = telemetry s
           \/ (telemetry (snd r)
               = telemetry s ++ [{| loop_type := CHANTING_IDENTICAL_SENTENCES;
                                    prompt_id := promptId s |}]
               /\ chants (streamContentHistory (snd r)))
      else telemetry (snd r) = telemetry s /\ entriesSound (snd r)).
Proof.
  intros Hs. unfold checkContentLoop. cbv zeta.
  match goal with
  | |- context [if ?b then resetContentTracking true s else s] =>
      set (s1 := if b then resetContentTracking true s else s)
  end.
  assert (H1 : entriesSound s1 /\ toolSide s1 = toolSide s
               /\ telemetry s1 = telemetry s).
  { subst s1. destruct (_ || _); [|auto].
    split; [apply resetContentTracking_sound|]. split; reflexivity. }
  destruct H1 as (Hs1 & Ht1 & Hl1).
  cbn [inCodeBlock set_inCodeBlock].
  set (s2 := set_inCodeBlock _ s1).
  assert (Hs2 : entriesSound s2) by exact Hs1.
  destruct (inCodeBlock s1 || _).
  { cbn [fst snd]. split; [exact Ht1|]. split; [exact Hl1|exact Hs2]. }
  set (s3 := set_streamContentHistory _ s2).
  assert (Hs3 : entriesSound s3).
  { destruct Hs2 as (Hi & Hb). split; [exact Hi|].
    intros hash l Hl. destruct (Hb hash l Hl) as (Hsort & Hbd & Heq).
    cbn [streamContentHistory s3 set_streamContentHistory].
    split; [exact Hsort|]. split.
    - intros i Hin. destruct (Hbd i Hin) as (Hi1 & Hi2).
      split; [exact Hi1|]. unfold strlen in *. rewrite length_app. lia.
    - intros i j Hin Hjn.
      destruct (Hbd i Hin) as (Hi1 & Hi2). destruct (Hbd j Hjn) as (Hj1 & Hj2).
      rewrite !chunkAt_app by lia. apply Heq; assumption. }
  destruct (hasObviousRepetition content s3).
  { cbn [fst snd]. split; [exact Ht1|]. left. exact Hl1. }
  destruct (truncateAndUpdate_sound s3 Hs3) as (Hs4 & Ht4 & Hl4).
  pose proof (analyzeContentChunksForLoop_runs sha256 (truncateAndUpdate s3))
    as Hrun.
  destruct (analyzeContentChunksForLoop sha256 (truncateAndUpdate s3))
    as [r s5].
  apply (analyzeLoop_sound _ _ _ _ Hs4) in Hrun as (Ht5 & Hh5 & Hr).
  cbn [fst snd]. split; [rewrite Ht5, Ht4; exact Ht1|].
  assert (Hp : promptId (truncateAndUpdate s3) = promptId s).
  { assert (E : toolSide (truncateAndUpdate s3) = toolSide s)
      by (rewrite Ht4; exact Ht1).
    unfold toolSide in E. congruence. }
  destruct r.
  - right. destruct Hr as (Hr1 & Hr2). rewrite Hr1, Hl4, Hp, Hh5.
    split; [|exact Hr2]. f_equal. exact Hl1.
  - destruct Hr as (Hr1 & Hr2). split; [|exact Hr2].
    rewrite Hr1, Hl4. exact Hl1.
Qed.

Variable Args : Type.
Variable JSON_stringify : Args -> jsstring.

Local Abbreviation addAndCheck := (addAndCheck sha256 Args JSON_stringify).
Local Abbreviation feed := (feed sha256 Args JSON_stringify).

Lemma addAndCheck_verdict logged e s :
  Verdict logged s ->
  Verdict logged (snd (addAndCheck e s))
  /\ promptId (snd (addAndCheck e s)) = promptId s.
Proof.
  intros V. unfold LoopDetection.addAndCheck.
  destruct V as [Hl Ht Hc Hs | Hl Ht Hc | Hl Ht Hc | Hl Ht Hc Hch];
    rewrite Hl; cbn [snd];
    [|split; [apply FastPath; assumption|reflexivity]
     |split; [apply ToolLoop; assumption|reflexivity]
     |split; [apply Chanting; assumption|reflexivity]].
  destruct e as [name args|content|].
  - unfold checkToolCallLoop. cbv zeta.
    set (s0 := resetContentTracking true s).
    match goal with
    | |- context [if ?d then ?a else ?b] =>
        match type of a with
        | Service => set (s1 := if d then a else b)
        end
    end.
    assert (H1 : promptId s1 = promptId s /\ telemetry s1 = telemetry s
                 /\ loopDetected s1 = false
                 /\ entriesSound s1).
    { subst s1. destruct (decide _);
        (split; [reflexivity|split; [reflexivity|split; [exact Hl|]]]);
        apply entriesSound_empty; try reflexivity; cbn; lia. }
    destruct H1 as (Hp1 & Ht1 & Hl1 & Hs1).
    destruct (TOOL_CALL_LOOP_THRESHOLD <=? toolCallRepetitionCount s1) eqn:E.
    + apply Z.leb_le in E. cbn [fst snd]. split; [|exact Hp1].
      apply ToolLoop; [reflexivity| |exact E].
      cbn. rewrite Ht1, Ht. reflexivity.
    + apply Z.leb_gt in E. cbn [fst snd]. split; [|exact Hp1].
      apply NoLoop; cbn; auto. congruence.
  - pose proof (checkContentLoop_sound content s Hs) as H. cbv zeta in H.
    destruct (checkContentLoop sha256 content s) as [r s1].
    cbn [fst snd] in *. destruct H as (Hside & Hr).
    unfold toolSide in Hside.
    assert (Hp : promptId s1 = promptId s) by congruence.
    assert (Hc1 : toolCallRepetitionCount s1 = toolCallRepetitionCount s)
      by congruence.
    split; [|exact Hp].
    destruct r.
    + destruct Hr as [Hr|(Hr1 & Hr2)].
      * apply FastPath; cbn; congruence.
      * apply Chanting; cbn; congruence.
    + destruct Hr as (Hr1 & Hr2).
      apply NoLoop; cbn; try congruence. exact Hr2.
  - cbn [snd]. split; [|reflexivity]. apply NoLoop; assumption.
Qed.

Lemma feed_verdict logged events s :
  Verdict logged s ->
  Verdict logged (snd (feed events s))
  /\ promptId (snd (feed events s)) = promptId s.
Proof.
  revert s. induction events as [|e events IH]; intros s V; [auto|].
  cbn [LoopDetection.feed].
  destruct (addAndCheck_verdict logged e s V) as (V1 & P1).
  destruct (addAndCheck e s) as [r s1]. cbn [snd] in *.
  destruct (IH s1 V1) as (V2 & P2).
  destruct (feed events s1) as [rs s2]. cbn [snd] in *.
  split; [exact V2|congruence].
Qed.

Lemma reset_verdict promptId s0 : Verdict (telemetry s0) (reset promptId s0).
Proof.
  apply NoLoop; try reflexivity.
  apply entriesSound_empty; [reflexivity|]. change (0 <= 0). lia.
Qed.

End Verdicts.

Lemma verdict_reported logged s :
  Verdict logged s ->
  (loopDetected s = false /\ telemetry s = logged
   /\ toolCallRepetitionCount s < TOOL_CALL_LOOP_THRESHOLD
   /\ reportedSince (length logged) s = [])
  \/ (loopDetected s = true /\ telemetry s = logged
      /\ toolCallRepetitionCount s < TOOL_CALL_LOOP_THRESHOLD
      /\ reportedSince (length logged) s = [])
  \/ (loopDetected s = true
      /\ telemetry s
         = logged ++ [{| loop_type := CONSECUTIVE_IDENTICAL_TOOL_CALLS;
                         prompt_id := promptId s |}]
      /\ TOOL_CALL_LOOP_THRESHOLD <= toolCallRepetitionCount s
      /\ reportedSince (length logged) s = [CONSECUTIVE_IDENTICAL_TOOL_CALLS])
  \/ (loopDetected s = true
      /\ telemetry s
         = logged ++ [{| loop_type := CHANTING_IDENTICAL_SENTENCES;
                         prompt_id := promptId s |}]
      /\ toolCallRepetitionCount s < TOOL_CALL_LOOP_THRESHOLD
      /\ reportedSince (length logged) s = [CHANTING_IDENTICAL_SENTENCES]
      /\ chants (streamContentHistory s)).
Proof.
  unfold reportedSince.
  intros [Hl Ht Hc Hs | Hl Ht Hc | Hl Ht Hc | Hl Ht Hc Hch].
  - left. rewrite Ht, drop_all. auto.
  - right; left. rewrite Ht, drop_all. auto.
  - right; right; left. rewrite Ht, drop_app_length. auto.
  - right; right; right. rewrite Ht, drop_app_length. auto 10.
Qed.

(** Property X26.  Between two resets at most one loop is logged, by the
    check that found it first; a loop found by the fast path is logged by
    none. Every logged event carries the prompt id of the reset, and a loop
    is logged only when the answers have turned to [true]. *)
Theorem one_report_per_prompt
        (sha256 : jsstring -> jsstring) (Args : Type)
        (JSON_stringify : Args -> jsstring)
        (events : list (ServerGeminiStreamEvent Args))
        (promptId : jsstring) (s0 : Service) :
  let s := snd (feed sha256 Args JSON_stringify events (reset promptId s0)) in
  let reported := reportedSince (length (telemetry s0)) s in
  ((loopDetected s = false /\ reported = [])
   \/ (loopDetected s = true
       /\ (reported = []
           \/ reported = [CONSECUTIVE_IDENTICAL_TOOL_CALLS]
           \/ reported = [CHANTING_IDENTICAL_SENTENCES])))
  /\ take (length (telemetry s0)) (telemetry s) = telemetry s0
  /\ Forall (fun ev => prompt_id ev = promptId)
            (drop (length (telemetry s0)) (telemetry s)).
Proof.
  intros s reported.
  destruct (feed_verdict sha256 Args JSON_stringify (telemetry s0) events
              (reset promptId s0) (reset_verdict promptId s0)) as (V & P).
  fold s in V, P. change (LoopDetection.promptId s = promptId) in P.
  apply verdict_reported in V. fold reported in V.
  destruct V as [(Hl & Ht & _ & Hr)|[(Hl & Ht & _ & Hr)
                |[(Hl & Ht & _ & Hr)|(Hl & Ht & _ & Hr & _)]]];
    rewrite Ht.
  - split; [left; auto|]. rewrite firstn_all, drop_all. auto.
  - split; [right; auto|]. rewrite firstn_all, drop_all. auto.
  - split; [right; auto|]. rewrite take_app_length, drop_app_length.
    split; [reflexivity|]. repeat constructor. exact P.
  - split; [right; auto|]. rewrite take_app_length, drop_app_length.
    split; [reflexivity|]. repeat constructor. exact P.
Qed.

(** Property X27.  A chanting loop is logged only when the history really
    holds one chunk of 20 code units at four offsets no more than 120 apart,
    whatever the digest: two chunks with the same digest are compared before
    they are counted. *)
Theorem chanting_report_is_sound
        (sha256 : jsstring -> jsstring) (Args : Type)
        (JSON_stringify : Args -> jsstring)
        (events : list (ServerGeminiStreamEvent Args))
        (promptId : jsstring) (s0 : Service) :
  reportedSince (length (telemetry s0))
    (snd (feed sha256 Args JSON_stringify events (reset promptId s0)))
  = [CHANTING_IDENTICAL_SENTENCES] ->
  chants (streamContentHistory
            (snd (feed sha256 Args JSON_stringify events
                       (reset promptId s0)))).
Proof.
  intros H.
  destruct (feed_verdict sha256 Args JSON_stringify (telemetry s0) events
              (reset promptId s0) (reset_verdict promptId s0)) as (V & _).
  apply verdict_reported in V.
  destruct V as [(_ & _ & _ & Hr)|[(_ & _ & _ & Hr)
                |[(_ & _ & _ & Hr)|(_ & _ & _ & _ & Hch)]]];
    [congruence..|exact Hch].
Qed.

Lemma chanting_report_is_sound_witness :
  reportedSince (length (telemetry newService))
    (snd (feed SHA256.hexDigest jsstring serialized
               (List.map Content (repeat alphabet20 4))
               (reset (lit "prompt-1") newService)))
  = [CHANTING_IDENTICAL_SENTENCES]
  /\ chants (streamContentHistory
               (snd (feed SHA256.hexDigest jsstring serialized
                          (List.map Content (repeat alphabet20 4))
                          (reset (lit "prompt-1") newService)))).
Proof.
  assert (H : reportedSince (length (telemetry newService))
                (snd (feed SHA256.hexDigest jsstring serialized
                           (List.map Content (repeat alphabet20 4))
                           (reset (lit "prompt-1") newService)))
              = [CHANTING_IDENTICAL_SENTENCES]) by (vm_compute; reflexivity).
  split; [exact H|].
  apply (chanting_report_is_sound SHA256.hexDigest jsstring serialized
           (List.map Content (repeat alphabet20 4)) (lit "prompt-1")
           newService H).
Defined.

(** Property X28.  The recovery prompts follow the check that found the
    loop: after a loop of tool calls was logged they are the prompts about
    tool calls, in every other case those about content. *)
Theorem recovery_prompts_match_report
        (sha256 : jsstring -> jsstring) (Args : Type)
        (JSON_stringify : Args -> jsstring)
        (events : list (ServerGeminiStreamEvent Args))
        (promptId : jsstring) (s0 : Service) :
  let s := snd (feed sha256 Args JSON_stringify events (reset promptId s0)) in
  getLoopRecoveryPrompts s
  = basePrompts
    ++ match reportedSince (length (telemetry s0)) s with
       | [CONSECUTIVE_IDENTICAL_TOOL_CALLS] => toolCallPrompts
       | _ => contentPrompts
       end.
Proof.
  intros s.
  destruct (feed_verdict sha256 Args JSON_stringify (telemetry s0) events
              (reset promptId s0) (reset_verdict promptId s0)) as (V & _).
  fold s in V. apply verdict_reported in V.
  unfold getLoopRecoveryPrompts.
  destruct V as [(_ & _ & Hc & Hr)|[(_ & _ & Hc & Hr)
                |[(_ & _ & Hc & Hr)|(_ & _ & Hc & Hr & _)]]];
    rewrite Hr.
  - apply Z.leb_gt in Hc. rewrite Hc. reflexivity.
  - apply Z.leb_gt in Hc. rewrite Hc. reflexivity.
  - apply Z.leb_le in Hc. rewrite Hc. reflexivity.
  - apply Z.leb_gt in Hc. rewrite Hc. reflexivity.
Qed.

(** *** What the check by the model leaves behind *)

Section Graft.

Variable sha256 : jsstring -> jsstring.

Lemma graft_isLoopDetectedForChunk chunk hash a s :
  isLoopDetectedForChunk chunk hash (graft a s)
  = (fst (isLoopDetectedForChunk chunk hash s),
     graft a (snd (isLoopDetectedForChunk chunk hash s))).
Proof.
  unfold isLoopDetectedForChunk. cbn [contentStats graft].
  destruct (contentStats s !! hash) as [[|first rest]|]; try reflexivity.
  change (isActualContentMatch chunk first (graft a s))
    with (isActualContentMatch chunk first s).
  destruct (negb _); [reflexivity|]. cbv zeta.
  destruct (_ <? _); reflexivity.
Qed.

Lemma graft_analyzeLoop fuel a s :
  match analyzeLoop sha256 fuel (graft a s), analyzeLoop sha256 fuel s with
  | Some (r1, s1), Some (r2, s2) => r1 = r2 /\ exists a', s1 = graft a' s2
  | None, None => True
  | _, _ => False
  end.
Proof.
  revert a s. induction fuel as [|fuel IH]; intros a s; [exact I|].
  cbn [analyzeLoop].
  change (hasMoreChunksToProcess (graft a s)) with (hasMoreChunksToProcess s).
  destruct (hasMoreChunksToProcess s).
  - cbn [streamContentHistory lastContentIndex graft].
    rewrite graft_isLoopDetectedForChunk.
    destruct (isLoopDetectedForChunk _ _ s) as [detected s1]. cbn [fst snd].
    destruct detected.
    + split; [reflexivity|].
      exists (logLoopDetected CHANTING_IDENTICAL_SENTENCES a). reflexivity.
    + apply (IH a (set_lastContentIndex (lastContentIndex s1 + 1) s1)).
  - split; [reflexivity|]. exists a. reflexivity.
Qed.

Lemma graft_analyzeContentChunksForLoop a s :
  fst (analyzeContentChunksForLoop sha256 (graft a s))
  = fst (analyzeContentChunksForLoop sha256 s)
  /\ exists a',
      snd (analyzeContentChunksForLoop sha256 (graft a s))
      = graft a' (snd (analyzeContentChunksForLoop sha256 s)).
Proof.
  unfold analyzeContentChunksForLoop.
  change (analyzeFuel (graft a s)) with (analyzeFuel s).
  pose proof (graft_analyzeLoop (analyzeFuel s) a s) as H.
  destruct (analyzeLoop sha256 (analyzeFuel s) (graft a s)) as [[r1 s1]|];
    destruct (analyzeLoop sha256 (analyzeFuel s) s) as [[r2 s2]|];
    try contradiction.
  - exact H.
  - split; [reflexivity|]. exists a. reflexivity.
Qed.

Lemma graft_truncateAndUpdate a s :
  truncateAndUpdate (graft a s) = graft a (truncateAndUpdate s).
Proof.
  unfold truncateAndUpdate. cbn [streamContentHistory graft].
  destruct (_ <=? _); reflexivity.
Qed.

Lemma graft_checkContentLoop content a s :
  fst (checkContentLoop sha256 content (graft a s))
  = fst (checkContentLoop sha256 content s)
  /\ exists a',
      snd (checkContentLoop sha256 content (graft a s))
      = graft a' (snd (checkContentLoop sha256 content s)).
Proof.
  unfold checkContentLoop. cbv zeta.
  match goal with
  | |- context [if ?b then resetContentTracking true s else s] =>
      set (marked := b)
  end.
  assert (E1 : (if marked then resetContentTracking true (graft a s)
                else graft a s)
               = graft a (if marked then resetContentTracking true s else s))
    by (destruct marked; reflexivity).
  rewrite E1. set (s1 := if marked then resetContentTracking true s else s).
  cbn [inCodeBlock graft set_inCodeBlock].
  set (inside := if countFences content mod 2 =? 0 then inCodeBlock s1
                 else negb (inCodeBlock s1)).
  destruct (inCodeBlock s1 || inside).
  - split; [reflexivity|]. exists a. reflexivity.
  - cbn [streamContentHistory graft set_streamContentHistory set_inCodeBlock].
    match goal with
    | |- context [hasObviousRepetition content ?x] =>
        match goal with
        | |- context [hasObviousRepetition content ?y] =>
            tryif constr_eq x y then fail
            else change (hasObviousRepetition content x)
                   with (hasObviousRepetition content y)
        end
    end.
    match goal with
    | |- context [hasObviousRepetition content ?y] =>
        destruct (hasObviousRepetition content y)
    end.
    + split; [reflexivity|]. exists a. reflexivity.
    + match goal with
      | |- context [truncateAndUpdate ?x] =>
          match goal with
          | |- context [truncateAndUpdate ?y] =>
              tryif constr_eq x y then fail
              else change x with (graft a y)
          end
      end.
      rewrite graft_truncateAndUpdate.
      apply graft_analyzeContentChunksForLoop.
Qed.

Variable Args : Type.
Variable JSON_stringify : Args -> jsstring.

Lemma graft_addAndCheck e a s :
  fst (addAndCheck sha256 Args JSON_stringify e (graft a s))
  = fst (addAndCheck sha256 Args JSON_stringify e s)
  /\ exists a',
      snd (addAndCheck sha256 Args JSON_stringify e (graft a s))
      = graft a' (snd (addAndCheck sha256 Args JSON_stringify e s)).
Proof.
  unfold addAndCheck. cbn [loopDetected graft].
  destruct (loopDetected s) eqn:Hl; [split; [reflexivity|eauto]|].
  destruct e as [name args|content|].
  - unfold checkToolCallLoop. cbv zeta.
    cbn [lastToolCallKey toolCallRepetitionCount graft resetContentTracking
         set_streamContentHistory set_contentStats set_lastContentIndex
         set_toolCall].
    destruct (decide _);
      cbn [toolCallRepetitionCount]; destruct (_ <=? _); cbn [fst snd];
      (split; [reflexivity|]).
    + exists (logLoopDetected CONSECUTIVE_IDENTICAL_TOOL_CALLS a). reflexivity.
    + exists a. reflexivity.
    + exists (logLoopDetected CONSECUTIVE_IDENTICAL_TOOL_CALLS a). reflexivity.
    + exists a. reflexivity.
  - destruct (graft_checkContentLoop content a s) as (H1 & a' & H2).
    destruct (checkContentLoop sha256 content (graft a s)) as [r1 s1].
    destruct (checkContentLoop sha256 content s) as [r2 s2].
    cbn [fst snd] in *. subst. split; [reflexivity|]. exists a'. reflexivity.
  - cbn [fst snd loopDetected graft]. split; [reflexivity|].
    exists a. reflexivity.
Qed.

Lemma graft_feed events a s :
  fst (feed sha256 Args JSON_stringify events (graft a s))
  = fst (feed sha256 Args JSON_stringify events s).
Proof.
  revert a s. induction events as [|e events IH]; intros a s; [reflexivity|].
  cbn [feed].
  destruct (graft_addAndCheck e a s) as (H1 & a' & H2).
  destruct (addAndCheck sha256 Args JSON_stringify e (graft a s)) as [r1 s1].
  destruct (addAndCheck sha256 Args JSON_stringify e s) as [r2 s2].
  cbn [fst snd] in *. subst. specialize (IH a' s2).
  destruct (feed sha256 Args JSON_stringify events (graft a' s2)) as [rs1 t1].
  destruct (feed sha256 Args JSON_stringify events s2) as [rs2 t2].
  cbn [fst] in *. congruence.
Qed.

Lemma turnStarted_graft openai result s :
  snd (turnStarted openai result s)
  = graft (snd (turnStarted openai result s)) s.
Proof.
  unfold turnStarted, checkForLoopWithLLM. cbv zeta.
  cbn [turnsInCurrentPrompt llmCheckInterval lastCheckTurn set_llmCheck].
  destruct (_ && _); [|reflexivity].
  destruct openai; [reflexivity|].
  destruct result as [|[confidence|]]; try reflexivity.
  destruct (Qgtb confidence 0.9); reflexivity.
Qed.

(** Property X29.  A verdict of the model is handed to the caller of
    [turnStarted] and to telemetry, but the service does not remember it:
    [loopDetected] is as before, and every later event is answered exactly
    as if the turn had not been checked. *)
Theorem llm_verdict_is_not_remembered (openai : bool) (result : GenerateJson)
        (s : Service) (events : list (ServerGeminiStreamEvent Args)) :
  let r := turnStarted openai result s in
  loopDetected (snd r) = loopDetected s
  /\ fst (feed sha256 Args JSON_stringify events (snd r))
     = fst (feed sha256 Args JSON_stringify events s)
  /\ telemetry (snd r)
     = telemetry s
       ++ (if fst r
           then [{| loop_type := LLM_DETECTED_LOOP; prompt_id := promptId s |}]
           else []).
Proof.
  intros r. subst r. split; [|split].
  - rewrite turnStarted_graft. reflexivity.
  - rewrite turnStarted_graft. apply graft_feed.
  - unfold turnStarted, checkForLoopWithLLM. cbn.
    destruct (_ && _); cbn; [|rewrite app_nil_r; auto].
    destruct openai; cbn; [rewrite app_nil_r; auto|].
    destruct result as [|[confidence|]]; cbn;
      [rewrite app_nil_r; auto| |rewrite app_nil_r; auto].
    destruct (Qgtb confidence 0.9); cbn; [auto|rewrite app_nil_r; auto].
Qed.

End Graft.

End DetectorProps.
